(** * Streamline fiber-tracking (DTB): a shallow embedding

    The development follows [src/DTB/Common/utils.h], [streamline.h],
    [TrackVis.h] and [Applications/DTB_streamline/main.cxx], and the
    voxel computations of [Applications/DTB_dtk2dir/main.cxx] and
    [Applications/DTB_P0/main.cxx].

    Number model.  The tracker computes on C [float]s.  Their arithmetic is
    embedded in exact rationals [Q]: comparisons, sums and products are the
    rational ones, [floor] is [Qfloor], and the two transcendental functions
    the code calls ([sqrt] in [Normalize], [cos] in [setConfig]) are taken as
    parameters.  C [int]s are [Z]; where the code relies on a fixed width
    (the [unsigned int] subtraction of the length filter, the header fields
    of the .trk file) the wrap-around is written out.  The .trk header is
    modelled at the byte level, [float] fields being carried there as their
    32-bit patterns. *)

From stdpp Require Import base list numbers strings.
From Stdlib Require Import QArith Qabs Qround Lia Lqa.

Local Open Scope Z_scope.

(** ** Comparisons on the rational model of [float] *)

Definition Qltb (a b : Q) : bool := negb (Qle_bool b a).
Definition Qneb (a b : Q) : bool := negb (Qeq_bool a b).

(** ** utils.h *)

Record Vec3Di := mkVec3Di { ix : Z; iy : Z; iz : Z }.
Record Vec3Df := mkVec3Df { fx : Q; fy : Q; fz : Q }.

Definition ScalarProduct (v1 v2 : Vec3Df) : Q :=
  (fx v1 * fx v2 + fy v1 * fy v2 + fz v1 * fz v2)%Q.

Section Normalize.
(** [sqrtf] stands for the C library [sqrt]. *)
Variable sqrtf : Q -> Q.

Definition Normalize (v : Vec3Df) : Vec3Df :=
  let norm := sqrtf (fx v * fx v + fy v * fy v + fz v * fz v)%Q in
  if Qltb 0 norm
  then mkVec3Df (fx v / norm) (fy v / norm) (fz v / norm)
  else v.
End Normalize.

(** ** blitz arrays

    A 3 x n [Array<float,2>] is the list of its columns, one [Vec3Df] per
    column; [column a i] reads column [i].  The code never reads a column it
    has not written or a negative one; such a read gets the zero vector
    here. *)

Definition column (a : list Vec3Df) (i : Z) : Vec3Df :=
  default (mkVec3Df 0 0 0) (a !! Z.to_nat i).

(** ** NIFTI.h: the part of a volume the tracker reads

    [dim] and [pixdim] are the header arrays, indexed like in the code
    ([dim 1], [dim 2], [dim 3] are the spatial axes).  [img] is the voxel
    array; a three-index access to the array is [img x y z 0].  The
    arrays are total functions: the code performs no bounds check of its own
    on [img], an access outside the grid is not given a meaning here. *)

Record NIFTI (T : Type) := mkNIFTI {
  dim : Z -> Z;
  pixdim : Z -> Q;
  img : Z -> Z -> Z -> Z -> T
}.
Arguments mkNIFTI {T} _ _ _.
Arguments dim {T} _ _.
Arguments pixdim {T} _ _.
Arguments img {T} _ _ _ _ _.

(** ** TrackVis.h *)

Module TrackVis.

Definition TRACKVIS_SAVE_ALL : Z := 0.
Definition TRACKVIS_SAVE_HALF : Z := 1.
Definition TRACKVIS_SAVE_UNIQUE : Z := 2.
Definition TRACKVIS_VOXEL_OFFSET : Q := 0.

(** *** Object representation

    A byte is a [Z] in [0,256).  Integers are stored little-endian in two's
    complement; a [float] is carried as its 32-bit pattern. *)

Definition le_bytes (n : nat) (v : Z) : list Z :=
  map (fun i => Z.land (Z.shiftr v (8 * Z.of_nat i)) 255) (seq 0 n).

Definition le_value (bs : list Z) : Z :=
  fold_right (fun b acc => b + 256 * acc) 0 bs.

Definition to_signed (bits : Z) (u : Z) : Z :=
  if u <? 2 ^ (bits - 1) then u else u - 2 ^ bits.

(** Write [bs] over the bytes from offset [off] on; a write that reaches
    past the end extends the sequence, as [fwrite] does on a file. *)
Definition store (off : Z) (bs : list Z) (m : list Z) : list Z :=
  take (Z.to_nat off) m ++ bs ++ drop (Z.to_nat off + length bs) m.

Definition load (off : Z) (n : nat) (m : list Z) : list Z :=
  take n (drop (Z.to_nat off) m).

(** [float] constants of the header, as bit patterns. *)
Definition f32_zero : Z := 0.
Definition f32_one : Z := 0x3F800000.

Definition f32_is_nan (b : Z) : bool :=
  (Z.land (Z.shiftr b 23) 255 =? 255) && negb (Z.land b 0x7FFFFF =? 0).

(** [x <= 0] on a [float] given by its bits: false on a NaN, true on both
    zeros and on every number with the sign bit set. *)
Definition f32_le_zero (b : Z) : bool :=
  negb (f32_is_nan b) && (Z.testbit b 31 || (Z.land b 0x7FFFFFFF =? 0)).

(** *** struct TrackVis_header *)

Inductive ctype := c_char | c_uchar | c_short | c_int | c_float.

Definition sizeof (t : ctype) : Z :=
  match t with
  | c_char | c_uchar => 1
  | c_short => 2
  | c_int | c_float => 4
  end.

Inductive member :=
| id_string | hdr_dim | voxel_size | origin | n_scalars | scalar_name
| n_properties | property_name | reserved | voxel_order | pad2
| image_orientation_patient | pad1 | invert_x | invert_y | invert_z
| swap_xy | swap_yz | swap_zx | n_count | version | hdr_size.

Definition member_eqb (a b : member) : bool :=
  match a, b with
  | id_string, id_string | hdr_dim, hdr_dim | voxel_size, voxel_size
  | origin, origin | n_scalars, n_scalars | scalar_name, scalar_name
  | n_properties, n_properties | property_name, property_name
  | reserved, reserved | voxel_order, voxel_order | pad2, pad2
  | image_orientation_patient, image_orientation_patient | pad1, pad1
  | invert_x, invert_x | invert_y, invert_y | invert_z, invert_z
  | swap_xy, swap_xy | swap_yz, swap_yz | swap_zx, swap_zx
  | n_count, n_count | version, version | hdr_size, hdr_size => true
  | _, _ => false
  end.

(** The members in declaration order: name, element type, element count. *)
Definition TrackVis_header : list (member * ctype * Z) :=
  [ (id_string, c_char, 6);
    (hdr_dim, c_short, 3);
    (voxel_size, c_float, 3);
    (origin, c_float, 3);
    (n_scalars, c_short, 1);
    (scalar_name, c_char, 10 * 20);
    (n_properties, c_short, 1);
    (property_name, c_char, 10 * 20);
    (reserved, c_char, 508);
    (voxel_order, c_char, 4);
    (pad2, c_char, 4);
    (image_orientation_patient, c_float, 6);
    (pad1, c_char, 2);
    (invert_x, c_uchar, 1);
    (invert_y, c_uchar, 1);
    (invert_z, c_uchar, 1);
    (swap_xy, c_uchar, 1);
    (swap_yz, c_uchar, 1);
    (swap_zx, c_uchar, 1);
    (n_count, c_int, 1);
    (version, c_int, 1);
    (hdr_size, c_int, 1) ].

(** Natural alignment: every member starts at the next multiple of the size
    of its element type. *)
Definition align_up (off a : Z) : Z := (off + a - 1) / a * a.

Fixpoint layout (off : Z) (ms : list (member * ctype * Z))
    : list (member * Z) * Z :=
  match ms with
  | [] => ([], off)
  | (m, t, n) :: rest =>
      let o := align_up off (sizeof t) in
      let '(l, e) := layout (o + sizeof t * n) rest in
      ((m, o) :: l, e)
  end.

Definition offsetof (m : member) : Z :=
  match find (fun p => member_eqb (fst p) m) (fst (layout 0 TrackVis_header)) with
  | Some p => snd p
  | None => 0
  end.

(** [sizeof(TrackVis_header)]: the end of the last member rounded up to the
    strictest alignment of the members (4). *)
Definition sizeof_header : Z := align_up (snd (layout 0 TrackVis_header)) 4.

(** Member accessors on the object representation [h] of a header. *)
Definition set_int16 (m : member) (i : Z) (v : Z) (h : list Z) : list Z :=
  store (offsetof m + 2 * i) (le_bytes 2 v) h.
Definition set_int32 (m : member) (v : Z) (h : list Z) : list Z :=
  store (offsetof m) (le_bytes 4 v) h.
Definition set_float (m : member) (i : Z) (bits : Z) (h : list Z) : list Z :=
  store (offsetof m + 4 * i) (le_bytes 4 bits) h.
Definition set_byte (m : member) (i : Z) (v : Z) (h : list Z) : list Z :=
  store (offsetof m + i) (le_bytes 1 v) h.
Definition set_chars (m : member) (cs : list Z) (h : list Z) : list Z :=
  store (offsetof m) cs h.

Definition get_int16 (m : member) (i : Z) (h : list Z) : Z :=
  to_signed 16 (le_value (load (offsetof m + 2 * i) 2 h)).
Definition get_int32 (m : member) (h : list Z) : Z :=
  to_signed 32 (le_value (load (offsetof m) 4 h)).
Definition get_float (m : member) (i : Z) (h : list Z) : Z :=
  le_value (load (offsetof m + 4 * i) 4 h).

(** *** class TrackVis

    [fp = None] is the NULL file pointer; an open file is its content and
    the position of the next read or write.  [hdr] is the object
    representation of the member [hdr]. *)

Record state := mk_state {
  fp : option (list Z * Z);
  maxSteps : Z;
  hdr : list Z
}.

(** The constructor leaves [hdr] as it finds it ([garbage]). *)
Definition new (garbage : list Z) : state := mk_state None 2000 garbage.

Definition fwrite (bs : list Z) (f : list Z * Z) : list Z * Z :=
  (store (snd f) bs (fst f), snd f + Z.of_nat (length bs)).

Definition fseek (off : Z) (f : list Z * Z) : list Z * Z := (fst f, off).

(** The loop of [create] over the three axes; [false] is the [return 0]
    in the middle of it. *)
Fixpoint create_axes (axes : list Z) (dims pixdims : Z -> Z) (h : list Z)
    : bool * list Z :=
  match axes with
  | [] => (true, h)
  | i :: rest =>
      if (dims i <=? 0) || f32_le_zero (pixdims i) then (false, h)
      else
        create_axes rest dims pixdims
          (set_float origin i f32_zero
             (set_float voxel_size i (pixdims i)
                (set_int16 hdr_dim i (dims i) h)))
  end.

(** "LPS" and "TRACK" as [sprintf] writes them, the terminating zero
    included. *)
Definition str_LPS : list Z := [76; 80; 83; 0].
Definition str_TRACK : list Z := [84; 82; 65; 67; 75; 0].

Definition create_fields (h : list Z) : list Z :=
  set_int32 hdr_size 1000
    (set_int32 version 1
       (set_int32 n_count 0
          (set_byte swap_zx 0 0
             (set_byte swap_yz 0 0
                (set_byte swap_xy 0 0
                   (set_byte invert_z 0 0
                      (set_byte invert_y 0 0
                         (set_byte invert_x 0 0
                            (set_byte pad1 1 0
                               (set_byte pad1 0 0
    (set_float image_orientation_patient 5 f32_zero
       (set_float image_orientation_patient 4 f32_one
          (set_float image_orientation_patient 3 f32_zero
             (set_float image_orientation_patient 2 f32_zero
                (set_float image_orientation_patient 1 f32_zero
                   (set_float image_orientation_patient 0 f32_one
                      (set_chars pad2 str_LPS
                         (set_chars voxel_order str_LPS
                            (set_int16 n_properties 0 0
                               (set_int16 n_scalars 0 0 h)))))))))))))))))))).

(** [create]: [openable] tells whether [fopen(filename, "w+b")] succeeds;
    on success the file starts empty.  The result is the returned [short]
    and the object afterwards. *)
Definition create (tv : state) (openable : bool) (dims pixdims : Z -> Z)
    : Z * state :=
  let '(ok, h) := create_axes [0; 1; 2] dims pixdims (hdr tv) in
  if negb ok then (0, mk_state (fp tv) (maxSteps tv) h)
  else
    let h := create_fields h in
    if negb openable then (0, mk_state None (maxSteps tv) h)
    else
      let h := set_chars id_string str_TRACK h in
      (1, mk_state (Some (fwrite (take 1000 h) ([], 0))) (maxSteps tv) h).

(** [open]: [disk] is the content of the file, [None] when [fopen] fails.
    The returned [short] is what [fread] returned. *)
Definition open (tv : state) (disk : option (list Z)) : Z * state :=
  match disk with
  | None => (0, mk_state None (maxSteps tv) (hdr tv))
  | Some content =>
      let got := take 1000 content in
      (Z.of_nat (length got),
       mk_state (Some (content, Z.of_nat (length got))) (maxSteps tv)
                (store 0 got (hdr tv)))
  end.

(** [updateTotal] and [writeHdr] need an open file; they are the identity
    on an object whose [fp] is NULL, where the code has no defined
    behaviour. *)
Definition updateTotal (tv : state) (totFibers : Z) : state :=
  match fp tv with
  | None => tv
  | Some f =>
      mk_state (Some (fwrite (le_bytes 4 totFibers) (fseek (1000 - 12) f)))
               (maxSteps tv) (hdr tv)
  end.

Definition writeHdr (tv : state) : state :=
  match fp tv with
  | None => tv
  | Some f =>
      mk_state (Some (fwrite (take 1000 (hdr tv)) (fseek 0 f)))
               (maxSteps tv) (hdr tv)
  end.

(** [close] gives back the content left on disk. *)
Definition close (tv : state) : option (list Z) * state :=
  (option_map fst (fp tv), mk_state None (maxSteps tv) (hdr tv)).

(** *** append

    [fiber] is the 3 x n array of a fiber, read with [column]. *)

(** The three [tmp[pos++] = ...] of a saved point. *)
Definition push_point (tmp : list Q) (p : Vec3Df) : list Q :=
  tmp ++ [(fx p + TRACKVIS_VOXEL_OFFSET)%Q; (fy p + TRACKVIS_VOXEL_OFFSET)%Q;
          (fz p + TRACKVIS_VOXEL_OFFSET)%Q].

(** State of the TRACKVIS_SAVE_UNIQUE loop: [tmp] (its length is [pos]),
    [(oldX, oldY, oldZ)] and [numSaved]. *)
Record unique_state := mk_unique {
  u_tmp : list Q;
  u_old : Z * Z * Z;
  u_numSaved : Z
}.

(** [X], [Y], [Z]: the floors of the three coordinates of a point, in mm
    and not divided by a voxel size.  The code keeps them in [int]s; the
    statements ask for floors that fit one. *)
Definition floor3 (p : Vec3Df) : Z * Z * Z :=
  (Qfloor (fx p), Qfloor (fy p), Qfloor (fz p)).

(** One iteration of the loop, on the point [p] of column [i]. *)
Definition unique_point (st : unique_state) (p : Vec3Df) : unique_state :=
  let '(X, Y, Z) := floor3 p in
  let '(oldX, oldY, oldZ) := u_old st in
  if (Z.of_nat (length (u_tmp st)) =? 0) || negb (X =? oldX) ||
     negb (Y =? oldY) || negb (Z =? oldZ)
  then mk_unique (push_point (u_tmp st) p) (X, Y, Z) (u_numSaved st + 1)
  else st.

Definition unique_iter (fiber : list Vec3Df) (st : unique_state) (i : Z)
    : unique_state :=
  unique_point st (column fiber i).

Definition save_unique (fiber : list Vec3Df) (numPoints : Z) : Z * list Q :=
  let st := fold_left (unique_iter fiber) (seqZ 0 numPoints)
                      (mk_unique [] (0, 0, 0) 0) in
  (u_numSaved st, u_tmp st).

(** The indices visited by [for(int i=numPoints-1; i>0; i-=2)]. *)
Fixpoint half_indices (fuel : nat) (i : Z) : list Z :=
  match fuel with
  | O => []
  | S fuel => if 0 <? i then i :: half_indices fuel (i - 2) else []
  end.

Definition save_half (fiber : list Vec3Df) (numPoints : Z) : Z * list Q :=
  let numSaved := Qceiling (inject_Z (numPoints - 1) / 2) + 1 in
  let tmp := fold_left (fun tmp i => push_point tmp (column fiber i))
               (half_indices (Z.to_nat numPoints) (numPoints - 1)) [] in
  (numSaved, push_point tmp (column fiber 0)).

Definition save_all (fiber : list Vec3Df) (numPoints : Z) : Z * list Q :=
  (numPoints,
   fold_left (fun tmp i => push_point tmp (column fiber i))
             (seqZ 0 numPoints) []).

(** What [append] hands to [fwrite]: [numSaved] and [tmp[0..pos)]. *)
Definition append_points (fiber : list Vec3Df) (numPoints : Z)
    (saveMethod : Z) : Z * list Q :=
  if saveMethod =? TRACKVIS_SAVE_HALF then save_half fiber numPoints
  else if saveMethod =? TRACKVIS_SAVE_UNIQUE then save_unique fiber numPoints
  else save_all fiber numPoints.

Section Append.
(** [f32_bits] gives the 32-bit pattern of a [float] value. *)
Variable f32_bits : Q -> Z.

(** Both [fwrite]s are taken to write everything they are given (the
    "Problems saving the fiber" returns are for a failing device).  The
    call is the identity on an object whose [fp] is NULL, where the code
    has no defined behaviour. *)
Definition append (tv : state) (fiber : list Vec3Df) (numPoints : Z)
    (saveMethod : Z) : Z * state :=
  if maxSteps tv <? numPoints then (0, tv)
  else
    let '(numSaved, tmp) := append_points fiber numPoints saveMethod in
    match fp tv with
    | None => (0, tv)
    | Some f =>
        let f := fwrite (le_bytes 4 numSaved) f in
        let f := fwrite (flat_map (fun x => le_bytes 4 (f32_bits x)) tmp) f in
        (0, mk_state (Some f) (maxSteps tv) (hdr tv))
    end.
End Append.

End TrackVis.

(** ** streamline.h: tracking_config *)

Record tracking_config := mk_tracking_config {
  seeds : Z;
  minLength : Z;
  maxLength : Z;
  stepSize : Q;
  volFracThr : Q;
  maxAngle : Q
}.

(** The constructor's defaults. *)
Definition tracking_config_default : tracking_config :=
  mk_tracking_config 1 10 1000 1 0 45.

(** A fiber is the list of its columns (one [Vec3Df] per point). *)
Abbreviation FIBER := (list Vec3Df).

(** ** streamline.h: class streamline

    The read-only members.  [ANGLE_thr] is what [setConfig] stored,
    [cos(maxAngle/180.0*3.14159265)]; [niiSEED = None] is the NULL seed
    mask. *)

Record streamline := mk_streamline {
  ANGLE_thr : Q;
  CONFIG : tracking_config;
  niiDIR : NIFTI Q;
  niiMASK : NIFTI Z;
  niiSEED : option (NIFTI Z)
}.

(** *** pickBestDir *)

Definition DIR_at (s : streamline) (voxel : Vec3Di) (k : Z) : Q :=
  img (niiDIR s) (ix voxel) (iy voxel) (iz voxel) k.

(** The dot product computed inside the loop of [pickBestDir]. *)
Definition DOT_of (s : streamline) (voxel : Vec3Di) (vec : Vec3Df) (i : Z) : Q :=
  (fx vec * DIR_at s voxel (i*4+1) +
   fy vec * DIR_at s voxel (i*4+2) +
   fz vec * DIR_at s voxel (i*4+3))%Q.

(** One iteration of [for(i=0; i<3; i++)]; the state is [(idx, max)].
    [abs(DOT)] is the [float] overload of [abs]. *)
Definition pick_iter (s : streamline) (voxel : Vec3Di) (vec : Vec3Df)
    (st : Z * Q) (i : Z) : Z * Q :=
  if Qle_bool (DIR_at s voxel (i*4)) (volFracThr (CONFIG s)) then st
  else
    let DOT := DOT_of s voxel vec i in
    let DOTabs := Qabs DOT in
    if Qltb (ANGLE_thr s) DOTabs && Qltb (snd st) DOTabs
    then (if Qltb 0 DOT then i + 1 else - (i + 1), DOTabs)
    else st.

Definition pick_loop (s : streamline) (voxel : Vec3Di) (vec : Vec3Df) : Z * Q :=
  fold_left (pick_iter s voxel vec) [0; 1; 2] (0, 0%Q).

(** [pickBestDir] returns its [bool] and the new content of [vec] (left as it
    was when the function returns [false]). *)
Definition pickBestDir (s : streamline) (voxel : Vec3Di) (vec : Vec3Df)
    : bool * Vec3Df :=
  let idx := fst (pick_loop s voxel vec) in
  if idx =? 0 then (false, vec)
  else
    let i := if idx <? 0 then -1 else 1 in
    let idx := (Z.abs idx - 1) * 4 in
    (true,
     mkVec3Df (inject_Z i * DIR_at s voxel (idx+1))
              (inject_Z i * DIR_at s voxel (idx+2))
              (inject_Z i * DIR_at s voxel (idx+3))).

(** *** trackFromXYZ *)

Definition Vsub (a b : Vec3Df) : Vec3Df :=
  mkVec3Df (fx a - fx b) (fy a - fy b) (fz a - fz b).

(** [p + k * d], componentwise. *)
Definition Vstep (p : Vec3Df) (k : Q) (d : Vec3Df) : Vec3Df :=
  mkVec3Df (fx p + k * fx d) (fy p + k * fy d) (fz p + k * fz d).

(** The voxel of the grid of [nii] that holds the point [c]. *)
Definition voxel_of {T} (nii : NIFTI T) (c : Vec3Df) : Vec3Di :=
  mkVec3Di (Qfloor (fx c / pixdim nii 1)) (Qfloor (fy c / pixdim nii 2))
           (Qfloor (fz c / pixdim nii 3)).

(** The test that stops a fiber (and a seed point): the point is outside the
    grid of the white-matter mask or in a voxel where the mask is 0. *)
Definition outside_WM (s : streamline) (c : Vec3Df) : bool :=
  let VOXEL_wm := voxel_of (niiMASK s) c in
  (ix VOXEL_wm <? 0) || (dim (niiMASK s) 1 - 1 <? ix VOXEL_wm) ||
  (iy VOXEL_wm <? 0) || (dim (niiMASK s) 2 - 1 <? iy VOXEL_wm) ||
  (iz VOXEL_wm <? 0) || (dim (niiMASK s) 3 - 1 <? iz VOXEL_wm) ||
  (img (niiMASK s) (ix VOXEL_wm) (iy VOXEL_wm) (iz VOXEL_wm) 0 =? 0).

(** The variables of one trajectory: [COORD], [dir], the columns
    [0..step-1] of [FIBERs(found)] and [step]. *)
Record growth := mk_growth {
  COORD : Vec3Df;
  dir : Vec3Df;
  fiber : FIBER;
  step : Z
}.

(** Body of [while( step<CONFIG->maxLength )]; [None] is a [break]. *)
Definition while_body (s : streamline) (g : growth) : option growth :=
  if outside_WM s (COORD g) then None
  else
    let VOXEL_dsi := voxel_of (niiDIR s) (COORD g) in
    let '(dirFound, d) := pickBestDir s VOXEL_dsi (dir g) in
    if negb dirFound then None
    else
      let c := Vstep (COORD g) (stepSize (CONFIG s)) d in
      Some (mk_growth c d (fiber g ++ [c]) (step g + 1)).

(** The while loop.  [None] means that [fuel] iterations were not enough to
    leave it. *)
Fixpoint while_loop (s : streamline) (fuel : nat) (g : growth) : option growth :=
  if step g <? maxLength (CONFIG s) then
    match fuel with
    | O => None
    | S fuel =>
        match while_body s g with
        | None => Some g
        | Some g' => while_loop s fuel g'
        end
    end
  else Some g.

(** [reverseSelf] on the columns [0..step-1], after [COORD] has been reset to
    column 0. *)
Definition reverse_part (g : growth) : growth :=
  let n := Z.to_nat (step g) in
  mk_growth (column (fiber g) 0) (dir g)
            (rev (take n (fiber g)) ++ drop n (fiber g)) (step g).

Section Tracking.
Variable sqrtf : Q -> Q.
(** [uniform n] is the [n]-th number that [uniformGenerator.random()]
    returns, counted from the construction of the tracker. *)
Variable uniform : nat -> Q.

(** Body of [for(int semi_step=0; semi_step<2; semi_step++)]. *)
Definition semi_step_body (s : streamline) (g : growth) (semi_step : Z)
    : option growth :=
  let d := Normalize sqrtf
             (Vsub (column (fiber g) (step g - 1))
                   (column (fiber g) (step g - 2))) in
  g' ← while_loop s (Z.to_nat (maxLength (CONFIG s)))
                  (mk_growth (COORD g) d (fiber g) (step g));
  Some (if semi_step =? 0 then reverse_part g' else g').

(** The members that [trackFromXYZ] updates, with its static [found] and
    the position [drawn] in the random sequence. *)
Record track_state := mk_track {
  FIBERs : list FIBER;
  LENGTHs : list Z;
  found : nat;
  drawn : nat
}.

(** Body of [for(int seedDir=0; seedDir<3; seedDir++)]. *)
Definition seedDir_body (s : streamline) (x y z : Z) (COORD_seed : Vec3Df)
    (st : track_state) (seedDir : Z) : option track_state :=
  if Qle_bool (img (niiDIR s) x y z (seedDir*4)) (volFracThr (CONFIG s))
  then Some st
  else
    let d := mkVec3Df (img (niiDIR s) x y z (seedDir*4+1))
                      (img (niiDIR s) x y z (seedDir*4+2))
                      (img (niiDIR s) x y z (seedDir*4+3)) in
    let c := Vstep COORD_seed (stepSize (CONFIG s)) d in
    g1 ← semi_step_body s (mk_growth c d [COORD_seed; c] 2) 0;
    g2 ← semi_step_body s g1 1;
    Some (mk_track (<[found st := fiber g2]> (FIBERs st))
                   (<[found st := step g2]> (LENGTHs st))
                   (S (found st)) (drawn st)).

Definition new_seed (s : streamline) (x y z : Z) (n : nat) : Vec3Df :=
  mkVec3Df ((inject_Z x + uniform n) * pixdim (niiDIR s) 1)
           ((inject_Z y + uniform (n + 1)) * pixdim (niiDIR s) 2)
           ((inject_Z z + uniform (n + 2)) * pixdim (niiDIR s) 3).

(** [for(int seedNum=0; seedNum<CONFIG->seeds; seedNum++)], by recursion on
    the number [n] of iterations left.  The [break] on a seed point outside
    the white matter leaves the loop. *)
Fixpoint seedNum_loop (s : streamline) (x y z : Z) (n : nat)
    (st : track_state) : option track_state :=
  match n with
  | O => Some st
  | S n =>
      let COORD_seed := new_seed s x y z (drawn st) in
      let st := mk_track (FIBERs st) (LENGTHs st) (found st) (drawn st + 3) in
      if outside_WM s COORD_seed then Some st
      else
        st ← seedDir_body s x y z COORD_seed st 0;
        st ← seedDir_body s x y z COORD_seed st 1;
        st ← seedDir_body s x y z COORD_seed st 2;
        seedNum_loop s x y z n st
  end.

(** [trackFromXYZ]; the returned [short] is [found] of the result. *)
Definition trackFromXYZ (s : streamline) (x y z : Z) (st : track_state)
    : option track_state :=
  let st := mk_track (FIBERs st) (LENGTHs st) 0 (drawn st) in
  if (x <? 0) || (dim (niiDIR s) 1 - 1 <? x) ||
     (y <? 0) || (dim (niiDIR s) 2 - 1 <? y) ||
     (z <? 0) || (dim (niiDIR s) 3 - 1 <? z)
  then Some st
  else seedNum_loop s x y z (Z.to_nat (seeds (CONFIG s))) st.
End Tracking.

(** *** setConfig *)

Section SetConfig.
(** [cosf] stands for the C library [cos]. *)
Variable cosf : Q -> Q.

(** [3.14159265] as written in the source. *)
Definition PI_literal : Q := 314159265 # 100000000.

(** Sets [CONFIG] and [ANGLE_thr] and resizes [FIBERs] and [LENGTHs] to
    [seeds*3] entries, every [FIBERs(i)] to 3 x [maxLength].  A fiber is
    carried here as its columns [0..step-1] only, so the resized buffers
    start empty; their capacity [maxLength] is not represented, and the
    content of the resized arrays, which the code does not specify, is
    irrelevant: every entry is written before it is read. *)
Definition setConfig (s : streamline) (c : tracking_config)
    (st : track_state) : streamline * track_state :=
  (mk_streamline (cosf (maxAngle c / 180 * PI_literal)%Q) c
                 (niiDIR s) (niiMASK s) (niiSEED s),
   mk_track (replicate (Z.to_nat (seeds c * 3)) [])
            (replicate (Z.to_nat (seeds c * 3)) 0)
            (found st) (drawn st)).
End SetConfig.

(** *** setWhiteMatterMask, setSeedMask

    What a call does besides returning: it may print, and it may end the
    process. *)

Inductive outcome (A : Type) :=
| Returns (out err : list string) (a : A)
| Exits (status : Z) (out err : list string).
Arguments Returns {A} _ _ _.
Arguments Exits {A} _ _ _.

Definition FOV_warning : string :=
  "[WARNING] The FOV doesn't match between WM MASK and DIR! The software could CRASH or give weird results!".
Definition SEED_error : string :=
  "[ERROR] the SEED MASK must have the same geometry of DIR dataset!".

Definition setWhiteMatterMask (s : streamline) (nii : NIFTI Z)
    : outcome streamline :=
  let s' := mk_streamline (ANGLE_thr s) (CONFIG s) (niiDIR s) nii (niiSEED s) in
  if Qneb (inject_Z (dim nii 1) * pixdim nii 1)
          (inject_Z (dim (niiDIR s) 1) * pixdim (niiDIR s) 1) ||
     Qneb (inject_Z (dim nii 2) * pixdim nii 2)
          (inject_Z (dim (niiDIR s) 2) * pixdim (niiDIR s) 2) ||
     Qneb (inject_Z (dim nii 3) * pixdim nii 3)
          (inject_Z (dim (niiDIR s) 3) * pixdim (niiDIR s) 3)
  then Returns [FOV_warning] [] s'
  else Returns [] [] s'.

Definition setSeedMask (s : streamline) (nii : option (NIFTI Z))
    : outcome streamline :=
  let s' := mk_streamline (ANGLE_thr s) (CONFIG s) (niiDIR s) (niiMASK s) nii in
  match nii with
  | None => Returns [] [] s'
  | Some n =>
      if Qneb (pixdim n 1) (pixdim (niiDIR s) 1) ||
         Qneb (pixdim n 2) (pixdim (niiDIR s) 2) ||
         Qneb (pixdim n 3) (pixdim (niiDIR s) 3) ||
         negb (dim n 1 =? dim (niiDIR s) 1) ||
         negb (dim n 2 =? dim (niiDIR s) 2) ||
         negb (dim n 3 =? dim (niiDIR s) 3)
      then Exits 1 [] [SEED_error]
      else Returns [] [] s'
  end.

(** *** doTracking *)

(** The GLOBAL FILTER.  [LENGTHs(i)] is an [unsigned int], so is
    [LENGTHs(i)-1]: the subtraction wraps at [2^32]. *)
Definition accept (s : streamline) (LENGTH : Z) : bool :=
  Qle_bool (inject_Z (minLength (CONFIG s)))
           (inject_Z ((LENGTH - 1) mod 2 ^ 32) * stepSize (CONFIG s) *
            pixdim (niiDIR s) 1).

Section DoTracking.
Variable sqrtf : Q -> Q.
Variable uniform : nat -> Q.
Variable f32_bits : Q -> Z.

(** Body of [for(int i=0; i<foundAtXYZ; i++)]; the state is the .trk file
    and [tot_fibers]. *)
Definition save_body (s : streamline) (st : track_state)
    (acc : TrackVis.state * Z) (i : nat) : TrackVis.state * Z :=
  let LENGTH := default 0 (LENGTHs st !! i) in
  if accept s LENGTH
  then (snd (TrackVis.append f32_bits (fst acc) (default [] (FIBERs st !! i))
                             LENGTH TrackVis.TRACKVIS_SAVE_UNIQUE),
        snd acc + 1)
  else acc.

Definition save_found (s : streamline) (st : track_state)
    (acc : TrackVis.state * Z) : TrackVis.state * Z :=
  fold_left (save_body s st) (seq 0 (found st)) acc.

(** The loop body for one voxel of the grid of DIR. *)
Definition voxel_body (s : streamline)
    (acc : track_state * (TrackVis.state * Z)) (v : Z * Z * Z)
    : option (track_state * (TrackVis.state * Z)) :=
  let '(x, y, z) := v in
  let skip := match niiSEED s with
              | Some seed => img seed x y z 0 =? 0
              | None => false
              end in
  if skip then Some acc
  else
    st ← trackFromXYZ sqrtf uniform s x y z (fst acc);
    Some (st, save_found s st (snd acc)).

Fixpoint voxel_loop (s : streamline) (vs : list (Z * Z * Z))
    (acc : track_state * (TrackVis.state * Z))
    : option (track_state * (TrackVis.state * Z)) :=
  match vs with
  | [] => Some acc
  | v :: vs => acc ← voxel_body s acc v; voxel_loop s vs acc
  end.

(** The voxels in the order of the three nested loops: [z] outermost, [x]
    innermost. *)
Definition raster (d1 d2 d3 : Z) : list (Z * Z * Z) :=
  z ← seqZ 0 d3; y ← seqZ 0 d2; x ← seqZ 0 d1; [(x, y, z)].

(** A [short] initialised from an [int]. *)
Definition to_short (v : Z) : Z := TrackVis.to_signed 16 (v mod 2 ^ 16).

(** [doTracking]: the returned count, the content of the .trk file on disk
    and the tracker's arrays afterwards.  [CONFIG] and [niiMASK] are set
    (the function returns 0 at once otherwise).  The progress display is
    left out. *)
Definition doTracking (s : streamline) (st : track_state)
    (garbage : list Z) (openable : bool)
    : option (Z * option (list Z) * track_state) :=
  let TRK_file := TrackVis.new garbage in
  let TRK_file :=
    snd (TrackVis.create TRK_file openable
           (fun i => to_short (dim (niiMASK s) (i + 1)))
           (fun i => f32_bits (pixdim (niiMASK s) (i + 1)))) in
  r ← voxel_loop s (raster (dim (niiDIR s) 1) (dim (niiDIR s) 2)
                           (dim (niiDIR s) 3))
                 (st, (TRK_file, 0));
  let '(st, (TRK_file, tot_fibers)) := r in
  let TRK_file := TrackVis.updateTotal TRK_file tot_fibers in
  Some (tot_fibers mod 2 ^ 32, fst (TrackVis.close TRK_file), st).
End DoTracking.

(** ** Applications/DTB_streamline/main.cxx *)

(** How the [try] block around the option parser ends: normally, with a
    [std::exception] (caught, [return 1]) or with another exception (caught
    by [catch(...)], which does not return). *)
Inductive parsing := parsed_ok | parsed_exception | parsed_unknown.

(** What [main] knows after the parser ran: [argc], which options were
    given, and [CONFIG] (the constructor's defaults overwritten by the
    options). *)
Record arguments := mk_arguments {
  argc : Z;
  parse : parsing;
  opt_help : bool;
  opt_dir : bool;
  opt_seed : bool;
  opt_wm : bool;
  opt_out : bool;
  parsed_CONFIG : tracking_config
}.

(** [main] from its first line to the last parameter check.  [Returns] is
    reaching "PRINT a summary of parameters"; nothing has been read or
    written at that point. *)
Definition main_checks (a : arguments) : outcome tracking_config :=
  let CONFIG := parsed_CONFIG a in
  match parse a with
  | parsed_exception => Exits 1 [] ["exception"]
  | _ =>
    if match parse a with
       | parsed_ok => (argc a <? 2) || opt_help a
       | _ => false
       end
    then Exits 1 ["Parameters syntax"] []
    else if negb (opt_dir a) then Exits 1 [] ["'dir' parameter not set."]
    else if negb (opt_wm a) then Exits 1 [] ["'wm' parameter not set."]
    else if negb (opt_out a) then Exits 1 [] ["'out' parameter not set."]
    else if Qltb (volFracThr CONFIG) 0 || Qltb 1 (volFracThr CONFIG)
      then Exits 1 [] ["'vf' parameter must be in the range [0..1]."]
    else if Qle_bool (stepSize CONFIG) 0 || Qltb 4 (stepSize CONFIG)
      then Exits 1 [] ["'stepSize' parameter must be in the range (0..4]."]
    else if (maxLength CONFIG <? 1) || (1000 <? maxLength CONFIG)
      then Exits 1 [] ["'maxLength' parameter must be in the range [1..1000]."]
    else if Qltb (maxAngle CONFIG) 1 || Qltb 90 (maxAngle CONFIG)
      then Exits 1 [] ["'maxAngle' parameter must be in the range [1..90]."]
    else if (seeds CONFIG <? 1) || (64 <? seeds CONFIG)
      then Exits 1 [] ["'seeds' parameter must be in the range [1..64]."]
    else Returns [] [] CONFIG
  end.

(** The end of a run: the exit status and the .trk file left on disk, if one
    was created. *)
Record run := mk_run {
  status : Z;
  trk_file : option (list Z)
}.

Section Main.
Variable sqrtf cosf : Q -> Q.
Variable uniform : nat -> Q.
Variable f32_bits : Q -> Z.

(** The constructor [streamline(nii)]; the members it does not set get a
    placeholder, they are set before [doTracking] reads them. *)
Definition streamline_new (nii : NIFTI Q) : streamline :=
  mk_streamline 0 tracking_config_default nii
                (mkNIFTI (fun _ => 0) (fun _ => 0%Q) (fun _ _ _ _ => 0)) None.

(** [main].  [DIR], [MASK] and [SEED] are the volumes behind the three
    paths, [None] for a file that cannot be opened or has the wrong data
    type; [garbage] and [openable] are as in [TrackVis.create].  The
    outer [option] is the fuel of the growth loop. *)
Definition main (a : arguments) (DIR : option (NIFTI Q))
    (MASK SEED : option (NIFTI Z)) (garbage : list Z) (openable : bool)
    : option run :=
  match main_checks a with
  | Exits st _ _ => Some (mk_run st None)
  | Returns _ _ CONFIG =>
    match DIR, MASK with
    | None, _ | _, None => Some (mk_run 1 None)
    | Some niiDIR, Some niiMASK =>
      if opt_seed a && negb (bool_decide (is_Some SEED))
      then Some (mk_run 1 None)
      else
        let TRACKER := streamline_new niiDIR in
        let '(TRACKER, st) := setConfig cosf TRACKER CONFIG (mk_track [] [] 0 0) in
        match setWhiteMatterMask TRACKER niiMASK with
        | Exits st _ _ => Some (mk_run st None)
        | Returns _ _ TRACKER =>
          match setSeedMask TRACKER (if opt_seed a then SEED else None) with
          | Exits st _ _ => Some (mk_run st None)
          | Returns _ _ TRACKER =>
            r ← doTracking sqrtf uniform f32_bits TRACKER st garbage openable;
            Some (mk_run 0 (snd (fst r)))
          end
        end
    end
  end.
End Main.

(** ** Applications/DTB_dtk2dir/main.cxx

    The converter that writes the DIR volume the tracker reads: twelve
    values per voxel, three slots of a volume fraction followed by a
    direction. *)

Module dtk2dir.

(** Element [i] of a small C array; the code reads no element it has not
    initialised. *)
Definition elt {A} (d : A) (a : list A) (i : Z) : A :=
  default d (a !! Z.to_nat i).

(** *** DTI case *)

Section DTI.
(** [sqrtf] stands for the C library [sqrt]. *)
Variable sqrtf : Q -> Q.

(** The twelve stores of the loop body, on the voxel [(x,y,z)] of the
    zero-filled DIR array; [ix], [iy], [iz] are 1 or -1. *)
Definition dti_voxel (ix iy iz : Q) (niiV1 : NIFTI Q) (x y z : Z) : list Q :=
  let norm := sqrtf (img niiV1 x y z 0 * img niiV1 x y z 0 +
                     img niiV1 x y z 1 * img niiV1 x y z 1 +
                     img niiV1 x y z 2 * img niiV1 x y z 2)%Q in
  let norm := if Qle_bool norm 0 then 1%Q else norm in
  <[11%nat := 0%Q]> (<[10%nat := 0%Q]> (<[9%nat := 0%Q]> (<[8%nat := 0%Q]>
  (<[7%nat := 0%Q]> (<[6%nat := 0%Q]> (<[5%nat := 0%Q]> (<[4%nat := 0%Q]>
  (<[3%nat := (iz * img niiV1 x y z 2 / norm)%Q]>
  (<[2%nat := (iy * img niiV1 x y z 1 / norm)%Q]>
  (<[1%nat := (ix * img niiV1 x y z 0 / norm)%Q]>
  (<[0%nat := 1%Q]> (replicate 12 0%Q)))))))))))).

(** The voxel array of the DIR volume of the DTI case. *)
Definition dti_img (ix iy iz : Q) (niiV1 : NIFTI Q) (x y z k : Z) : Q :=
  elt 0%Q (dti_voxel ix iy iz niiV1 x y z) k.
End DTI.

(** *** DSI case *)

(** The entries of QFORM, from the quaternion [(a,b,c,d)]; the comma
    initialiser fills the matrix row by row. *)
Definition QFORM (a b c d : Q) : list (list Q) :=
  [ [a*a+b*b-c*c-d*d; 2*b*c-2*a*d; 2*b*d+2*a*c];
    [2*b*c+2*a*d; a*a+c*c-b*b-d*d; 2*c*d-2*a*b];
    [2*b*d-2*a*c; 2*c*d+2*a*b; a*a+d*d-c*c-b*b] ]%Q.

Definition entry (m : list (list Q)) (r c : Z) : Q := elt 0%Q (elt [] m r) c.

(** The test that guards the "qform is not handled properly" message. *)
Definition qform_warning (m : list (list Q)) : bool :=
  Qneb (entry m 0 0) (-1) || Qneb (entry m 1 0) 0 || Qneb (entry m 2 0) 0 ||
  Qneb (entry m 0 1) 0 || Qneb (entry m 1 1) (-1) || Qneb (entry m 2 1) 0 ||
  Qneb (entry m 0 2) 0 || Qneb (entry m 1 2) 0 || Qneb (entry m 2 2) 1.

(** One row of [dirlist] after the body of the reorientation loop.  [tmp]
    is built by the copy constructor of a blitz array, which makes it a
    second view of the row and not a copy: a component that has been
    assigned is read back with its new value. *)
Definition reorient (ix iy iz : Q) (m : list (list Q)) (row : Vec3Df)
    : Vec3Df :=
  let row :=
    mkVec3Df (ix * (fx row * entry m 0 0 + fy row * entry m 1 0 +
                    fz row * entry m 2 0))%Q (fy row) (fz row) in
  let row :=
    mkVec3Df (fx row)
             (iy * (fx row * entry m 0 1 + fy row * entry m 1 1 +
                    fz row * entry m 2 1))%Q (fz row) in
  let row :=
    mkVec3Df (fx row) (fy row)
             (iz * (fx row * entry m 0 2 + fy row * entry m 1 2 +
                    fz row * entry m 2 2))%Q in
  mkVec3Df (fx row) (- fy row) (fz row).

(** The scan for [MIN] and [MAX] over the 181 samples [ODF] of a voxel; the
    state is [(MIN, MAX)]. *)
Definition minmax_iter (ODF : Z -> Q) (st : Q * Q) (i : Z) : Q * Q :=
  let value := ODF i in
  if Qltb value (fst st) then (value, snd st)
  else if Qltb (snd st) value then (fst st, value)
  else st.

Definition minmax (ODF : Z -> Q) : Q * Q :=
  fold_left (minmax_iter ODF) (seqZ 0 181) ((-1)%Q, (-1)%Q).

(** The arrays [vf[3]] and [pos[3]]. *)
Record peaks := mk_peaks { vf : list Q; pos : list Z }.

(** [for(i3=2; i3>i2 ;i3--)]: the slots below [i2] move down by one. *)
Fixpoint shift (fuel : nat) (i2 i3 : Z) (p : peaks) : peaks :=
  match fuel with
  | O => p
  | S fuel =>
      if i2 <? i3
      then shift fuel i2 (i3 - 1)
             (mk_peaks (<[Z.to_nat i3 := elt 0%Q (vf p) (i3 - 1)]> (vf p))
                       (<[Z.to_nat i3 := elt 0 (pos p) (i3 - 1)]> (pos p)))
      else p
  end.

(** [for(i2=0; i2<3 ;i2++)] with its [break], over the remaining values
    [i2s] of [i2]. *)
Fixpoint place (value : Q) (i1 : Z) (i2s : list Z) (p : peaks) : peaks :=
  match i2s with
  | [] => p
  | i2 :: rest =>
      if Qltb (elt 0%Q (vf p) i2) value
      then
        let p := shift 3 i2 2 p in
        mk_peaks (<[Z.to_nat i2 := value]> (vf p))
                 (<[Z.to_nat i2 := i1]> (pos p))
      else place value i1 rest p
  end.

(** The value of the direction [i1], rescaled with [MIN] and [MAX].  When
    [MAX = MIN] the code divides 0 by 0 in [float]; the value of this
    definition is not meant there. *)
Definition rescaled (ODF : Z -> Q) (MIN MAX : Q) (i1 : Z) : Q :=
  ((ODF i1 - MIN) / (MAX - MIN))%Q.

(** Body of [for(i1=0; i1<181 ;i1++)]; [MAXv] is the voxel of the MAX
    volume, which marks the local maxima of the ODF with 1. *)
Definition peak_iter (ODF : Z -> Q) (MAXv : Z -> Z) (MIN MAX vf_THR : Q)
    (p : peaks) (i1 : Z) : peaks :=
  if MAXv i1 =? 1
  then
    let value := rescaled ODF MIN MAX i1 in
    if Qltb value vf_THR then p else place value i1 [0; 1; 2] p
  else p.

Definition locate (ODF : Z -> Q) (MAXv : Z -> Z) (vf_THR : Q) : peaks :=
  let '(MIN, MAX) := minmax ODF in
  fold_left (peak_iter ODF MAXv MIN MAX vf_THR) (seqZ 0 181)
            (mk_peaks [0%Q; 0%Q; 0%Q] [0; 0; 0]).

(** "normalize the volume fraction to 1". *)
Definition normalize (p : peaks) : peaks :=
  let value := (elt 0%Q (vf p) 0 + elt 0%Q (vf p) 1 + elt 0%Q (vf p) 2)%Q in
  if Qltb 0 value
  then
    let v := <[0%nat := (elt 0%Q (vf p) 0 / value)%Q]> (vf p) in
    let v := <[1%nat := (elt 0%Q v 1 / value)%Q]> v in
    let v := <[2%nat := (elt 0%Q v 2 / value)%Q]> v in
    mk_peaks v (pos p)
  else p.

(** "store the data for this voxel": the four stores for the slot [i2];
    [dirlist] is the reoriented list of sampling directions. *)
Definition store_slot (dirlist : Z -> Vec3Df) (p : peaks) (voxel : list Q)
    (i2 : Z) : list Q :=
  <[Z.to_nat (4 * i2 + 3) := fz (dirlist (elt 0 (pos p) i2))]>
  (<[Z.to_nat (4 * i2 + 2) := fy (dirlist (elt 0 (pos p) i2))]>
  (<[Z.to_nat (4 * i2 + 1) := fx (dirlist (elt 0 (pos p) i2))]>
  (<[Z.to_nat (4 * i2 + 0) := elt 0%Q (vf p) i2]> voxel))).

(** The twelve values that the loop body leaves in one voxel of the
    zero-filled DIR array. *)
Definition dsi_voxel (dirlist : Z -> Vec3Df) (ODF : Z -> Q) (MAXv : Z -> Z)
    (vf_THR : Q) : list Q :=
  let p := normalize (locate ODF MAXv vf_THR) in
  fold_left (store_slot dirlist p) [0; 1; 2] (replicate 12 0%Q).

(** The voxel array of the DIR volume of the DSI case; the direction axis is
    the first one of the ODF and MAX volumes. *)
Definition dsi_img (dirlist : Z -> Vec3Df) (niiODF : NIFTI Q)
    (niiMAX : NIFTI Z) (vf_THR : Q) (x y z k : Z) : Q :=
  elt 0%Q (dsi_voxel dirlist (fun i => img niiODF i x y z)
                     (fun i => img niiMAX i x y z) vf_THR) k.

End dtk2dir.

(** ** Applications/DTB_P0/main.cxx *)

Module P0.

(** The test on the DWI volume: four dimensions, the fourth of size 515. *)
Definition dimension_ok (niiDWI : NIFTI Z) : bool :=
  negb (negb (dim niiDWI 0 =? 4) || negb (dim niiDWI 4 =? 515)).

(** The sum [value] of the samples [i < dim[4]] of a voxel, from 0. *)
Definition accumulate (niiDWI : NIFTI Z) (x y z : Z) : Q :=
  fold_left (fun value i => (value + inject_Z (img niiDWI x y z i))%Q)
            (seqZ 0 (dim niiDWI 4)) 0%Q.

(** The value stored in the voxel [(x,y,z)] of the P0 map. *)
Definition P0_voxel (niiDWI : NIFTI Z) (x y z : Z) : Q :=
  let b0 := inject_Z (img niiDWI x y z 0) in
  if Qltb 0 b0 then (accumulate niiDWI x y z / b0)%Q else 0%Q.

End P0.

(** ** The seed loop as claimed

    Follows the words of the specification, not the source: a seed point
    outside the white matter only skips the three directions of that point
    and the loop goes on with the next random point ([continue] where
    [seedNum_loop] has [break]).  It is there to be compared with
    [seedNum_loop]. *)

Section AsClaimed.
Variable sqrtf : Q -> Q.
Variable uniform : nat -> Q.

Fixpoint seedNum_loop_as_claimed (s : streamline) (x y z : Z) (n : nat)
    (st : track_state) : option track_state :=
  match n with
  | O => Some st
  | S n =>
      let COORD_seed := new_seed uniform s x y z (drawn st) in
      let st := mk_track (FIBERs st) (LENGTHs st) (found st) (drawn st + 3) in
      if outside_WM s COORD_seed then seedNum_loop_as_claimed s x y z n st
      else
        st ← seedDir_body sqrtf s x y z COORD_seed st 0;
        st ← seedDir_body sqrtf s x y z COORD_seed st 1;
        st ← seedDir_body sqrtf s x y z COORD_seed st 2;
        seedNum_loop_as_claimed s x y z n st
  end.

Definition trackFromXYZ_as_claimed (s : streamline) (x y z : Z)
    (st : track_state) : option track_state :=
  let st := mk_track (FIBERs st) (LENGTHs st) 0 (drawn st) in
  if (x <? 0) || (dim (niiDIR s) 1 - 1 <? x) ||
     (y <? 0) || (dim (niiDIR s) 2 - 1 <? y) ||
     (z <? 0) || (dim (niiDIR s) 3 - 1 <? z)
  then Some st
  else seedNum_loop_as_claimed s x y z (Z.to_nat (seeds (CONFIG s))) st.
End AsClaimed.

(** ** Vocabulary of the statements about the Unique policy *)

(** The points held by a coordinate buffer, three coordinates per point. *)
Fixpoint points_of (tmp : list Q) : list Vec3Df :=
  match tmp with
  | a :: b :: c :: rest => mkVec3Df a b c :: points_of rest
  | _ => []
  end.

(** A fiber point as it is stored: every coordinate plus the voxel offset. *)
Definition stored (p : Vec3Df) : Vec3Df :=
  mkVec3Df (fx p + TrackVis.TRACKVIS_VOXEL_OFFSET)
           (fy p + TrackVis.TRACKVIS_VOXEL_OFFSET)
           (fz p + TrackVis.TRACKVIS_VOXEL_OFFSET).

(** The first point of every run of consecutive points that floor to the same
    voxel; [prev] is the voxel of the point just before the list, if any. *)
Fixpoint first_of_runs (prev : option (Z * Z * Z)) (l : list Vec3Df)
    : list Vec3Df :=
  match l with
  | [] => []
  | p :: l =>
      if decide (prev = Some (TrackVis.floor3 p))
      then first_of_runs prev l
      else p :: first_of_runs (Some (TrackVis.floor3 p)) l
  end.

(** The floors of the three coordinates of [p] fit the [int]s that the code
    stores them in. *)
Definition fits_int (p : Vec3Df) : Prop :=
  - 2 ^ 31 <= Qfloor (fx p) < 2 ^ 31 /\
  - 2 ^ 31 <= Qfloor (fy p) < 2 ^ 31 /\
  - 2 ^ 31 <= Qfloor (fz p) < 2 ^ 31.

(** ** Vocabulary of the statements about the parameter checks *)

(** The valid ranges as the specification lists them.  It follows the table
    of the specification, not the source, and is there to be compared with
    the checks of [main]. *)
Definition in_range_as_specified (c : tracking_config) : Prop :=
  (1 <= maxAngle c <= 90)%Q /\
  (0 < stepSize c <= 4)%Q /\
  0 <= minLength c /\
  1 <= maxLength c <= 1000 /\
  1 <= seeds c <= 64 /\
  (0 <= volFracThr c <= 1)%Q.

(** One of the five parameters that [main] checks is outside its range. *)
Definition fails_a_check (c : tracking_config) : Prop :=
  (volFracThr c < 0)%Q \/ (1 < volFracThr c)%Q \/
  (stepSize c <= 0)%Q \/ (4 < stepSize c)%Q \/
  maxLength c < 1 \/ 1000 < maxLength c \/
  (maxAngle c < 1)%Q \/ (90 < maxAngle c)%Q \/
  seeds c < 1 \/ 64 < seeds c.

(** ** Vocabulary of the statements about the tracker and the header *)

Section SelectionVocabulary.
Variable s : streamline.
Variable voxel : Vec3Di.
Variable vec : Vec3Df.

(** The ranked candidate [i] of the voxel, as a vector. *)
Definition candidate (i : Z) : Vec3Df :=
  mkVec3Df (DIR_at s voxel (i*4+1)) (DIR_at s voxel (i*4+2))
           (DIR_at s voxel (i*4+3)).

Definition Vscale (k : Z) (v : Vec3Df) : Vec3Df :=
  mkVec3Df (inject_Z k * fx v) (inject_Z k * fy v) (inject_Z k * fz v).

(** Candidate [i] passes the volume-fraction gate and the angle gate. *)
Definition qualifies (i : Z) : Prop :=
  (volFracThr (CONFIG s) < DIR_at s voxel (i*4))%Q /\
  (ANGLE_thr s < Qabs (DOT_of s voxel vec i))%Q.

Definition signed_index (j : Z) : Z :=
  if Qltb 0 (DOT_of s voxel vec j) then j + 1 else - (j + 1).

(** State of the selection loop once the candidates below [n] are done. *)
Definition pick_inv (n : Z) (st : Z * Q) : Prop :=
  (fst st = 0 /\ snd st = 0%Q /\
   forall k, 0 <= k < n -> ~ qualifies k) \/
  (exists j, 0 <= j < n /\ fst st = signed_index j /\
     snd st = Qabs (DOT_of s voxel vec j) /\ qualifies j /\
     (0 < Qabs (DOT_of s voxel vec j))%Q /\
     (forall k, 0 <= k < n -> qualifies k ->
        (Qabs (DOT_of s voxel vec k) <= Qabs (DOT_of s voxel vec j))%Q) /\
     (forall k, 0 <= k < j -> qualifies k ->
        (Qabs (DOT_of s voxel vec k) < Qabs (DOT_of s voxel vec j))%Q)).
End SelectionVocabulary.

Section TrackingVocabulary.
Variable s : streamline.

(** A trajectory whose columns [0..step-1] are exactly the recorded
    points. *)
Definition consistent (g : growth) : Prop :=
  Z.of_nat (length (fiber g)) = step g.

(** An entry of the result arrays that holds a finished fiber. *)
Definition recorded (st : track_state) (i : nat) : Prop :=
  exists f len, FIBERs st !! i = Some f /\ LENGTHs st !! i = Some len /\
    Z.of_nat (length f) = len /\ 2 <= len /\
    len <= Z.max 2 (maxLength (CONFIG s)) /\
    exists seed d, In seed f /\ In (Vstep seed (stepSize (CONFIG s)) d) f.

Definition all_recorded (st : track_state) : Prop :=
  forall i, (i < found st)%nat -> recorded st i.
End TrackingVocabulary.

Section GateVocabulary.
Variable s : streamline.

(** What the selection loop holds after the candidates below [n]: nothing, or
    a candidate above the volume-fraction threshold. *)
Definition gate_inv (voxel : Vec3Di) (n : Z) (st : Z * Q) : Prop :=
  fst st = 0 \/
  exists j, 0 <= j < n /\ (fst st = j + 1 \/ fst st = - (j + 1)) /\
    (volFracThr (CONFIG s) < DIR_at s voxel (j*4))%Q.

(** A voxel none of whose three candidates is above the threshold. *)
Definition no_candidate (x y z : Z) : Prop :=
  forall seedDir, 0 <= seedDir <= 2 ->
    (img (niiDIR s) x y z (seedDir*4) <= volFracThr (CONFIG s))%Q.
End GateVocabulary.

(** The three numbers that [push_point] adds to the buffer for a point. *)
Definition coords (p : Vec3Df) : list Q :=
  [(fx p + TrackVis.TRACKVIS_VOXEL_OFFSET)%Q;
   (fy p + TrackVis.TRACKVIS_VOXEL_OFFSET)%Q;
   (fz p + TrackVis.TRACKVIS_VOXEL_OFFSET)%Q].

(** The voxel of the point written last, if a point has been written. *)
Definition last_voxel (st : TrackVis.unique_state) : option (Z * Z * Z) :=
  if (length (TrackVis.u_tmp st) =? 0)%nat then None
  else Some (TrackVis.u_old st).

(** The seed mask differs from DIR in the voxel size or the number of voxels
    along one of the three axes. *)
Definition geometry_differs (nii : NIFTI Z) (DIR : NIFTI Q) : Prop :=
  exists i, 1 <= i <= 3 /\
    (~ (pixdim nii i == pixdim DIR i)%Q \/ dim nii i <> dim DIR i).

(** The mask differs from DIR in the extent of the field of view along one of
    the three axes. *)
Definition FOV_differs (nii : NIFTI Z) (DIR : NIFTI Q) : Prop :=
  exists i, 1 <= i <= 3 /\
    ~ (inject_Z (dim nii i) * pixdim nii i
       == inject_Z (dim DIR i) * pixdim DIR i)%Q.

(** The bytes [bs] sit at offset [o] of [m], inside the first 1000 bytes. *)
Definition holds (o : Z) (bs : list Z) (m : list Z) : Prop :=
  (1000 <= length m)%nat /\ 0 <= o /\ o + Z.of_nat (length bs) <= 1000 /\
  TrackVis.load o (length bs) m = bs.

(** The header that [create] builds in [hdr]. *)
Definition created_header (dims pixdims : Z -> Z) (garbage : list Z)
    : list Z :=
  TrackVis.set_chars TrackVis.id_string TrackVis.str_TRACK
    (TrackVis.create_fields
       (snd (TrackVis.create_axes [0; 1; 2] dims pixdims garbage))).

(** ** Vocabulary of the statements about the shape of a fiber *)

(** [R] holds between every two neighbours of the list. *)
Fixpoint adjacent {A} (R : A -> A -> Prop) (l : list A) : Prop :=
  match l with
  | a :: ((b :: _) as t) => R a b /\ adjacent R t
  | _ => True
  end.

(** The point is in a voxel of the white-matter mask that is not 0. *)
Definition inside (s : streamline) (p : Vec3Df) : Prop :=
  outside_WM s p = false.

(** One iteration of the growth loop takes [p] to [q]: [p] is inside the
    white matter and [q] is [p] advanced by [stepSize] along a direction
    stored in the voxel of DIR that holds [p], with a volume fraction above
    the threshold and the sign that [pickBestDir] gives it. *)
Definition walk (s : streamline) (p q : Vec3Df) : Prop :=
  inside s p /\
  exists j, 0 <= j <= 2 /\
    (volFracThr (CONFIG s)
     < DIR_at s (voxel_of (niiDIR s) p) (j*4))%Q /\
    (q = Vstep p (stepSize (CONFIG s))
               (Vscale 1 (candidate s (voxel_of (niiDIR s) p) j)) \/
     q = Vstep p (stepSize (CONFIG s))
               (Vscale (-1) (candidate s (voxel_of (niiDIR s) p) j))).

(** The growth loop stops at once at the point [p] with the direction [d]:
    the containment test or the selection of a direction fails. *)
Definition stops (s : streamline) (p d : Vec3Df) : Prop :=
  outside_WM s p = true \/
  fst (pickBestDir s (voxel_of (niiDIR s) p) d) = false.

(** The first advance from the seed point [seed] of the voxel [vox] along
    its ranked direction [j]. *)
Definition first_advance (s : streamline) (vox : Vec3Di) (seed : Vec3Df)
    (j : Z) : Vec3Df :=
  Vstep seed (stepSize (CONFIG s)) (candidate s vox j).

(** The fiber [f] grown from [seed] along the direction [j] of [vox]: the
    points [P] walked from the first advance [c], in reversed order, then
    [c], then [seed], then the points [Qs] walked from [seed]. *)
Definition grown_from (s : streamline) (vox : Vec3Di) (seed : Vec3Df) (j : Z)
    (P Qs : list Vec3Df) (f : FIBER) : Prop :=
  f = rev (first_advance s vox seed j :: P) ++ seed :: Qs /\
  adjacent (walk s) (first_advance s vox seed j :: P) /\
  adjacent (walk s) (seed :: Qs).

(** What the growth loop keeps: the columns written so far are [front]
    followed by [tr], a walk that ends at [COORD]. *)
Definition trailing (s : streamline) (front tr : list Vec3Df) (g : growth)
    : Prop :=
  consistent g /\ fiber g = front ++ tr /\ adjacent (walk s) tr /\
  last tr = Some (COORD g).

(** Every fiber counted so far at the voxel [(x,y,z)] is grown from one of
    the seed points drawn since position [lo] of the random sequence, which
    is inside the white matter, along a direction of the voxel above the
    threshold; its recorded step count is its number of points. *)
Definition grown (uniform : nat -> Q) (s : streamline) (x y z : Z) (lo : nat)
    (st : track_state) : Prop :=
  forall i, (i < found st)%nat ->
    exists f k j P Qs,
      FIBERs st !! i = Some f /\
      LENGTHs st !! i = Some (Z.of_nat (length f)) /\
      (lo + 3 * k + 3 <= drawn st)%nat /\
      inside s (new_seed uniform s x y z (lo + 3 * k)) /\
      0 <= j <= 2 /\
      (volFracThr (CONFIG s) < DIR_at s (mkVec3Di x y z) (j*4))%Q /\
      grown_from s (mkVec3Di x y z) (new_seed uniform s x y z (lo + 3 * k))
                 j P Qs f /\
      Z.of_nat (length f) <= Z.max 2 (maxLength (CONFIG s)).

(** ** Vocabulary of the statements about the output file *)

(** What [create] needs in order to succeed when [doTracking] calls it: the
    file can be opened, and the grid dimensions (as [short]) and the voxel
    sizes of the mask [nii] are positive.  [garbage] is the object
    representation of [hdr] before the call, [sizeof(hdr)] bytes. *)
Definition output_ok (f32_bits : Q -> Z) (nii : NIFTI Z) (garbage : list Z)
    (openable : bool) : Prop :=
  openable = true /\ length garbage = 1000%nat /\
  (forall i, 0 <= i <= 2 -> 0 < to_short (dim nii (i + 1))) /\
  (forall i, 0 <= i <= 2 ->
     0 <= f32_bits (pixdim nii (i + 1)) < 2 ^ 32 /\
     TrackVis.f32_le_zero (f32_bits (pixdim nii (i + 1))) = false).

(** The field of view of the mask [nii] lies within the one of DIR (and the
    voxel sizes are positive), so that a point on the grid of the mask is on
    the grid of DIR. *)
Definition FOV_within (nii : NIFTI Z) (DIR : NIFTI Q) : Prop :=
  forall i, 1 <= i <= 3 ->
    (0 < pixdim nii i)%Q /\ (0 < pixdim DIR i)%Q /\
    (inject_Z (dim nii i) * pixdim nii i
     <= inject_Z (dim DIR i) * pixdim DIR i)%Q.

(** The header that [doTracking] has [create] build for the mask [nii]. *)
Definition output_header (f32_bits : Q -> Z) (nii : NIFTI Z)
    (garbage : list Z) : list Z :=
  created_header (fun i => to_short (dim nii (i + 1)))
                 (fun i => f32_bits (pixdim nii (i + 1))) garbage.

(** ** Vocabulary of the statements about the content of the .trk file *)

(** The bytes that one successful [append] with [TRACKVIS_SAVE_UNIQUE] adds
    for the fiber [fst c] of [snd c] points: the count, then the
    coordinates. *)
Definition trk_record (f32_bits : Q -> Z) (c : FIBER * Z) : list Z :=
  let '(numSaved, tmp) := TrackVis.save_unique (fst c) (snd c) in
  TrackVis.le_bytes 4 numSaved ++
  flat_map (fun v => TrackVis.le_bytes 4 (f32_bits v)) tmp.

(** What the loops of [doTracking] keep: the file is the header [h0]
    followed by one record per counted fiber, and is positioned at its
    end. *)
Definition written (f32_bits : Q -> Z) (s : streamline) (h0 : list Z)
    (saved : list (FIBER * Z)) (out : TrackVis.state * Z) : Prop :=
  let content := h0 ++ flat_map (trk_record f32_bits) saved in
  fst out = TrackVis.mk_state (Some (content, Z.of_nat (length content)))
                              2000 h0 /\
  snd out = Z.of_nat (length saved) /\
  Forall (fun c => accept s (snd c) = true /\
                   2 <= snd c <= Z.max 2 (maxLength (CONFIG s))) saved.

(** ** Vocabulary of the statements about dtk2dir *)

Section PeakVocabulary.
Variable ODF : Z -> Q.
Variable MAXv : Z -> Z.
Variable MIN MAX vf_THR : Q.

(** The direction [i] takes part in the ranking: it is marked as a local
    maximum and its rescaled value is not below the threshold. *)
Definition eligible (i : Z) : Prop :=
  MAXv i = 1 /\ (vf_THR <= dtk2dir.rescaled ODF MIN MAX i)%Q.

(** A slot [(v, p)] is empty, or holds a direction below [n] that takes part
    in the ranking, with its value, which is positive. *)
Definition slot_ok (n : Z) (v : Q) (p : Z) : Prop :=
  (v = 0%Q /\ p = 0) \/
  ((0 < v)%Q /\ 0 <= p < n /\ eligible p /\
   v = dtk2dir.rescaled ODF MIN MAX p).

(** [(v, p)] ranks before [(w, q)]: a larger value, or the same value and,
    unless the value is not positive, a smaller index. *)
Definition before (v : Q) (p : Z) (w : Q) (q : Z) : Prop :=
  (w < v)%Q \/ ((w == v)%Q /\ ((0 < w)%Q -> p < q)).

(** The three slots hold the three first directions below [n] in this
    ranking. *)
Definition ranked (n : Z) (pk : dtk2dir.peaks) : Prop :=
  exists a b c pa pb pc,
    pk = dtk2dir.mk_peaks [a; b; c] [pa; pb; pc] /\
    slot_ok n a pa /\ slot_ok n b pb /\ slot_ok n c pc /\
    before a pa b pb /\ before b pb c pc /\
    forall i, 0 <= i < n -> eligible i ->
      (i = pa /\ (0 < a)%Q) \/ (i = pb /\ (0 < b)%Q) \/
      (i = pc /\ (0 < c)%Q) \/
      before c pc (dtk2dir.rescaled ODF MIN MAX i) i.
End PeakVocabulary.

(** What the scan holds after the samples below [n]. *)
Definition scanned (ODF : Z -> Q) (n : Z) (st : Q * Q) : Prop :=
  (fst st <= -1)%Q /\ (-1 <= snd st)%Q /\
  (forall i, 0 <= i < n -> (fst st <= ODF i)%Q /\ (ODF i <= snd st)%Q) /\
  (fst st = (-1)%Q \/ exists i, 0 <= i < n /\ fst st = ODF i) /\
  (snd st = (-1)%Q \/ exists i, 0 <= i < n /\ snd st = ODF i).

(** ** Vocabulary of the statements about the seed mask *)

(** The tracker [s] with another seed mask, as [setSeedMask] installs it. *)
Definition with_seed (s : streamline) (seed : option (NIFTI Z)) : streamline :=
  mk_streamline (ANGLE_thr s) (CONFIG s) (niiDIR s) (niiMASK s) seed.

(** The voxel [(x,y,z)] is a seed voxel of the mask; every voxel is one for
    the NULL mask. *)
Definition seed_voxel (seed : option (NIFTI Z)) (x y z : Z) : Prop :=
  match seed with
  | None => True
  | Some nii => img nii x y z 0 <> 0
  end.

(** The voxel lies on the grid of DIR. *)
Definition on_grid (s : streamline) (x y z : Z) : Prop :=
  0 <= x < dim (niiDIR s) 1 /\ 0 <= y < dim (niiDIR s) 2 /\
  0 <= z < dim (niiDIR s) 3.

(** ** Vocabulary of the statements about the seed point of a fiber *)

Section SeededVocabulary.
Variable uniform : nat -> Q.
Variable s : streamline.
Variables x y z : Z.

(** The fiber [f] holds the seed point [c] and [c] advanced by one step along
    a direction stored in the voxel [(x,y,z)] of DIR above the threshold. *)
Definition starts_at (c : Vec3Df) (f : FIBER) : Prop :=
  In c f /\
  exists j, 0 <= j <= 2 /\
    (volFracThr (CONFIG s) < DIR_at s (mkVec3Di x y z) (j*4))%Q /\
    In (Vstep c (stepSize (CONFIG s)) (candidate s (mkVec3Di x y z) j)) f.

(** Every fiber counted so far starts at one of the seed points drawn since
    position [lo] of the random sequence, and that point is inside the white
    matter. *)
Definition seeded (lo : nat) (st : track_state) : Prop :=
  forall i, (i < found st)%nat ->
    exists f k, FIBERs st !! i = Some f /\
      (lo + 3 * k + 3 <= drawn st)%nat /\
      outside_WM s (new_seed uniform s x y z (lo + 3 * k)) = false /\
      starts_at (new_seed uniform s x y z (lo + 3 * k)) f.
End SeededVocabulary.

(** ** Sample data

    A 3 x 3 x 3 direction field with voxels of size 1 whose every voxel has
    the single direction (1,0,0) with volume fraction 1, a white-matter mask
    that is 1 everywhere on the same grid, and the configuration
    seeds=1, minLength=0, maxLength=10, stepSize=1, vf=0, angle=45. *)

Definition sample_DIR : NIFTI Q :=
  mkNIFTI (fun _ => 3) (fun _ => 1%Q)
          (fun _ _ _ k => if (k =? 0) || (k =? 1) then 1%Q else 0%Q).

Definition sample_MASK : NIFTI Z :=
  mkNIFTI (fun _ => 3) (fun _ => 1%Q) (fun _ _ _ _ => 1).

Definition sample_CONFIG : tracking_config :=
  mk_tracking_config 1 0 10 1 0 45.

(** [ANGLE_thr] is a rational close to cos(45 degrees). *)
Definition sample_TRACKER : streamline :=
  mk_streamline (7071 # 10000) sample_CONFIG sample_DIR sample_MASK None.

(** A rational square root, exact on the squares that the samples meet, and
    a random source that always returns 1/2. *)
Definition sample_sqrt (q : Q) : Q :=
  Z.sqrt (Qnum q * Z.pos (Qden q) * 10 ^ 12) # (Qden q * 10 ^ 6).

Definition sample_uniform (n : nat) : Q := 1 # 2.

(** The arrays as [setConfig] leaves them for [seeds = 1]. *)
Definition sample_arrays : track_state :=
  mk_track (replicate 3 []) (replicate 3 0) 0 0.

(** The same tracker with [maxLength = 1], the smallest value that [main]
    lets through, and the command line that sets it. *)
Definition sample_CONFIG_maxLength1 : tracking_config :=
  mk_tracking_config 1 0 1 1 0 45.

Definition sample_TRACKER_maxLength1 : streamline :=
  mk_streamline (7071 # 10000) sample_CONFIG_maxLength1 sample_DIR
                sample_MASK None.

Definition sample_arguments (c : tracking_config) : arguments :=
  mk_arguments 9 parsed_ok false true false true true c.

(** The sample tracker on an all-zero direction field. *)
Definition sample_DIR_zero : NIFTI Q :=
  mkNIFTI (fun _ => 3) (fun _ => 1%Q) (fun _ _ _ _ => 0%Q).

Definition sample_TRACKER_zero : streamline :=
  mk_streamline (7071 # 10000) sample_CONFIG sample_DIR_zero sample_MASK None.

(** A stand-in for the bit pattern of a [float]: samples only need a total
    function. *)
Definition sample_f32_bits (q : Q) : Z := Qfloor q mod 2 ^ 32.

(** A direction field of one voxel of size 2 with the direction (1,0,0), under
    a white-matter mask of 2 x 2 x 2 voxels of size 1 that is 1 only in the
    half [x >= 1] of the field of view; two random seed points per voxel, the
    first drawn in the half outside the mask and the second inside. *)
Definition sample_DIR_coarse : NIFTI Q :=
  mkNIFTI (fun _ => 1) (fun _ => 2%Q)
          (fun _ _ _ k => if (k =? 0) || (k =? 1) then 1%Q else 0%Q).

Definition sample_MASK_half : NIFTI Z :=
  mkNIFTI (fun _ => 2) (fun _ => 1%Q) (fun x _ _ _ => if x =? 1 then 1 else 0).

Definition sample_TRACKER_half : streamline :=
  mk_streamline (7071 # 10000) (mk_tracking_config 2 0 10 1 0 45)
                sample_DIR_coarse sample_MASK_half None.

Definition sample_uniform_half (n : nat) : Q :=
  if (n =? 3)%nat then 3 # 4 else 1 # 4.

(** The other way round: only the first random seed point is inside. *)
Definition sample_uniform_first (n : nat) : Q :=
  if (n =? 0)%nat then 3 # 4 else 1 # 4.

Definition sample_arrays_2 : track_state :=
  mk_track (replicate 6 []) (replicate 6 0) 0 0.

(** The sample tracker with [minLength = 10]. *)
Definition sample_TRACKER_minLength10 : streamline :=
  mk_streamline (7071 # 10000) (mk_tracking_config 1 10 1000 1 0 45)
                sample_DIR sample_MASK None.

(** A stand-in for [cos], and a configuration with a negative [minLength]. *)
Definition sample_cos (q : Q) : Q := 7071 # 10000.

Definition sample_CONFIG_negative_minLength : tracking_config :=
  mk_tracking_config 1 (-5) 1000 1 0 45.

(** Memory content before the header is built, grid dimensions 3 x 3 x 3 and
    voxel sizes 1.0 (as bit patterns), and one fiber of two points. *)
Definition sample_garbage : list Z := replicate 1000 170.
Definition sample_dims (i : Z) : Z := 3.
Definition sample_pixdims (i : Z) : Z := TrackVis.f32_one.
Definition sample_calls : list (list Vec3Df * Z * Z) :=
  [([mkVec3Df (1 # 2) (1 # 2) (1 # 2); mkVec3Df (3 # 2) (1 # 2) (1 # 2)], 2,
    TrackVis.TRACKVIS_SAVE_UNIQUE)].

(** A V1 volume whose every voxel holds (3,4,0), and a tracker on the DIR
    volume that the DTI case makes of it, with the threshold at 1. *)
Definition sample_V1 : NIFTI Q :=
  mkNIFTI (fun _ => 3) (fun _ => 1%Q)
          (fun _ _ _ k => if k =? 0 then 3%Q
                          else if k =? 1 then 4%Q else 0%Q).

Definition sample_TRACKER_dti : streamline :=
  mk_streamline (7071 # 10000) (mk_tracking_config 1 0 10 1 1 45)
    (mkNIFTI (fun _ => 3) (fun _ => 1%Q)
             (dtk2dir.dti_img sample_sqrt 1 1 1 sample_V1))
    sample_MASK None.

(** A DWI volume of 515 samples per voxel: b0 = 100, every other sample 50. *)
Definition sample_DWI : NIFTI Z :=
  mkNIFTI (fun i => if i =? 0 then 4 else if i =? 4 then 515 else 2)
          (fun _ => 1%Q)
          (fun _ _ _ i => if i =? 0 then 100 else 50).

(** An ODF volume with the value 3 in direction 100, 2 in direction 5 and 1
    elsewhere, a MAX volume that marks these two directions, a list of
    sampling directions, and a tracker on the DIR volume that the DSI case
    makes of them with the peak threshold 1/2. *)
Definition sample_ODF : NIFTI Q :=
  mkNIFTI (fun _ => 3) (fun _ => 1%Q)
          (fun i _ _ _ => if i =? 100 then 3%Q
                          else if i =? 5 then 2%Q else 1%Q).

Definition sample_MAX : NIFTI Z :=
  mkNIFTI (fun _ => 3) (fun _ => 1%Q)
          (fun i _ _ _ => if (i =? 100) || (i =? 5) then 1 else 0).

Definition sample_dirlist (i : Z) : Vec3Df :=
  if i =? 100 then mkVec3Df 1 0 0 else mkVec3Df 0 1 0.

Definition sample_TRACKER_dsi : streamline :=
  mk_streamline (7071 # 10000) sample_CONFIG
    (mkNIFTI (fun _ => 3) (fun _ => 1%Q)
             (dtk2dir.dsi_img sample_dirlist sample_ODF sample_MAX (1 # 2)))
    sample_MASK None.

(** One voxel of size 2 with the direction (1,0,0), inside a white-matter
    mask of one voxel of size 2; the random numbers are all 1/4, so that the
    seed point is (1/2, 1/2, 1/2). *)
Definition sample_MASK_coarse : NIFTI Z :=
  mkNIFTI (fun _ => 1) (fun _ => 2%Q) (fun _ _ _ _ => 1).

Definition sample_TRACKER_coarse : streamline :=
  mk_streamline (7071 # 10000) sample_CONFIG sample_DIR_coarse
                sample_MASK_coarse None.

Definition sample_uniform_quarter (n : nat) : Q := 1 # 4.

(** A white-matter mask of 6 x 6 x 6 voxels of size 1/2: the field of view
    of [sample_DIR] on another grid. *)
Definition sample_MASK_fine : NIFTI Z :=
  mkNIFTI (fun _ => 6) (fun _ => (1 # 2)%Q) (fun _ _ _ _ => 1).

(** * Properties *)

(** ** Reflection of the comparisons *)

Lemma Qltb_lt (a b : Q) : Qltb a b = true <-> (a < b)%Q.
Proof.
  unfold Qltb. rewrite negb_true_iff. split.
  - intros H. apply Qnot_le_lt. intros Hle.
    apply Qle_bool_iff in Hle. congruence.
  - intros H. destruct (Qle_bool b a) eqn:E; [|reflexivity].
    apply Qle_bool_iff in E. lra.
Qed.

Lemma Qltb_ge (a b : Q) : Qltb a b = false <-> (b <= a)%Q.
Proof.
  unfold Qltb. rewrite negb_false_iff. apply Qle_bool_iff.
Qed.

Lemma Qle_bool_gt (a b : Q) : Qle_bool a b = false <-> (b < a)%Q.
Proof.
  rewrite <- Qltb_lt. unfold Qltb. now rewrite negb_true_iff.
Qed.

(** ** Direction selection *)

Section PickBestDir.
Variable s : streamline.
Variable voxel : Vec3Di.
Variable vec : Vec3Df.

Hypothesis ANGLE_thr_nonneg : (0 <= ANGLE_thr s)%Q.

Lemma pick_inv_step (n : Z) (st : Z * Q) :
  0 <= n -> pick_inv s voxel vec n st -> pick_inv s voxel vec (n + 1) (pick_iter s voxel vec st n).
Proof.
  intros Hn Hinv. unfold pick_iter.
  destruct (Qle_bool (DIR_at s voxel (n*4)) (volFracThr (CONFIG s))) eqn:Hvf.
  { (* the volume-fraction gate: [continue] *)
    apply Qle_bool_iff in Hvf.
    assert (Hnq : ~ qualifies s voxel vec n) by (intros [Hq _]; lra).
    destruct Hinv as [(Hi & Hm & Hno) | (j & Hj & Hi & Hm & Hq & Hpos & Hmax & Htie)].
    - left. repeat split; auto. intros k Hk.
      destruct (Z.eq_dec k n) as [->|]; [exact Hnq | apply Hno; lia].
    - right. exists j. repeat split; auto; try lia; try apply Hq.
      intros k Hk Hqk. destruct (Z.eq_dec k n) as [->|]; [tauto | apply Hmax; [lia|done]]. }
  apply Qle_bool_gt in Hvf. cbv zeta.
  destruct (Qltb (ANGLE_thr s) (Qabs (DOT_of s voxel vec n))) eqn:Hang;
    cbn [andb].
  2:{ (* the angle gate fails *)
    apply Qltb_ge in Hang.
    assert (Hnq : ~ qualifies s voxel vec n) by (intros [_ Hq]; lra).
    destruct Hinv as [(Hi & Hm & Hno) | (j & Hj & Hi & Hm & Hq & Hpos & Hmax & Htie)].
    - left. repeat split; auto. intros k Hk.
      destruct (Z.eq_dec k n) as [->|]; [exact Hnq | apply Hno; lia].
    - right. exists j. repeat split; auto; try lia; try apply Hq.
      intros k Hk Hqk. destruct (Z.eq_dec k n) as [->|]; [tauto | apply Hmax; [lia|done]]. }
  apply Qltb_lt in Hang.
  destruct (Qltb (snd st) (Qabs (DOT_of s voxel vec n))) eqn:Hgt.
  - (* a new best candidate *)
    apply Qltb_lt in Hgt. right. exists n.
    assert (Hold : (0 <= snd st)%Q).
    { destruct Hinv as [(_ & -> & _) | (j & _ & _ & -> & _)]; [lra | apply Qabs_nonneg]. }
    split; [lia|]. split; [reflexivity|]. split; [reflexivity|].
    split; [split; assumption|]. split; [lra|]. split.
    + intros k Hk Hqk. destruct (Z.eq_dec k n) as [->|Hne]; [lra|].
      destruct Hinv as [(_ & _ & Hno) | (j & Hj & _ & Hm & _ & _ & Hmax & _)].
      * exfalso. apply (Hno k); [lia|done].
      * rewrite Hm in Hgt. specialize (Hmax k ltac:(lia) Hqk). lra.
    + intros k Hk Hqk.
      destruct Hinv as [(_ & _ & Hno) | (j & Hj & _ & Hm & _ & _ & Hmax & _)].
      * exfalso. apply (Hno k); [lia|done].
      * rewrite Hm in Hgt. specialize (Hmax k ltac:(lia) Hqk). lra.
  - (* not strictly better than the best so far *)
    apply Qltb_ge in Hgt.
    destruct Hinv as [(Hi & Hm & Hno) | (j & Hj & Hi & Hm & Hq & Hpos & Hmax & Htie)].
    + rewrite Hm in Hgt. lra.
    + right. exists j. repeat split; auto; try lia; try apply Hq.
      intros k Hk Hqk. destruct (Z.eq_dec k n) as [->|].
      * rewrite Hm in Hgt. exact Hgt.
      * apply Hmax; [lia|done].
Qed.

Lemma pick_loop_inv : pick_inv s voxel vec 3 (pick_loop s voxel vec).
Proof.
  unfold pick_loop. simpl.
  apply (pick_inv_step 2); [lia|].
  apply (pick_inv_step 1); [lia|].
  apply (pick_inv_step 0); [lia|].
  left. repeat split; auto. intros k Hk. lia.
Qed.
End PickBestDir.

(** C1.  With a non-negative angle threshold (the cosine of an angle of at
    most 90 degrees), [pickBestDir] on a voxel and an incoming direction [d]
    either finds no candidate that passes the volume-fraction gate with
    [|d . candidate| > ANGLE_thr] and returns [false] with [d] untouched, or
    returns [true] with a candidate [j] that passes both gates, whose [|dot|]
    is the largest among the candidates passing them and strictly larger than
    that of every lower-ranked one passing them (the lowest index wins a tie),
    negated when its dot product with [d] is negative, so that the returned
    vector has a non-negative dot product with [d]. *)
Theorem pickBestDir_selects (s : streamline) (voxel : Vec3Di) (d : Vec3Df) :
  (0 <= ANGLE_thr s)%Q ->
  ((forall k, 0 <= k <= 2 -> ~ qualifies s voxel d k) /\
   pickBestDir s voxel d = (false, d))
  \/
  (exists j, 0 <= j <= 2 /\ qualifies s voxel d j /\
     (forall k, 0 <= k <= 2 -> qualifies s voxel d k ->
        (Qabs (DOT_of s voxel d k) <= Qabs (DOT_of s voxel d j))%Q) /\
     (forall k, 0 <= k < j -> qualifies s voxel d k ->
        (Qabs (DOT_of s voxel d k) < Qabs (DOT_of s voxel d j))%Q) /\
     let v := Vscale (if Qltb (DOT_of s voxel d j) 0 then -1 else 1)
                     (candidate s voxel j) in
     pickBestDir s voxel d = (true, v) /\
     (ScalarProduct d v == Qabs (DOT_of s voxel d j))%Q /\
     (0 <= ScalarProduct d v)%Q).
Proof.
  intros Hthr. unfold pickBestDir.
  destruct (pick_loop_inv s voxel d Hthr)
    as [(Hi & _ & Hno) | (j & Hj & Hi & _ & Hq & Hpos & Hmax & Htie)].
  - left. rewrite Hi. split; [|reflexivity].
    intros k Hk. apply Hno. lia.
  - right. exists j. split; [lia|]. split; [exact Hq|].
    split; [intros k Hk; apply Hmax; lia|]. split; [exact Htie|].
    cbv zeta. rewrite Hi. unfold signed_index.
    assert (Hne : ~ (DOT_of s voxel d j == 0)%Q).
    { intros E. rewrite E in Hpos. vm_compute in Hpos. discriminate. }
    destruct (Qltb 0 (DOT_of s voxel d j)) eqn:Hsgn.
    + apply Qltb_lt in Hsgn.
      assert (Hneg : Qltb (DOT_of s voxel d j) 0 = false) by (apply Qltb_ge; lra).
      rewrite Hneg.
      replace (j + 1 =? 0) with false by (symmetry; apply Z.eqb_neq; lia).
      replace (j + 1 <? 0) with false by (symmetry; apply Z.ltb_ge; lia).
      replace (Z.abs (j + 1) - 1) with j by lia.
      split; [reflexivity|].
      assert (E : (ScalarProduct d (Vscale 1 (candidate s voxel j))
                   == DOT_of s voxel d j)%Q).
      { unfold ScalarProduct, Vscale, candidate, DOT_of. simpl. ring. }
      rewrite E, Qabs_pos by lra. split; [reflexivity | lra].
    + apply Qltb_ge in Hsgn.
      assert (Hlt : (DOT_of s voxel d j < 0)%Q).
      { destruct (Qlt_le_dec (DOT_of s voxel d j) 0) as [H|H]; [exact H|].
        exfalso. apply Hne. lra. }
      assert (Hneg : Qltb (DOT_of s voxel d j) 0 = true) by (apply Qltb_lt; exact Hlt).
      rewrite Hneg.
      replace (- (j + 1) =? 0) with false by (symmetry; apply Z.eqb_neq; lia).
      replace (- (j + 1) <? 0) with true by (symmetry; apply Z.ltb_lt; lia).
      replace (Z.abs (- (j + 1)) - 1) with j by lia.
      split; [reflexivity|].
      assert (E : (ScalarProduct d (Vscale (-1) (candidate s voxel j))
                   == - DOT_of s voxel d j)%Q).
      { unfold ScalarProduct, Vscale, candidate, DOT_of. simpl. ring. }
      rewrite E, Qabs_neg by lra. split; [reflexivity | lra].
Qed.

Lemma pickBestDir_selects_witness :
  let s := sample_TRACKER in
  let voxel := mkVec3Di 1 1 1 in
  let d := mkVec3Df (-1) 0 0 in
  (0 <= ANGLE_thr s)%Q /\
  (((forall k, 0 <= k <= 2 -> ~ qualifies s voxel d k) /\
    pickBestDir s voxel d = (false, d))
   \/
   (exists j, 0 <= j <= 2 /\ qualifies s voxel d j /\
      (forall k, 0 <= k <= 2 -> qualifies s voxel d k ->
         (Qabs (DOT_of s voxel d k) <= Qabs (DOT_of s voxel d j))%Q) /\
      (forall k, 0 <= k < j -> qualifies s voxel d k ->
         (Qabs (DOT_of s voxel d k) < Qabs (DOT_of s voxel d j))%Q) /\
      let v := Vscale (if Qltb (DOT_of s voxel d j) 0 then -1 else 1)
                      (candidate s voxel j) in
      pickBestDir s voxel d = (true, v) /\
      (ScalarProduct d v == Qabs (DOT_of s voxel d j))%Q /\
      (0 <= ScalarProduct d v)%Q)).
Proof.
  intros s voxel d.
  assert (H : (0 <= ANGLE_thr s)%Q) by (vm_compute; discriminate).
  split; [exact H|].
  exact (pickBestDir_selects s voxel d H).
Defined.

(** ** The growth loop *)

Lemma while_body_Some (s : streamline) (g g' : growth) :
  while_body s g = Some g' ->
  step g' = step g + 1 /\ fiber g' = fiber g ++ [COORD g'].
Proof.
  unfold while_body. destruct (outside_WM s (COORD g)); [discriminate|].
  destruct (pickBestDir s (voxel_of (niiDIR s) (COORD g)) (dir g)) as [b d].
  destruct b; simpl; [|discriminate].
  intros [= <-]. simpl. split; reflexivity.
Qed.

(** The loop is left within [maxLength - step] iterations; [step] only grows,
    by one for every point appended, and stays below [maxLength] once the
    loop has run. *)
Lemma while_loop_terminates (s : streamline) (fuel : nat) (g : growth) :
  (Z.to_nat (maxLength (CONFIG s) - step g) <= fuel)%nat ->
  exists g', while_loop s fuel g = Some g' /\
    step g <= step g' /\
    step g' <= Z.max (step g) (maxLength (CONFIG s)) /\
    Z.of_nat (length (fiber g')) - step g' = Z.of_nat (length (fiber g)) - step g /\
    (forall p, In p (fiber g) -> In p (fiber g')).
Proof.
  revert g. induction fuel as [|fuel IH]; intros g Hfuel.
  - exists g. simpl.
    replace (step g <? maxLength (CONFIG s)) with false
      by (symmetry; apply Z.ltb_ge; lia).
    repeat split; auto; lia.
  - simpl. destruct (step g <? maxLength (CONFIG s)) eqn:Hguard.
    + apply Z.ltb_lt in Hguard.
      destruct (while_body s g) as [g1|] eqn:Hbody.
      * apply while_body_Some in Hbody as [Hstep Hfib].
        destruct (IH g1) as (g' & Hrun & H1 & H2 & H3 & H4); [lia|].
        exists g'. split; [exact Hrun|].
        rewrite Hfib in H4. rewrite Hfib, length_app in H3. simpl in H3.
        repeat split; try lia.
        intros p Hp. apply H4, in_or_app. now left.
      * exists g. repeat split; auto; lia.
    + exists g. repeat split; auto; lia.
Qed.

Lemma reverse_part_length (g : growth) :
  length (fiber (reverse_part g)) = length (fiber g) /\
  step (reverse_part g) = step g.
Proof.
  unfold reverse_part. simpl. split; [|reflexivity].
  rewrite length_app, length_rev, <- length_app, take_drop. reflexivity.
Qed.

Lemma reverse_part_In (g : growth) (p : Vec3Df) :
  In p (fiber g) -> In p (fiber (reverse_part g)).
Proof.
  unfold reverse_part. simpl. intros Hp.
  rewrite <- (take_drop (Z.to_nat (step g)) (fiber g)) in Hp.
  apply in_app_or in Hp as [Hp|Hp]; apply in_or_app.
  - left. now apply in_rev in Hp.
  - now right.
Qed.

Section TrackingFacts.
Variable sqrtf : Q -> Q.
Variable uniform : nat -> Q.
Variable s : streamline.

Lemma semi_step_body_spec (g : growth) (semi_step : Z) :
  0 <= step g ->
  exists g', semi_step_body sqrtf s g semi_step = Some g' /\
    step g <= step g' /\
    step g' <= Z.max (step g) (maxLength (CONFIG s)) /\
    (consistent g -> consistent g') /\
    (forall p, In p (fiber g) -> In p (fiber g')).
Proof.
  intros Hpos. unfold semi_step_body.
  set (g0 := mk_growth _ _ _ _).
  destruct (while_loop_terminates s (Z.to_nat (maxLength (CONFIG s))) g0)
    as (g1 & Hrun & H1 & H2 & H3 & H4).
  { subst g0. simpl. lia. }
  rewrite Hrun. simpl. subst g0. simpl in *.
  eexists. split; [reflexivity|].
  unfold consistent.
  destruct (semi_step =? 0).
  - destruct (reverse_part_length g1) as [-> ->]. repeat split; try lia.
    intros p Hp. now apply reverse_part_In, H4.
  - repeat split; auto; lia.
Qed.

Lemma seedDir_body_spec (x y z : Z) (COORD_seed : Vec3Df)
    (st : track_state) (seedDir : Z) :
  all_recorded s st ->
  (found st < length (FIBERs st))%nat ->
  (found st < length (LENGTHs st))%nat ->
  exists st', seedDir_body sqrtf s x y z COORD_seed st seedDir = Some st' /\
    all_recorded s st' /\
    (found st <= found st' <= found st + 1)%nat /\
    length (FIBERs st') = length (FIBERs st) /\
    length (LENGTHs st') = length (LENGTHs st) /\
    drawn st' = drawn st.
Proof.
  intros Hall HF HL. unfold seedDir_body.
  destruct (Qle_bool _ _).
  { exists st. repeat split; auto; lia. }
  set (g0 := mk_growth _ _ _ _).
  destruct (semi_step_body_spec g0 0) as (g1 & -> & A1 & A2 & A3 & A4);
    [subst g0; simpl; lia|].
  simpl.
  destruct (semi_step_body_spec g1 1) as (g2 & -> & B1 & B2 & B3 & B4);
    [subst g0; simpl in *; lia|].
  simpl. eexists. split; [reflexivity|]. simpl.
  rewrite !length_insert. repeat split; try lia.
  intros i Hi. unfold recorded. simpl.
  destruct (decide (i = found st)) as [->|Hne].
  - exists (fiber g2), (step g2).
    rewrite !list_lookup_insert_eq by lia.
    assert (consistent g0) by reflexivity.
    subst g0. simpl in *. unfold consistent in *.
    repeat split; try lia.
    eexists COORD_seed, _. split; apply B4, A4; simpl; eauto.
  - rewrite !list_lookup_insert_ne by lia. apply Hall. simpl in Hi. lia.
Qed.

Lemma seedNum_loop_spec (x y z : Z) (n : nat) (st : track_state) :
  all_recorded s st ->
  (found st + 3 * n <= length (FIBERs st))%nat ->
  (found st + 3 * n <= length (LENGTHs st))%nat ->
  exists st', seedNum_loop sqrtf uniform s x y z n st = Some st' /\
    all_recorded s st' /\
    (found st <= found st' <= found st + 3 * n)%nat /\
    length (FIBERs st') = length (FIBERs st) /\
    length (LENGTHs st') = length (LENGTHs st).
Proof.
  revert st. induction n as [|n IH]; intros st Hall HF HL.
  - exists st. repeat split; auto; lia.
  - simpl. set (c := new_seed uniform s x y z (drawn st)).
    set (st0 := mk_track _ _ _ _).
    assert (Hall0 : all_recorded s st0) by exact Hall.
    destruct (outside_WM s c).
    { exists st0. subst st0. simpl. repeat split; auto; lia. }
    destruct (seedDir_body_spec x y z c st0 0) as (st1 & -> & R1 & F1 & LF1 & LL1 & _);
      [exact Hall0 | subst st0; simpl; lia | subst st0; simpl; lia |].
    simpl.
    destruct (seedDir_body_spec x y z c st1 1) as (st2 & -> & R2 & F2 & LF2 & LL2 & _);
      [exact R1 | subst st0; simpl in *; lia | subst st0; simpl in *; lia |].
    simpl.
    destruct (seedDir_body_spec x y z c st2 2) as (st3 & -> & R3 & F3 & LF3 & LL3 & _);
      [exact R2 | subst st0; simpl in *; lia | subst st0; simpl in *; lia |].
    simpl.
    destruct (IH st3) as (st' & Hrun & R' & F' & LF' & LL');
      [exact R3 | subst st0; simpl in *; lia | subst st0; simpl in *; lia |].
    exists st'. subst st0. simpl in *. repeat split; auto; lia.
Qed.

(** [trackFromXYZ] returns, and every entry below the returned count is a
    finished fiber. *)
Lemma trackFromXYZ_spec (x y z : Z) (st : track_state) :
  (3 * Z.to_nat (seeds (CONFIG s)) <= length (FIBERs st))%nat ->
  (3 * Z.to_nat (seeds (CONFIG s)) <= length (LENGTHs st))%nat ->
  exists st', trackFromXYZ sqrtf uniform s x y z st = Some st' /\
    all_recorded s st' /\
    (found st' <= 3 * Z.to_nat (seeds (CONFIG s)))%nat /\
    length (FIBERs st') = length (FIBERs st) /\
    length (LENGTHs st') = length (LENGTHs st).
Proof.
  intros HF HL. unfold trackFromXYZ.
  set (st0 := mk_track _ _ _ _).
  assert (Hall0 : all_recorded s st0) by (intros i Hi; simpl in Hi; lia).
  match goal with |- context [if ?b then _ else _] => destruct b end.
  - exists st0. subst st0. simpl. repeat split; auto; lia.
  - destruct (seedNum_loop_spec x y z (Z.to_nat (seeds (CONFIG s))) st0)
      as (st' & Hrun & R & F & LF & LL);
      [exact Hall0 | subst st0; simpl; lia | subst st0; simpl; lia |].
    exists st'. subst st0. simpl in *. repeat split; auto; lia.
Qed.
End TrackingFacts.

(** Whenever [maxLength] is at least 2, no recorded step count exceeds it;
    the growth of every fiber ends ([trackFromXYZ] returns). *)
Lemma trackFromXYZ_length_bound (sqrtf : Q -> Q) (uniform : nat -> Q)
    (s : streamline) (x y z : Z) (st : track_state) :
  2 <= maxLength (CONFIG s) ->
  (3 * Z.to_nat (seeds (CONFIG s)) <= length (FIBERs st))%nat ->
  (3 * Z.to_nat (seeds (CONFIG s)) <= length (LENGTHs st))%nat ->
  exists st', trackFromXYZ sqrtf uniform s x y z st = Some st' /\
    forall i, (i < found st')%nat ->
      exists len, LENGTHs st' !! i = Some len /\ len <= maxLength (CONFIG s).
Proof.
  intros Hmax HF HL.
  destruct (trackFromXYZ_spec sqrtf uniform s x y z st HF HL)
    as (st' & Hrun & Hall & _).
  exists st'. split; [exact Hrun|]. intros i Hi.
  destruct (Hall i Hi) as (f & len & _ & Hlen & _ & _ & Hle & _).
  exists len. split; [exact Hlen | lia].
Qed.

(** C3 (the code at the failing input).  [maxLength = 1] passes the checks
    of [main], and the fiber grown from the centre voxel of the sample field
    is recorded with a step count of 2. *)
Theorem maxLength_1_step_count_2 :
  main_checks (sample_arguments sample_CONFIG_maxLength1)
    = Returns [] [] sample_CONFIG_maxLength1 /\
  maxLength (CONFIG sample_TRACKER_maxLength1) = 1 /\
  exists st',
    trackFromXYZ sample_sqrt sample_uniform sample_TRACKER_maxLength1 1 1 1
                 sample_arrays = Some st' /\
    found st' = 1%nat /\ LENGTHs st' !! 0%nat = Some 2.
Proof.
  split; [reflexivity|]. split; [reflexivity|].
  eexists. split; [vm_compute; reflexivity|]. split; reflexivity.
Qed.

(** ** The volume-fraction gate *)

Section Gate.
Variable s : streamline.

Lemma gate_inv_step (voxel : Vec3Di) (vec : Vec3Df) (n : Z) (st : Z * Q) :
  0 <= n -> gate_inv s voxel n st ->
  gate_inv s voxel (n + 1) (pick_iter s voxel vec st n).
Proof.
  intros Hn Hinv.
  assert (Hkeep : gate_inv s voxel (n + 1) st).
  { destruct Hinv as [H|(j & Hj & H)]; [now left|].
    right. exists j. split; [lia | exact H]. }
  unfold pick_iter.
  destruct (Qle_bool (DIR_at s voxel (n*4)) (volFracThr (CONFIG s))) eqn:Hvf;
    [exact Hkeep|].
  apply Qle_bool_gt in Hvf. cbv zeta.
  destruct (_ && _); [|exact Hkeep].
  right. exists n. split; [lia|]. split; [|exact Hvf].
  simpl. destruct (Qltb 0 _); auto.
Qed.

Lemma pickBestDir_gate (voxel : Vec3Di) (d v : Vec3Df) :
  pickBestDir s voxel d = (true, v) ->
  exists j, 0 <= j <= 2 /\
    (volFracThr (CONFIG s) < DIR_at s voxel (j*4))%Q /\
    (v = Vscale 1 (candidate s voxel j) \/ v = Vscale (-1) (candidate s voxel j)).
Proof.
  assert (Hinv : gate_inv s voxel 3 (pick_loop s voxel d)).
  { unfold pick_loop. cbn [fold_left].
    apply (gate_inv_step voxel d 2); [lia|].
    apply (gate_inv_step voxel d 1); [lia|].
    apply (gate_inv_step voxel d 0); [lia|]. now left. }
  unfold pickBestDir.
  destruct Hinv as [H0 | (j & Hj & Hidx & Hvf)].
  - rewrite H0. simpl. discriminate.
  - intros Hpick. exists j. split; [lia|]. split; [exact Hvf|].
    destruct Hidx as [Hidx|Hidx]; rewrite Hidx in Hpick.
    + replace (j + 1 =? 0) with false in Hpick by (symmetry; apply Z.eqb_neq; lia).
      replace (j + 1 <? 0) with false in Hpick by (symmetry; apply Z.ltb_ge; lia).
      replace (Z.abs (j + 1) - 1) with j in Hpick by lia.
      left. now inversion Hpick.
    + replace (- (j + 1) =? 0) with false in Hpick by (symmetry; apply Z.eqb_neq; lia).
      replace (- (j + 1) <? 0) with true in Hpick by (symmetry; apply Z.ltb_lt; lia).
      replace (Z.abs (- (j + 1)) - 1) with j in Hpick by lia.
      right. now inversion Hpick.
Qed.

Variable sqrtf : Q -> Q.
Variable uniform : nat -> Q.

Lemma seedDir_body_gate (x y z : Z) (COORD_seed : Vec3Df) (st : track_state)
    (seedDir : Z) :
  (img (niiDIR s) x y z (seedDir*4) <= volFracThr (CONFIG s))%Q ->
  seedDir_body sqrtf s x y z COORD_seed st seedDir = Some st.
Proof.
  intros H. unfold seedDir_body.
  apply Qle_bool_iff in H. now rewrite H.
Qed.

Lemma seedNum_loop_no_candidate (x y z : Z) (n : nat) (st : track_state) :
  no_candidate s x y z ->
  exists st', seedNum_loop sqrtf uniform s x y z n st = Some st' /\
    found st' = found st /\ FIBERs st' = FIBERs st /\ LENGTHs st' = LENGTHs st.
Proof.
  intros Hno. revert st. induction n as [|n IH]; intros st.
  - exists st. auto.
  - simpl. destruct (outside_WM s _).
    + eexists. split; [reflexivity|]. auto.
    + rewrite !seedDir_body_gate by (apply Hno; lia). simpl.
      rewrite !seedDir_body_gate by (apply Hno; lia). simpl.
      rewrite !seedDir_body_gate by (apply Hno; lia). simpl.
      destruct (IH (mk_track (FIBERs st) (LENGTHs st) (found st) (drawn st + 3)))
        as (st' & Hrun & H). exists st'. split; [exact Hrun | exact H].
Qed.

Lemma trackFromXYZ_no_candidate (x y z : Z) (st : track_state) :
  no_candidate s x y z ->
  exists st', trackFromXYZ sqrtf uniform s x y z st = Some st' /\
    found st' = 0%nat /\ FIBERs st' = FIBERs st /\ LENGTHs st' = LENGTHs st.
Proof.
  intros Hno. unfold trackFromXYZ.
  match goal with |- context [if ?b then _ else _] => destruct b end.
  - eexists. split; [reflexivity|]. auto.
  - destruct (seedNum_loop_no_candidate x y z (Z.to_nat (seeds (CONFIG s)))
                (mk_track (FIBERs st) (LENGTHs st) 0 (drawn st)) Hno)
      as (st' & Hrun & H). exists st'. split; [exact Hrun | exact H].
Qed.

Variable f32_bits : Q -> Z.

Lemma voxel_loop_no_candidate (vs : list (Z * Z * Z)) (st : track_state)
    (out : TrackVis.state * Z) :
  (forall x y z, no_candidate s x y z) ->
  exists st', voxel_loop sqrtf uniform f32_bits s vs (st, out) = Some (st', out).
Proof.
  intros Hno. revert st. induction vs as [|[[x y] z] vs IH]; intros st.
  - exists st. reflexivity.
  - simpl. destruct (match niiSEED s with Some _ => _ | None => _ end).
    + simpl. apply IH.
    + destruct (trackFromXYZ_no_candidate x y z st (Hno x y z))
        as (st' & -> & Hfound & _).
      simpl. unfold save_found. rewrite Hfound. simpl. apply IH.
Qed.
End Gate.

(** ** A seed point outside the white matter *)

Section SeedBreak.
Variable sqrtf : Q -> Q.
Variable uniform : nat -> Q.
Variable s : streamline.
Variables x y z : Z.

Lemma seedDir_body_drawn (COORD_seed : Vec3Df) (st st' : track_state)
    (seedDir : Z) :
  seedDir_body sqrtf s x y z COORD_seed st seedDir = Some st' ->
  drawn st' = drawn st.
Proof.
  unfold seedDir_body. destruct (Qle_bool _ _); [now intros [= <-]|].
  destruct (semi_step_body _ _ _ 0) as [g1|]; simpl; [|discriminate].
  destruct (semi_step_body _ _ _ 1) as [g2|]; simpl; [|discriminate].
  now intros [= <-].
Qed.

End SeedBreak.

(** C5, as the code has it.  When random seed point number [k] of a voxel
    (counted from 0) is the first one outside the white matter, the seed
    loop ends there: whatever the number [m] of seed points still to come,
    the result is the one of the first [k] seed points alone, with the three
    random numbers of point [k] consumed.  No direction is tried for point
    [k] and no later seed point is generated. *)
Theorem seed_outside_WM_ends_loop (sqrtf : Q -> Q) (uniform : nat -> Q)
    (s : streamline) (x y z : Z) (k m : nat) (st : track_state) :
  (forall i, (i < k)%nat ->
     outside_WM s (new_seed uniform s x y z (drawn st + 3 * i)) = false) ->
  outside_WM s (new_seed uniform s x y z (drawn st + 3 * k)) = true ->
  seedNum_loop sqrtf uniform s x y z (k + S m) st
  = (st' ← seedNum_loop sqrtf uniform s x y z k st;
     Some (mk_track (FIBERs st') (LENGTHs st') (found st') (drawn st' + 3))).
Proof.
  revert st. induction k as [|k IH]; intros st Hin Hout.
  - replace (drawn st + 3 * 0)%nat with (drawn st) in Hout by lia.
    simpl. rewrite Hout. reflexivity.
  - assert (H0 : outside_WM s (new_seed uniform s x y z (drawn st)) = false).
    { specialize (Hin 0%nat ltac:(lia)).
      now replace (drawn st + 3 * 0)%nat with (drawn st) in Hin by lia. }
    cbn [Nat.add seedNum_loop]. rewrite H0.
    set (c := new_seed uniform s x y z (drawn st)).
    set (st0 := mk_track _ _ _ _).
    destruct (seedDir_body sqrtf s x y z c st0 0) as [st1|] eqn:E1;
      simpl; [|reflexivity].
    destruct (seedDir_body sqrtf s x y z c st1 1) as [st2|] eqn:E2;
      simpl; [|reflexivity].
    destruct (seedDir_body sqrtf s x y z c st2 2) as [st3|] eqn:E3;
      simpl; [|reflexivity].
    apply seedDir_body_drawn in E1, E2, E3.
    assert (Hd : drawn st3 = (drawn st + 3)%nat)
      by (rewrite E3, E2, E1; reflexivity).
    apply IH.
    + intros i Hi. rewrite Hd.
      replace (drawn st + 3 + 3 * i)%nat with (drawn st + 3 * S i)%nat by lia.
      apply Hin. lia.
    + rewrite Hd.
      now replace (drawn st + 3 + 3 * k)%nat with (drawn st + 3 * S k)%nat by lia.
Qed.

Lemma seed_outside_WM_ends_loop_witness :
  seedNum_loop sample_sqrt sample_uniform_first sample_TRACKER_half 0 0 0
               (1 + 2) sample_arrays_2
  = (st' ← seedNum_loop sample_sqrt sample_uniform_first sample_TRACKER_half
                        0 0 0 1 sample_arrays_2;
     Some (mk_track (FIBERs st') (LENGTHs st') (found st') (drawn st' + 3))).
Proof.
  apply (seed_outside_WM_ends_loop sample_sqrt sample_uniform_first
           sample_TRACKER_half 0 0 0 1 1 sample_arrays_2).
  - intros i Hi. destruct i; [vm_compute; reflexivity | lia].
  - vm_compute. reflexivity.
Defined.

(** C5 as claimed fails: on the sample the first random seed point is
    outside the white matter and the second one inside; the code stops after
    the first point and returns no fiber, where the loop of the claim goes
    on to the second point and returns one. *)
Lemma seed_break_counterexample :
  let s := sample_TRACKER_half in
  let run := trackFromXYZ sample_sqrt sample_uniform_half s 0 0 0 sample_arrays_2 in
  let claimed := trackFromXYZ_as_claimed sample_sqrt sample_uniform_half s 0 0 0
                   sample_arrays_2 in
  seeds (CONFIG s) = 2 /\
  outside_WM s (new_seed sample_uniform_half s 0 0 0 0) = true /\
  outside_WM s (new_seed sample_uniform_half s 0 0 0 3) = false /\
  option_map (fun st => (found st, drawn st)) run = Some (0%nat, 3%nat) /\
  option_map (fun st => (found st, drawn st)) claimed = Some (1%nat, 6%nat) /\
  run <> claimed.
Proof.
  cbv zeta. repeat split; try (vm_compute; reflexivity).
  intros H.
  apply (f_equal (option_map found)) in H. vm_compute in H. discriminate.
Qed.

(** ** The global length filter *)

Lemma accept_iff (s : streamline) (stepCount : Z) :
  1 <= stepCount <= 2 ^ 32 ->
  accept s stepCount = true <->
  (inject_Z (minLength (CONFIG s))
   <= inject_Z (stepCount - 1) * stepSize (CONFIG s) * pixdim (niiDIR s) 1)%Q.
Proof.
  intros H. unfold accept.
  rewrite Z.mod_small by lia. apply Qle_bool_iff.
Qed.

(** C4.  Of the fibers found at a voxel, [doTracking] appends to the .trk
    file (with the Unique policy) exactly those that pass the filter, in
    order, and counts them; the others change neither the file nor the
    count.  A fiber of [stepCount] steps passes iff
    [(stepCount - 1) * stepSize * pixdim[1] >= minLength].  With
    [stepSize = 1], a voxel size of 1 and [minLength = 10], 11 steps pass and
    10 steps do not. *)
Theorem length_filter (f32_bits : Q -> Z) (s : streamline) (st : track_state)
    (TRK_file : TrackVis.state) (tot_fibers : Z) :
  let LENGTH i := default 0 (LENGTHs st !! i) in
  let kept := List.filter (fun i => accept s (LENGTH i)) (seq 0 (found st)) in
  save_found f32_bits s st (TRK_file, tot_fibers)
  = (fold_left
       (fun tv i =>
          snd (TrackVis.append f32_bits tv (default [] (FIBERs st !! i))
                               (LENGTH i) TrackVis.TRACKVIS_SAVE_UNIQUE))
       kept TRK_file,
     tot_fibers + Z.of_nat (length kept)) /\
  (forall stepCount, 1 <= stepCount <= 2 ^ 32 ->
     accept s stepCount = true <->
     (inject_Z (minLength (CONFIG s))
      <= inject_Z (stepCount - 1) * stepSize (CONFIG s) * pixdim (niiDIR s) 1)%Q) /\
  ((stepSize (CONFIG s) == 1)%Q -> (pixdim (niiDIR s) 1 == 1)%Q ->
   minLength (CONFIG s) = 10 ->
   accept s 11 = true /\ accept s 10 = false).
Proof.
  cbv zeta. split; [|split].
  - unfold save_found. generalize (seq 0 (found st)) as l.
    intros l. revert TRK_file tot_fibers.
    induction l as [|i l IH]; intros tv tot.
    + simpl. f_equal. lia.
    + cbn [fold_left List.filter]. unfold save_body at 2. cbn [fst snd].
      destruct (accept s (default 0 (LENGTHs st !! i))).
      * rewrite IH. cbn [fold_left length]. f_equal. lia.
      * apply IH.
  - intros stepCount H. now apply accept_iff.
  - intros Hstep Hpix Hmin. split.
    + apply accept_iff; [lia|]. rewrite Hmin, Hstep, Hpix.
      vm_compute. discriminate.
    + destruct (accept s 10) eqn:E; [|reflexivity].
      apply accept_iff in E; [|lia]. rewrite Hmin, Hstep, Hpix in E.
      vm_compute in E. now destruct E.
Qed.

Lemma length_filter_witness :
  accept sample_TRACKER_minLength10 11 = true /\
  accept sample_TRACKER_minLength10 10 = false.
Proof.
  apply (length_filter sample_f32_bits sample_TRACKER_minLength10
           sample_arrays (TrackVis.new []) 0); reflexivity.
Defined.

(** ** The Unique reduction of [TrackVis.append] *)

Section Unique.
Import TrackVis.

Lemma unique_point_cases (st : unique_state) (p : Vec3Df) :
  (last_voxel st = Some (floor3 p) /\ unique_point st p = st) \/
  (last_voxel st <> Some (floor3 p) /\
   unique_point st p
   = mk_unique (u_tmp st ++ coords p) (floor3 p) (u_numSaved st + 1)).
Proof.
  unfold unique_point, last_voxel, push_point, coords.
  destruct (floor3 p) as [[X Y] Zp]. destruct (u_old st) as [[oX oY] oZ].
  destruct (u_tmp st) as [|q tmp]; simpl.
  - right. split; [discriminate | reflexivity].
  - destruct (X =? oX) eqn:EX, (Y =? oY) eqn:EY, (Zp =? oZ) eqn:EZ; simpl;
      try (right; split; [|reflexivity]; intros [= <- <- <-];
           rewrite ?Z.eqb_refl in *; discriminate).
    left. apply Z.eqb_eq in EX, EY, EZ. subst. split; reflexivity.
Qed.

Lemma unique_fold (l : list Vec3Df) (st : unique_state) :
  let st' := fold_left unique_point l st in
  u_tmp st' = u_tmp st ++ flat_map coords (first_of_runs (last_voxel st) l) /\
  u_numSaved st'
  = u_numSaved st + Z.of_nat (length (first_of_runs (last_voxel st) l)).
Proof.
  revert st. induction l as [|p l IH]; intros st; cbn [fold_left first_of_runs].
  - simpl. rewrite app_nil_r. split; [reflexivity | lia].
  - destruct (unique_point_cases st p) as [[Hsame ->] | [Hnew ->]].
    + rewrite decide_True by exact Hsame. apply IH.
    + rewrite decide_False by exact Hnew.
      specialize (IH (mk_unique (u_tmp st ++ coords p) (floor3 p)
                                (u_numSaved st + 1))).
      cbv zeta in IH. destruct IH as [IH1 IH2].
      assert (Hlast : last_voxel (mk_unique (u_tmp st ++ coords p) (floor3 p)
                                            (u_numSaved st + 1))
                      = Some (floor3 p)).
      { unfold last_voxel. simpl. rewrite length_app. simpl.
        replace (length (u_tmp st) + 3 =? 0)%nat with false
          by (symmetry; apply Nat.eqb_neq; lia). reflexivity. }
      rewrite Hlast in IH1, IH2. cbv zeta. rewrite IH1, IH2. simpl.
      rewrite <- app_assoc. split; [reflexivity | lia].
Qed.

Lemma fold_left_unique_iter (fiber : list Vec3Df) (idx : list Z)
    (st : unique_state) :
  fold_left (unique_iter fiber) idx st
  = fold_left unique_point (map (column fiber) idx) st.
Proof.
  revert st. induction idx as [|i idx IH]; intros st; [reflexivity|].
  simpl. apply IH.
Qed.

Lemma points_of_coords (l : list Vec3Df) :
  points_of (flat_map coords l) = map stored l.
Proof.
  induction l as [|p l IH]; [reflexivity|].
  simpl. now rewrite IH.
Qed.

Lemma floor3_stored (p : Vec3Df) : floor3 (stored p) = floor3 p.
Proof.
  unfold floor3, stored, TRACKVIS_VOXEL_OFFSET. cbn [fx fy fz].
  f_equal; [f_equal|]; apply Qfloor_comp, Qplus_0_r.
Qed.

(** In [first_of_runs], neighbours are in different voxels, and the first
    point is not in the voxel [prev]. *)
Lemma first_of_runs_adjacent (l : list Vec3Df) :
  forall prev,
    (forall q, first_of_runs prev l !! 0%nat = Some q -> prev <> Some (floor3 q)) /\
    (forall i q q', first_of_runs prev l !! i = Some q ->
       first_of_runs prev l !! S i = Some q' -> floor3 q <> floor3 q').
Proof.
  induction l as [|p l IH]; intros prev; cbn [first_of_runs].
  - split; intros *; rewrite lookup_nil; discriminate.
  - destruct (decide (prev = Some (floor3 p))) as [E|E]; [apply IH|].
    destruct (IH (Some (floor3 p))) as [Hhd Hadj]. split.
    + intros q [= <-]. exact E.
    + intros [|i] q q'; simpl.
      * intros [= <-] Hq' Heq. apply (Hhd q' Hq'). now rewrite Heq.
      * apply Hadj.
Qed.

(** Every point of the list is in the voxel [prev] or in the voxel of a point
    of [first_of_runs]. *)
Lemma first_of_runs_covers (l : list Vec3Df) :
  forall prev p, In p l ->
    prev = Some (floor3 p) \/
    exists q, In q (first_of_runs prev l) /\ floor3 q = floor3 p.
Proof.
  induction l as [|a l IH]; intros prev p Hp; [destruct Hp|].
  cbn [first_of_runs].
  destruct (decide (prev = Some (floor3 a))) as [E|E].
  - destruct Hp as [->|Hp]; [now left | now apply IH].
  - destruct Hp as [->|Hp].
    + right. exists p. split; [now left | reflexivity].
    + destruct (IH (Some (floor3 a)) p Hp) as [Heq | (q & Hq & Heq)].
      * right. exists a. split; [now left | congruence].
      * right. exists q. split; [now right | exact Heq].
Qed.
End Unique.

(** C6 (the code at the failing input).  The fiber that [trackFromXYZ] grows
    in a voxel of size 2 inside a white-matter mask of the same grid has the
    four points x = 5/2, 3/2, 1/2, -1/2.  The second and the third are
    consecutive and lie in the same voxel of the mask, and the Unique policy
    writes all four points: it compares the integer floors of the
    coordinates, which are 2, 1, 0, -1, not the voxels. *)
Theorem save_unique_same_voxel :
  let s := sample_TRACKER_coarse in
  exists st' f,
    trackFromXYZ sample_sqrt sample_uniform_quarter s 0 0 0 sample_arrays
    = Some st' /\
    found st' = 1%nat /\
    FIBERs st' !! 0%nat = Some f /\ LENGTHs st' !! 0%nat = Some 4 /\
    map (fun p => Qred (fx p)) f = [5 # 2; 3 # 2; 1 # 2; -1 # 2]%Q /\
    voxel_of (niiMASK s) (column f 1) = voxel_of (niiMASK s) (column f 2) /\
    TrackVis.floor3 (column f 1) <> TrackVis.floor3 (column f 2) /\
    fst (TrackVis.append_points f 4 TrackVis.TRACKVIS_SAVE_UNIQUE) = 4 /\
    points_of (snd (TrackVis.append_points f 4
                      TrackVis.TRACKVIS_SAVE_UNIQUE))
    = map stored f.
Proof.
  intros s.
  remember (trackFromXYZ sample_sqrt sample_uniform_quarter s 0 0 0
              sample_arrays) as r eqn:E.
  vm_compute in E. subst r.
  eexists _, _. split; [reflexivity|].
  split; [reflexivity|]. split; [reflexivity|]. split; [reflexivity|].
  split; [vm_compute; reflexivity|]. split; [vm_compute; reflexivity|].
  split; [vm_compute; discriminate|].
  split; vm_compute; reflexivity.
Qed.

(** X24.  Let [pts] be the [numPoints] points of a fiber, all with
    coordinates whose floors fit an [int], and [written] the points that
    [append] with the Unique policy puts into the output buffer.  The count
    written in front of them is their number and the buffer holds nothing
    else; [written] is, coordinate offset added, the first point of every
    run of consecutive points of [pts] whose three coordinates have the same
    integer floors; no two consecutive points of [written] have the same
    floors; and every point of [pts] has the floors of some point of
    [written].  No voxel size enters. *)
Theorem save_unique_spec (fiber : list Vec3Df) (numPoints : Z) :
  let pts := map (column fiber) (seqZ 0 numPoints) in
  let numSaved := fst (TrackVis.save_unique fiber numPoints) in
  let tmp := snd (TrackVis.save_unique fiber numPoints) in
  let written := points_of tmp in
  Forall fits_int pts ->
  TrackVis.append_points fiber numPoints TrackVis.TRACKVIS_SAVE_UNIQUE
  = (numSaved, tmp) /\
  numSaved = Z.of_nat (length written) /\
  length tmp = (3 * length written)%nat /\
  written = map stored (first_of_runs None pts) /\
  (forall i q q', written !! i = Some q -> written !! S i = Some q' ->
     TrackVis.floor3 q <> TrackVis.floor3 q') /\
  (forall p, In p pts ->
     exists q, In q written /\ TrackVis.floor3 q = TrackVis.floor3 p).
Proof.
  cbv zeta. intros _. split; [reflexivity|].
  unfold TrackVis.save_unique. cbn [fst snd].
  rewrite fold_left_unique_iter.
  set (pts := map (column fiber) (seqZ 0 numPoints)).
  destruct (unique_fold pts (TrackVis.mk_unique [] (0, 0, 0) 0)) as [Htmp Hnum].
  cbn [last_voxel TrackVis.u_tmp TrackVis.u_numSaved length Nat.eqb app] in Htmp, Hnum.
  rewrite Htmp, Hnum, points_of_coords.
  set (kept := first_of_runs None pts).
  split; [rewrite length_map; lia|].
  split.
  { rewrite length_map. clear. induction kept as [|p k IH]; [reflexivity|].
    simpl. rewrite IH. lia. }
  split; [reflexivity|]. split.
  - intros i q q' Hq Hq'.
    rewrite list_lookup_fmap in Hq, Hq'.
    destruct (kept !! i) as [a|] eqn:Ea; [|discriminate].
    destruct (kept !! S i) as [b|] eqn:Eb; [|discriminate].
    injection Hq as <-. injection Hq' as <-.
    rewrite !floor3_stored.
    exact (proj2 (first_of_runs_adjacent pts None) i a b Ea Eb).
  - intros p Hp.
    destruct (first_of_runs_covers pts None p Hp) as [E | (q & Hq & Heq)];
      [discriminate|].
    exists (stored q). split; [now apply in_map|].
    now rewrite floor3_stored.
Qed.

Lemma save_unique_spec_witness :
  let fiber := [mkVec3Df (1 # 2) 0 0; mkVec3Df (3 # 4) 0 0;
                mkVec3Df (3 # 2) 0 0] in
  points_of (snd (TrackVis.save_unique fiber 3))
  = map stored (first_of_runs None (map (column fiber) (seqZ 0 3))).
Proof.
  intros fiber.
  apply (save_unique_spec fiber 3).
  repeat constructor; vm_compute; discriminate.
Defined.

(** ** Geometry checks of the masks *)

Lemma Qneb_true (a b : Q) : Qneb a b = true <-> ~ (a == b)%Q.
Proof.
  unfold Qneb. rewrite negb_true_iff. split.
  - intros H E. apply Qeq_bool_iff in E. congruence.
  - intros H. destruct (Qeq_bool a b) eqn:E; [|reflexivity].
    apply Qeq_bool_iff in E. contradiction.
Qed.

Lemma setSeedMask_mismatch (s : streamline) (nii : NIFTI Z) :
  geometry_differs nii (niiDIR s) ->
  setSeedMask s (Some nii) = Exits 1 [] [SEED_error].
Proof.
  intros (i & Hi & Hdiff). unfold setSeedMask.
  assert (Hi' : i = 1 \/ i = 2 \/ i = 3) by lia.
  destruct Hdiff as [Hp | Hd].
  - apply Qneb_true in Hp.
    destruct Hi' as [-> | [-> | ->]]; rewrite Hp; simpl;
      rewrite ?orb_true_r; reflexivity.
  - apply Z.eqb_neq in Hd.
    destruct Hi' as [-> | [-> | ->]]; rewrite Hd; simpl;
      rewrite ?orb_true_r; reflexivity.
Qed.

Lemma setWhiteMatterMask_mismatch (s : streamline) (nii : NIFTI Z) :
  FOV_differs nii (niiDIR s) ->
  setWhiteMatterMask s nii
  = Returns [FOV_warning] []
      (mk_streamline (ANGLE_thr s) (CONFIG s) (niiDIR s) nii (niiSEED s)).
Proof.
  intros (i & Hi & Hdiff). unfold setWhiteMatterMask.
  assert (Hi' : i = 1 \/ i = 2 \/ i = 3) by lia.
  apply Qneb_true in Hdiff.
  destruct Hi' as [-> | [-> | ->]]; rewrite Hdiff; simpl;
    rewrite ?orb_true_r; reflexivity.
Qed.

Lemma setWhiteMatterMask_returns (s : streamline) (nii : NIFTI Z) :
  exists out,
    setWhiteMatterMask s nii
    = Returns out []
        (mk_streamline (ANGLE_thr s) (CONFIG s) (niiDIR s) nii (niiSEED s)).
Proof.
  unfold setWhiteMatterMask. destruct (_ || _); eexists; reflexivity.
Qed.

(** ** [doTracking] returns *)

Section Totality.
Variable sqrtf : Q -> Q.
Variable uniform : nat -> Q.
Variable f32_bits : Q -> Z.
Variable s : streamline.

Lemma voxel_loop_total (vs : list (Z * Z * Z)) (st : track_state)
    (out : TrackVis.state * Z) :
  (3 * Z.to_nat (seeds (CONFIG s)) <= length (FIBERs st))%nat ->
  (3 * Z.to_nat (seeds (CONFIG s)) <= length (LENGTHs st))%nat ->
  exists r, voxel_loop sqrtf uniform f32_bits s vs (st, out) = Some r.
Proof.
  revert st out. induction vs as [|[[x y] z] vs IH]; intros st out HF HL.
  - eexists. reflexivity.
  - simpl. destruct (match niiSEED s with Some _ => _ | None => _ end).
    + simpl. now apply IH.
    + destruct (trackFromXYZ_spec sqrtf uniform s x y z st HF HL)
        as (st' & -> & _ & _ & LF & LL).
      simpl. apply IH; lia.
Qed.

Lemma doTracking_total (st : track_state) (garbage : list Z) (openable : bool) :
  (3 * Z.to_nat (seeds (CONFIG s)) <= length (FIBERs st))%nat ->
  (3 * Z.to_nat (seeds (CONFIG s)) <= length (LENGTHs st))%nat ->
  exists r, doTracking sqrtf uniform f32_bits s st garbage openable = Some r.
Proof.
  intros HF HL. unfold doTracking.
  match goal with |- context [voxel_loop _ _ _ _ ?vs (_, ?o)] =>
    destruct (voxel_loop_total vs st o HF HL) as ([st' [tv tot]] & ->)
  end.
  simpl. eexists. reflexivity.
Qed.
End Totality.

(** ** The parameter checks of [main] *)

(** C9, as the code has it.  When one of [vf], [stepSize], [maxLength],
    [maxAngle], [seeds] is outside its range, [main] ends with status 1
    before it reads a volume or creates the output, whatever the files hold.
    [minLength] is not checked: when the command line is complete and these
    five parameters are in range, the checks pass with any [minLength]. *)
Theorem parameter_checks (sqrtf cosf : Q -> Q) (uniform : nat -> Q)
    (f32_bits : Q -> Z) (a : arguments) :
  (fails_a_check (parsed_CONFIG a) ->
   (exists out err, main_checks a = Exits 1 out err) /\
   forall DIR MASK SEED garbage openable,
     main sqrtf cosf uniform f32_bits a DIR MASK SEED garbage openable
     = Some (mk_run 1 None)) /\
  (parse a = parsed_ok -> 2 <= argc a -> opt_help a = false ->
   opt_dir a = true -> opt_wm a = true -> opt_out a = true ->
   ~ fails_a_check (parsed_CONFIG a) ->
   main_checks a = Returns [] [] (parsed_CONFIG a)).
Proof.
  split.
  - intros Hbad.
    assert (Hexit : exists out err, main_checks a = Exits 1 out err).
    { unfold main_checks.
      destruct (parse a); try (eexists _, _; reflexivity);
        repeat match goal with
        | |- context [if ?b then _ else _] =>
            destruct b eqn:?; try (eexists _, _; reflexivity)
        end;
        exfalso;
        repeat match goal with
        | H : _ || _ = false |- _ => apply orb_false_elim in H as [? ?]
        | H : Qltb _ _ = false |- _ => apply Qltb_ge in H
        | H : Qle_bool _ _ = false |- _ => apply Qle_bool_gt in H
        | H : (_ <? _) = false |- _ => apply Z.ltb_ge in H
        end;
        unfold fails_a_check in Hbad;
        repeat destruct Hbad as [Hbad|Hbad]; try lra; lia. }
    split; [exact Hexit|].
    intros DIR MASK SEED garbage openable.
    destruct Hexit as (out & err & E). unfold main. now rewrite E.
  - intros Hp Hargc Hhelp Hdir Hwm Hout Hok.
    unfold main_checks. rewrite Hp, Hhelp, Hdir, Hwm, Hout.
    replace (argc a <? 2) with false by (symmetry; apply Z.ltb_ge; lia).
    cbn [orb negb].
    repeat match goal with
    | |- context [if ?b then _ else _] => destruct b eqn:?
    end; try reflexivity; exfalso; apply Hok; unfold fails_a_check;
    repeat match goal with
    | H : _ || _ = true |- _ => apply orb_true_iff in H as [H|H]
    | H : Qltb _ _ = true |- _ => apply Qltb_lt in H
    | H : Qle_bool _ _ = true |- _ => apply Qle_bool_iff in H
    | H : (_ <? _) = true |- _ => apply Z.ltb_lt in H
    end; tauto.
Qed.

Lemma parameter_checks_witness :
  let a := sample_arguments (mk_tracking_config 1 10 1000 1 0 100) in
  (exists out err, main_checks a = Exits 1 out err) /\
  forall DIR MASK SEED garbage openable,
    main sample_sqrt sample_cos sample_uniform sample_f32_bits a
         DIR MASK SEED garbage openable
    = Some (mk_run 1 None).
Proof.
  intros a.
  apply (parameter_checks sample_sqrt sample_cos sample_uniform
           sample_f32_bits a).
  unfold fails_a_check. do 7 right. left. vm_compute. reflexivity.
Defined.

(** C9 as claimed fails: [minLength = -5] is outside the range the
    specification gives, it passes the checks, and the run on the sample
    volumes ends with status 0 and a .trk file. *)
Lemma negative_minLength_counterexample :
  let c := sample_CONFIG_negative_minLength in
  let a := sample_arguments c in
  ~ in_range_as_specified c /\
  main_checks a = Returns [] [] c /\
  exists r,
    main sample_sqrt sample_cos sample_uniform sample_f32_bits a
         (Some sample_DIR) (Some sample_MASK) None (repeat 0 1000%nat) true
    = Some r /\
    status r = 0 /\ is_Some (trk_file r).
Proof.
  cbv zeta. split; [|split].
  - intros (_ & _ & H & _). simpl in H. lia.
  - reflexivity.
  - eexists. split; [vm_compute; reflexivity|].
    split; [reflexivity | now eexists].
Qed.

(** ** The header of a .trk file *)

Section Header.
Import TrackVis.

(** *** Little-endian integers *)

Lemma le_bytes_S (n : nat) (v : Z) :
  le_bytes (S n) v = v mod 256 :: le_bytes n (v / 256).
Proof.
  unfold le_bytes. cbn [seq map]. f_equal.
  - rewrite Z.shiftr_0_r. change 255 with (Z.ones 8).
    rewrite Z.land_ones by lia. reflexivity.
  - rewrite <- seq_shift, map_map. apply map_ext. intros i.
    f_equal. change (v / 256) with (v / 2 ^ 8).
    rewrite <- (Z.shiftr_div_pow2 v 8) by lia.
    rewrite Z.shiftr_shiftr by lia. f_equal. lia.
Qed.

Lemma length_le_bytes (n : nat) (v : Z) : length (le_bytes n v) = n.
Proof. unfold le_bytes. now rewrite length_map, length_seq. Qed.

Lemma le_value_le_bytes (n : nat) (v : Z) :
  le_value (le_bytes n v) = v mod 2 ^ (8 * Z.of_nat n).
Proof.
  revert v. induction n as [|n IH]; intros v.
  - simpl. now rewrite Z.mod_1_r.
  - rewrite le_bytes_S. cbn [le_value fold_right]. fold (le_value (le_bytes n (v / 256))).
    rewrite IH.
    replace (8 * Z.of_nat (S n)) with (8 + 8 * Z.of_nat n) by lia.
    rewrite Z.pow_add_r by lia. change (2 ^ 8) with 256.
    rewrite Z.rem_mul_r by lia. reflexivity.
Qed.

Lemma int16_round_trip (v : Z) :
  - 2 ^ 15 <= v < 2 ^ 15 -> to_signed 16 (le_value (le_bytes 2 v)) = v.
Proof.
  intros H. rewrite le_value_le_bytes. unfold to_signed.
  change (2 ^ (8 * Z.of_nat 2)) with 65536. change (2 ^ (16 - 1)) with 32768.
  change (2 ^ 16) with 65536. change (2 ^ 15) with 32768 in H.
  destruct (v mod 65536 <? 32768) eqn:E;
    [apply Z.ltb_lt in E | apply Z.ltb_ge in E];
    pose proof (Z.mod_pos_bound v 65536 ltac:(lia));
    pose proof (Z.div_mod v 65536 ltac:(lia)); lia.
Qed.

Lemma int32_round_trip (v : Z) :
  - 2 ^ 31 <= v < 2 ^ 31 -> to_signed 32 (le_value (le_bytes 4 v)) = v.
Proof.
  intros H. rewrite le_value_le_bytes. unfold to_signed.
  change (2 ^ (8 * Z.of_nat 4)) with 4294967296.
  change (2 ^ (32 - 1)) with 2147483648.
  change (2 ^ 32) with 4294967296. change (2 ^ 31) with 2147483648 in H.
  destruct (v mod 4294967296 <? 2147483648) eqn:E;
    [apply Z.ltb_lt in E | apply Z.ltb_ge in E];
    pose proof (Z.mod_pos_bound v 4294967296 ltac:(lia));
    pose proof (Z.div_mod v 4294967296 ltac:(lia)); lia.
Qed.

Lemma float_round_trip (bits : Z) :
  0 <= bits < 2 ^ 32 -> le_value (le_bytes 4 bits) = bits.
Proof.
  intros H. rewrite le_value_le_bytes.
  change (2 ^ (8 * Z.of_nat 4)) with (2 ^ 32). now apply Z.mod_small.
Qed.

(** *** Loads and stores *)

Lemma length_store (o : Z) (bs m : list Z) :
  0 <= o -> (Z.to_nat o + length bs <= length m)%nat ->
  length (store o bs m) = length m.
Proof.
  intros Ho H. unfold store.
  rewrite !length_app, length_take, length_drop. lia.
Qed.

Lemma store_keeps_size (o : Z) (bs m : list Z) :
  (1000 <= length m)%nat -> 0 <= o -> o + Z.of_nat (length bs) <= 1000 ->
  (1000 <= length (store o bs m))%nat.
Proof.
  intros Hm Ho H. rewrite length_store by lia. exact Hm.
Qed.

Lemma holds_store_same (o : Z) (bs m : list Z) :
  (1000 <= length m)%nat -> 0 <= o -> o + Z.of_nat (length bs) <= 1000 ->
  holds o bs (store o bs m).
Proof.
  intros Hm Ho H. split; [now apply store_keeps_size|].
  split; [exact Ho|]. split; [exact H|].
  unfold load, store.
  rewrite drop_app_length' by (rewrite length_take; lia).
  now rewrite take_app_length.
Qed.

Lemma holds_store_other (o o2 : Z) (bs bs2 m : list Z) :
  0 <= o2 -> o2 + Z.of_nat (length bs2) <= 1000 ->
  o + Z.of_nat (length bs) <= o2 \/ o2 + Z.of_nat (length bs2) <= o ->
  holds o bs m -> holds o bs (store o2 bs2 m).
Proof.
  intros Ho2 H2 Hdisj (Hm & Ho & H & Hload).
  split; [now apply store_keeps_size|]. split; [exact Ho|]. split; [exact H|].
  rewrite <- Hload at 2. unfold load, store.
  destruct Hdisj as [Hd|Hd].
  - rewrite !take_drop_commute. f_equal.
    rewrite take_app_le by (rewrite length_take; lia).
    rewrite take_take. f_equal. lia.
  - f_equal.
    rewrite drop_app_ge by (rewrite length_take; lia).
    rewrite length_take.
    rewrite drop_app_ge by lia.
    rewrite drop_drop. f_equal. lia.
Qed.

Lemma holds_app (o : Z) (bs m data : list Z) :
  holds o bs m -> holds o bs (m ++ data).
Proof.
  intros (Hm & Ho & H & Hload). split; [rewrite length_app; lia|].
  split; [exact Ho|]. split; [exact H|].
  rewrite <- Hload at 2. unfold load.
  rewrite !take_drop_commute. f_equal.
  apply take_app_le. lia.
Qed.

Lemma holds_read_back (o : Z) (bs m old : list Z) :
  holds o bs m -> load o (length bs) (store 0 (take 1000 m) old) = bs.
Proof.
  intros (Hm & Ho & H & Hload).
  rewrite <- Hload at 2. unfold load, store. simpl.
  rewrite !take_drop_commute. f_equal.
  rewrite take_app_le by (rewrite length_take; lia).
  rewrite take_take. f_equal. lia.
Qed.
End Header.

Section Create.
Import TrackVis.

Ltac eval_offsets :=
  repeat match goal with
  | |- context [offsetof ?f] =>
      let v := eval vm_compute in (offsetof f) in change (offsetof f) with v
  end.

Ltac bytes_length :=
  rewrite ?length_le_bytes; cbn [length str_LPS str_TRACK]; lia.

Ltac keeps_size :=
  repeat (apply store_keeps_size; [ | lia | bytes_length]); lia.

Ltac find_store :=
  repeat first
    [ apply holds_store_same; [keeps_size | lia | bytes_length]
    | apply holds_store_other; [lia | bytes_length | bytes_length | ] ].

Variables dims pixdims : Z -> Z.
Variable garbage : list Z.
Hypothesis garbage_size : length garbage = 1000%nat.
Hypothesis dims_ok : forall i, 0 <= i <= 2 -> 0 < dims i < 2 ^ 15.
Hypothesis pixdims_ok :
  forall i, 0 <= i <= 2 ->
    0 <= pixdims i < 2 ^ 32 /\ f32_le_zero (pixdims i) = false.

Lemma create_axes_ok :
  fst (create_axes [0; 1; 2] dims pixdims garbage) = true.
Proof.
  cbn [create_axes].
  destruct (pixdims_ok 0 ltac:(lia)) as [_ ->].
  destruct (pixdims_ok 1 ltac:(lia)) as [_ ->].
  destruct (pixdims_ok 2 ltac:(lia)) as [_ ->].
  pose proof (dims_ok 0 ltac:(lia)). pose proof (dims_ok 1 ltac:(lia)).
  pose proof (dims_ok 2 ltac:(lia)).
  replace (dims 0 <=? 0) with false by (symmetry; apply Z.leb_gt; lia).
  replace (dims 1 <=? 0) with false by (symmetry; apply Z.leb_gt; lia).
  replace (dims 2 <=? 0) with false by (symmetry; apply Z.leb_gt; lia).
  reflexivity.
Qed.

Lemma created_header_unfold :
  (created_header dims pixdims garbage)
  = set_chars id_string str_TRACK
      (create_fields
         (set_float origin 2 f32_zero
            (set_float voxel_size 2 (pixdims 2)
               (set_int16 hdr_dim 2 (dims 2)
         (set_float origin 1 f32_zero
            (set_float voxel_size 1 (pixdims 1)
               (set_int16 hdr_dim 1 (dims 1)
         (set_float origin 0 f32_zero
            (set_float voxel_size 0 (pixdims 0)
               (set_int16 hdr_dim 0 (dims 0) garbage)))))))))).
Proof.
  unfold created_header. cbn [create_axes].
  destruct (pixdims_ok 0 ltac:(lia)) as [_ ->].
  destruct (pixdims_ok 1 ltac:(lia)) as [_ ->].
  destruct (pixdims_ok 2 ltac:(lia)) as [_ ->].
  pose proof (dims_ok 0 ltac:(lia)). pose proof (dims_ok 1 ltac:(lia)).
  pose proof (dims_ok 2 ltac:(lia)).
  replace (dims 0 <=? 0) with false by (symmetry; apply Z.leb_gt; lia).
  replace (dims 1 <=? 0) with false by (symmetry; apply Z.leb_gt; lia).
  replace (dims 2 <=? 0) with false by (symmetry; apply Z.leb_gt; lia).
  reflexivity.
Qed.

Lemma store_sized (o : Z) (bs m : list Z) :
  length m = 1000%nat -> 0 <= o -> o + Z.of_nat (length bs) <= 1000 ->
  length (store o bs m) = 1000%nat.
Proof.
  intros Hm Ho H. rewrite length_store by lia. exact Hm.
Qed.

Lemma created_header_size :
  length (created_header dims pixdims garbage) = 1000%nat.
Proof.
  rewrite created_header_unfold.
  unfold create_fields, set_chars, set_int32, set_int16, set_float, set_byte.
  eval_offsets.
  repeat (apply store_sized; [ | lia | bytes_length ]).
  exact garbage_size.
Qed.

Lemma created_header_fields :
  (forall i, 0 <= i <= 2 ->
     holds (offsetof hdr_dim + 2 * i) (le_bytes 2 (dims i)) (created_header dims pixdims garbage) /\
     holds (offsetof voxel_size + 4 * i) (le_bytes 4 (pixdims i)) (created_header dims pixdims garbage)) /\
  holds (offsetof n_count) (le_bytes 4 0) (created_header dims pixdims garbage) /\
  holds (offsetof version) (le_bytes 4 1) (created_header dims pixdims garbage) /\
  holds (offsetof hdr_size) (le_bytes 4 1000) (created_header dims pixdims garbage).
Proof.
  pose proof garbage_size as Hsize.
  rewrite created_header_unfold.
  unfold create_fields, set_chars, set_int32, set_int16, set_float, set_byte.
  eval_offsets.
  split; [|split; [|split]].
  - intros i Hi. assert (Hi' : i = 0 \/ i = 1 \/ i = 2) by lia.
    destruct Hi' as [-> | [-> | ->]]; split; find_store.
  - find_store.
  - find_store.
  - find_store.
Qed.

Lemma create_result :
  create (new garbage) true dims pixdims
  = (1, mk_state (Some ((created_header dims pixdims garbage), 1000)) 2000 (created_header dims pixdims garbage)).
Proof.
  unfold create, new. cbn [hdr maxSteps fp].
  pose proof create_axes_ok as Hok.
  pose proof created_header_size as Hsize.
  unfold created_header in *.
  destruct (create_axes [0; 1; 2] dims pixdims garbage) as [ok h].
  cbn [fst snd] in *. subst ok. cbn [negb].
  unfold fwrite. cbn [fst snd].
  rewrite take_ge by lia. rewrite Hsize.
  unfold store. cbn [Z.to_nat take app]. rewrite drop_nil, app_nil_r.
  reflexivity.
Qed.
End Create.

Section Reopen.
Import TrackVis.

Lemma fwrite_at_end (bs content : list Z) :
  fwrite bs (content, Z.of_nat (length content))
  = (content ++ bs, Z.of_nat (length (content ++ bs))).
Proof.
  unfold fwrite, store. cbn [fst snd]. rewrite Nat2Z.id.
  rewrite take_ge by lia. rewrite drop_ge by lia.
  rewrite app_nil_r, length_app. f_equal. lia.
Qed.

(** [append] only adds bytes at the end of the file and leaves [hdr] and
    [maxSteps] alone. *)
Lemma append_at_end (f32_bits : Q -> Z) (tv : state) (content : list Z)
    (fiber : list Vec3Df) (numPoints saveMethod : Z) :
  fp tv = Some (content, Z.of_nat (length content)) ->
  exists extra,
    fp (snd (append f32_bits tv fiber numPoints saveMethod))
    = Some (content ++ extra, Z.of_nat (length (content ++ extra))).
Proof.
  intros Hfp. unfold append.
  destruct (maxSteps tv <? numPoints).
  { exists []. rewrite app_nil_r. exact Hfp. }
  destruct (append_points fiber numPoints saveMethod) as [numSaved tmp].
  rewrite Hfp. cbn [snd fp].
  rewrite !fwrite_at_end, <- app_assoc. eexists. reflexivity.
Qed.

Lemma appends_at_end (f32_bits : Q -> Z)
    (calls : list (list Vec3Df * Z * Z)) (tv : state) (content : list Z) :
  fp tv = Some (content, Z.of_nat (length content)) ->
  exists data,
    fp (fold_left
          (fun tv c => snd (append f32_bits tv (fst (fst c)) (snd (fst c)) (snd c)))
          calls tv)
    = Some (content ++ data, Z.of_nat (length (content ++ data))).
Proof.
  revert tv content. induction calls as [|c calls IH]; intros tv content Hfp.
  - exists []. rewrite app_nil_r. exact Hfp.
  - cbn [fold_left].
    destruct (append_at_end f32_bits tv content (fst (fst c)) (snd (fst c))
                (snd c) Hfp) as (extra & Hfp').
    destruct (IH _ _ Hfp') as (data & Hdata).
    exists (extra ++ data). rewrite app_assoc. exact Hdata.
Qed.

Lemma holds_get (o : Z) (n : nat) (bs m : list Z) :
  holds o bs m -> length bs = n -> load o n m = bs.
Proof.
  intros (_ & _ & _ & H) <-. exact H.
Qed.

Lemma holds_load (o : Z) (n : nat) (bs m old : list Z) :
  holds o bs m -> length bs = n ->
  load o n (store 0 (take 1000 m) old) = bs.
Proof.
  intros H <-. now apply holds_read_back.
Qed.
End Reopen.

(** ** [doTracking] on an output file that [create] has opened *)

Lemma to_short_range (v : Z) : - 2 ^ 15 <= to_short v < 2 ^ 15.
Proof.
  unfold to_short, TrackVis.to_signed.
  pose proof (Z.mod_pos_bound v (2 ^ 16) ltac:(lia)).
  destruct (_ <? _) eqn:E; [apply Z.ltb_lt in E | apply Z.ltb_ge in E];
    change (2 ^ (16 - 1)) with (2 ^ 15) in E; lia.
Qed.

Lemma store_app_low (o : Z) (bs a b : list Z) :
  0 <= o -> (Z.to_nat o + length bs <= length a)%nat ->
  TrackVis.store o bs (a ++ b) = TrackVis.store o bs a ++ b.
Proof.
  intros Ho Hin. unfold TrackVis.store.
  rewrite take_app_le by lia. rewrite drop_app_le by lia.
  now rewrite <- !app_assoc.
Qed.

Section OpenedOutput.
Variable sqrtf : Q -> Q.
Variable uniform : nat -> Q.
Variable f32_bits : Q -> Z.
Variable s : streamline.

Lemma output_created (garbage : list Z) (openable : bool) :
  output_ok f32_bits (niiMASK s) garbage openable ->
  TrackVis.create (TrackVis.new garbage) openable
    (fun i => to_short (dim (niiMASK s) (i + 1)))
    (fun i => f32_bits (pixdim (niiMASK s) (i + 1)))
  = (1, TrackVis.mk_state
          (Some (output_header f32_bits (niiMASK s) garbage, 1000)) 2000
          (output_header f32_bits (niiMASK s) garbage)) /\
  length (output_header f32_bits (niiMASK s) garbage) = 1000%nat.
Proof.
  intros (-> & Hsize & Hdims & Hpix).
  assert (Hdims' : forall i, 0 <= i <= 2 ->
            0 < to_short (dim (niiMASK s) (i + 1)) < 2 ^ 15).
  { intros i Hi. specialize (Hdims i Hi).
    pose proof (to_short_range (dim (niiMASK s) (i + 1))). lia. }
  split.
  - exact (create_result _ _ garbage Hsize Hdims' Hpix).
  - exact (created_header_size _ _ garbage Hsize Hdims' Hpix).
Qed.

Lemma append_keeps_open (tv : TrackVis.state) (fiber : list Vec3Df)
    (numPoints saveMethod : Z) :
  is_Some (TrackVis.fp tv) ->
  is_Some (TrackVis.fp
             (snd (TrackVis.append f32_bits tv fiber numPoints saveMethod))).
Proof.
  intros [f Hf]. unfold TrackVis.append.
  destruct (_ <? _); [now exists f|].
  destruct (TrackVis.append_points _ _ _) as [numSaved tmp].
  rewrite Hf. cbn [snd TrackVis.fp]. eexists. reflexivity.
Qed.

Lemma save_found_keeps_open (st : track_state) (acc : TrackVis.state * Z) :
  is_Some (TrackVis.fp (fst acc)) ->
  is_Some (TrackVis.fp (fst (save_found f32_bits s st acc))).
Proof.
  unfold save_found. revert acc.
  induction (seq 0 (found st)) as [|i l IH]; intros acc Hopen; [exact Hopen|].
  cbn [fold_left]. apply IH. unfold save_body.
  destruct (accept s _); [|exact Hopen].
  cbn [fst]. now apply append_keeps_open.
Qed.

Lemma voxel_loop_keeps_open (vs : list (Z * Z * Z)) (st : track_state)
    (out : TrackVis.state * Z) :
  (3 * Z.to_nat (seeds (CONFIG s)) <= length (FIBERs st))%nat ->
  (3 * Z.to_nat (seeds (CONFIG s)) <= length (LENGTHs st))%nat ->
  is_Some (TrackVis.fp (fst out)) ->
  exists st' out',
    voxel_loop sqrtf uniform f32_bits s vs (st, out) = Some (st', out') /\
    is_Some (TrackVis.fp (fst out')).
Proof.
  revert st out. induction vs as [|[[x y] z] vs IH]; intros st out HF HL Hopen.
  - exists st, out. split; [reflexivity | exact Hopen].
  - simpl. destruct (match niiSEED s with Some _ => _ | None => _ end).
    + simpl. now apply IH.
    + destruct (trackFromXYZ_spec sqrtf uniform s x y z st HF HL)
        as (st' & -> & _ & _ & LF & LL).
      simpl. apply IH; [lia | lia |]. now apply save_found_keeps_open.
Qed.

(** With an opened output file, [doTracking] returns and leaves a file. *)
Lemma doTracking_opened (st : track_state) (garbage : list Z)
    (openable : bool) :
  output_ok f32_bits (niiMASK s) garbage openable ->
  (3 * Z.to_nat (seeds (CONFIG s)) <= length (FIBERs st))%nat ->
  (3 * Z.to_nat (seeds (CONFIG s)) <= length (LENGTHs st))%nat ->
  exists tot_fibers disk st',
    doTracking sqrtf uniform f32_bits s st garbage openable
    = Some (tot_fibers, Some disk, st').
Proof.
  intros Hok HF HL. unfold doTracking.
  destruct (output_created garbage openable Hok) as [-> _]. cbn [snd].
  match goal with |- context [voxel_loop _ _ _ _ ?vs (st, ?o)] =>
    destruct (voxel_loop_keeps_open vs st o HF HL)
      as (st' & [tv tot] & -> & [f Hf])
  end.
  { cbn [fst TrackVis.fp]. eexists. reflexivity. }
  cbn [mbind option_bind fst] in *.
  unfold TrackVis.updateTotal, TrackVis.close. rewrite Hf.
  cbn [TrackVis.fp option_map fst]. eexists _, _, _. reflexivity.
Qed.

(** When the loop over the voxels changes neither the file nor the count,
    the file that [doTracking] leaves is the header, with the count 0. *)
Lemma doTracking_nothing_saved (P : track_state -> Prop) (st : track_state)
    (garbage : list Z) (openable : bool) :
  output_ok f32_bits (niiMASK s) garbage openable ->
  (forall out, exists st',
     voxel_loop sqrtf uniform f32_bits s
       (raster (dim (niiDIR s) 1) (dim (niiDIR s) 2) (dim (niiDIR s) 3))
       (st, out) = Some (st', out) /\ P st') ->
  exists disk st',
    doTracking sqrtf uniform f32_bits s st garbage openable
    = Some (0, Some disk, st') /\
    disk = TrackVis.store (TrackVis.offsetof TrackVis.n_count)
             (TrackVis.le_bytes 4 0)
             (output_header f32_bits (niiMASK s) garbage) /\
    length disk = 1000%nat /\ P st'.
Proof.
  intros Hok Hloop. unfold doTracking.
  destruct (output_created garbage openable Hok) as [-> Hlen]. cbn [snd].
  match goal with |- context [voxel_loop _ _ _ _ _ (st, ?o)] =>
    destruct (Hloop o) as (st' & -> & HP)
  end.
  cbn [mbind option_bind].
  unfold TrackVis.updateTotal, TrackVis.close, TrackVis.fwrite,
    TrackVis.fseek.
  cbn [TrackVis.fp option_map fst snd].
  change (TrackVis.offsetof TrackVis.n_count) with 988.
  change (1000 - 12) with 988.
  eexists _, st'. split; [reflexivity|]. split; [reflexivity|].
  split; [|exact HP].
  rewrite length_store; [exact Hlen | lia |].
  rewrite length_le_bytes, Hlen. lia.
Qed.
End OpenedOutput.

(** *** A point on the grid of the mask is on the grid of DIR *)

Lemma floor_within (c pm pd : Q) (dm dd : Z) :
  (0 < pm)%Q -> (0 < pd)%Q ->
  (inject_Z dm * pm <= inject_Z dd * pd)%Q ->
  0 <= Qfloor (c / pm) -> Qfloor (c / pm) <= dm - 1 ->
  0 <= Qfloor (c / pd) < dd.
Proof.
  intros Hpm Hpd Hle Hlo Hhi.
  assert (Ecm : (c == c / pm * pm)%Q) by (field; lra).
  assert (Ecd : (c == c / pd * pd)%Q) by (field; lra).
  assert (H0 : (0 <= c / pm)%Q).
  { eapply Qle_trans; [|apply Qfloor_le].
    change 0%Q with (inject_Z 0). now rewrite <- Zle_Qle. }
  assert (H1 : (c / pm < inject_Z dm)%Q).
  { eapply Qlt_le_trans; [apply Qlt_floor|].
    rewrite <- Zle_Qle. lia. }
  assert (Hc0 : (0 <= c)%Q).
  { rewrite Ecm. apply Qmult_le_0_compat; lra. }
  assert (Hc1 : (c < inject_Z dd * pd)%Q).
  { eapply Qlt_le_trans; [|exact Hle]. rewrite Ecm at 1.
    apply Qmult_lt_compat_r; assumption. }
  assert (Hd0 : (0 <= c / pd)%Q).
  { apply Qle_shift_div_l; [exact Hpd | lra]. }
  assert (Hd1 : (c / pd < inject_Z dd)%Q).
  { apply Qlt_shift_div_r; [exact Hpd | exact Hc1]. }
  split.
  - change 0 with (Qfloor 0). now apply Qfloor_resp_le.
  - rewrite Zlt_Qlt. eapply Qle_lt_trans; [apply Qfloor_le | exact Hd1].
Qed.

Lemma inside_WM_on_grid (s : streamline) (c : Vec3Df) :
  FOV_within (niiMASK s) (niiDIR s) ->
  outside_WM s c = false ->
  0 <= ix (voxel_of (niiDIR s) c) < dim (niiDIR s) 1 /\
  0 <= iy (voxel_of (niiDIR s) c) < dim (niiDIR s) 2 /\
  0 <= iz (voxel_of (niiDIR s) c) < dim (niiDIR s) 3.
Proof.
  intros Hfov Hin. unfold outside_WM in Hin.
  repeat (apply orb_false_elim in Hin as [Hin ?]).
  repeat match goal with
  | H : (_ <? _) = false |- _ => apply Z.ltb_ge in H
  end.
  destruct (Hfov 1 ltac:(lia)) as (? & ? & ?).
  destruct (Hfov 2 ltac:(lia)) as (? & ? & ?).
  destruct (Hfov 3 ltac:(lia)) as (? & ? & ?).
  unfold voxel_of in *. cbn [ix iy iz] in *.
  split; [|split].
  - apply (floor_within (fx c) (pixdim (niiMASK s) 1) _
                        (dim (niiMASK s) 1)); try assumption; lia.
  - apply (floor_within (fy c) (pixdim (niiMASK s) 2) _
                        (dim (niiMASK s) 2)); try assumption; lia.
  - apply (floor_within (fz c) (pixdim (niiMASK s) 3) _
                        (dim (niiMASK s) 3)); try assumption; lia.
Qed.

(** C2.  Whatever the threshold [volFracThr]: when [pickBestDir] selects a
    direction, it is plus or minus a candidate whose volume fraction is
    strictly above the threshold; the seed loop starts no fiber from a
    candidate whose volume fraction is at most the threshold; and on a
    direction field that is zero everywhere, with [volFracThr] zero,
    [trackFromXYZ] returns 0 at every voxel, and [doTracking], on an output
    file that [create] has opened, returns 0 and leaves the header alone,
    with the count 0. *)
Theorem volume_fraction_gate (sqrtf : Q -> Q) (uniform : nat -> Q)
    (f32_bits : Q -> Z) (s : streamline) :
  (forall voxel d v, pickBestDir s voxel d = (true, v) ->
     exists j, 0 <= j <= 2 /\
       ~ (DIR_at s voxel (j*4) <= volFracThr (CONFIG s))%Q /\
       (v = Vscale 1 (candidate s voxel j) \/
        v = Vscale (-1) (candidate s voxel j))) /\
  (forall x y z COORD_seed st seedDir,
     (img (niiDIR s) x y z (seedDir*4) <= volFracThr (CONFIG s))%Q ->
     seedDir_body sqrtf s x y z COORD_seed st seedDir = Some st) /\
  ((forall x y z k, img (niiDIR s) x y z k == 0)%Q ->
   (volFracThr (CONFIG s) == 0)%Q ->
   (forall x y z st, exists st',
      trackFromXYZ sqrtf uniform s x y z st = Some st' /\ found st' = 0%nat) /\
   (forall st garbage openable,
      output_ok f32_bits (niiMASK s) garbage openable ->
      exists disk st',
        doTracking sqrtf uniform f32_bits s st garbage openable
        = Some (0, Some disk, st') /\
        disk = TrackVis.store (TrackVis.offsetof TrackVis.n_count)
                 (TrackVis.le_bytes 4 0)
                 (output_header f32_bits (niiMASK s) garbage) /\
        length disk = 1000%nat)).
Proof.
  split; [|split].
  - intros voxel d v Hpick.
    destruct (pickBestDir_gate s voxel d v Hpick) as (j & Hj & Hvf & Hv).
    exists j. split; [exact Hj|]. split; [lra | exact Hv].
  - intros. now apply seedDir_body_gate.
  - intros Hzero Hthr.
    assert (Hno : forall x y z, no_candidate s x y z).
    { intros x y z seedDir _. rewrite Hzero, Hthr. lra. }
    split.
    + intros x y z st.
      destruct (trackFromXYZ_no_candidate s sqrtf uniform x y z st (Hno x y z))
        as (st' & Hrun & Hfound & _).
      exists st'. split; assumption.
    + intros st garbage openable Hok.
      destruct (doTracking_nothing_saved sqrtf uniform f32_bits s
                  (fun _ => True) st garbage openable Hok)
        as (disk & st' & Hrun & Hdisk & Hlen & _).
      { intros out.
        destruct (voxel_loop_no_candidate s sqrtf uniform f32_bits
                    (raster (dim (niiDIR s) 1) (dim (niiDIR s) 2)
                            (dim (niiDIR s) 3)) st out Hno) as (st' & Hrun).
        exists st'. split; [exact Hrun | exact I]. }
      exists disk, st'. split; [exact Hrun|]. split; assumption.
Qed.

Lemma volume_fraction_gate_witness :
  (forall x y z st, exists st',
     trackFromXYZ sample_sqrt sample_uniform sample_TRACKER_zero x y z st
       = Some st' /\ found st' = 0%nat) /\
  exists disk st',
    doTracking sample_sqrt sample_uniform sample_f32_bits sample_TRACKER_zero
               sample_arrays sample_garbage true
    = Some (0, Some disk, st') /\
    disk = TrackVis.store (TrackVis.offsetof TrackVis.n_count)
             (TrackVis.le_bytes 4 0)
             (output_header sample_f32_bits (niiMASK sample_TRACKER_zero)
                            sample_garbage) /\
    length disk = 1000%nat.
Proof.
  destruct (proj2 (proj2 (volume_fraction_gate sample_sqrt sample_uniform
                            sample_f32_bits sample_TRACKER_zero)))
    as [Hvoxel Hrun].
  - intros x y z k. reflexivity.
  - reflexivity.
  - split; [exact Hvoxel|].
    apply Hrun. split; [reflexivity|]. split; [reflexivity|].
    split; intros i _; vm_compute;
      [reflexivity | split; [split; [discriminate | reflexivity] |
                             reflexivity]].
Defined.

(** C7.  A seed mask whose voxel size or grid dimension differs from DIR's on
    some axis makes [setSeedMask] print its diagnostic on the error stream
    and end the process with status 1, and so ends [main], before any output
    exists.  A white-matter mask whose field of view differs from DIR's (the
    extents compared as exact products) makes [setWhiteMatterMask] print a
    warning and return with the mask installed.
    [main] then runs the tracking with that mask: when the field of view of
    the mask lies within the one of DIR, every point that passes the
    containment test is on the grid of DIR, and when [create] opens the
    output file, [main] ends with status 0 and leaves the file of
    [doTracking]. *)
Theorem geometry_mismatch_asymmetry (sqrtf cosf : Q -> Q) (uniform : nat -> Q)
    (f32_bits : Q -> Z) (s : streamline) (nii : NIFTI Z) :
  (geometry_differs nii (niiDIR s) ->
   setSeedMask s (Some nii) = Exits 1 [] [SEED_error]) /\
  (FOV_differs nii (niiDIR s) ->
   setWhiteMatterMask s nii
   = Returns [FOV_warning] []
       (mk_streamline (ANGLE_thr s) (CONFIG s) (niiDIR s) nii (niiSEED s))) /\
  (forall a c DIR MASK garbage openable,
     main_checks a = Returns [] [] c -> opt_seed a = true ->
     geometry_differs nii DIR ->
     main sqrtf cosf uniform f32_bits a (Some DIR) (Some MASK) (Some nii)
          garbage openable
     = Some (mk_run 1 None)) /\
  (forall a c DIR garbage openable,
     main_checks a = Returns [] [] c -> opt_seed a = false ->
     FOV_differs nii DIR ->
     FOV_within nii DIR ->
     output_ok f32_bits nii garbage openable ->
     let TRACKER :=
       mk_streamline (cosf (maxAngle c / 180 * PI_literal)%Q) c DIR nii None in
     let arrays :=
       mk_track (replicate (Z.to_nat (seeds c * 3)) [])
                (replicate (Z.to_nat (seeds c * 3)) 0) 0 0 in
     (forall p, outside_WM TRACKER p = false ->
        0 <= ix (voxel_of DIR p) < dim DIR 1 /\
        0 <= iy (voxel_of DIR p) < dim DIR 2 /\
        0 <= iz (voxel_of DIR p) < dim DIR 3) /\
     exists tot_fibers disk st',
       doTracking sqrtf uniform f32_bits TRACKER arrays garbage openable
       = Some (tot_fibers, Some disk, st') /\
       main sqrtf cosf uniform f32_bits a (Some DIR) (Some nii) None
            garbage openable
       = Some (mk_run 0 (Some disk))).
Proof.
  split; [apply setSeedMask_mismatch|].
  split; [apply setWhiteMatterMask_mismatch|].
  split.
  - intros a c DIR MASK garbage openable Hchk Hseed Hdiff.
    unfold main, setConfig, streamline_new. rewrite Hchk, Hseed.
    rewrite bool_decide_true by (now eexists).
    cbv beta iota zeta. cbn [andb negb].
    match goal with |- context [setWhiteMatterMask ?t MASK] =>
      destruct (setWhiteMatterMask_returns t MASK) as (out & ->)
    end.
    cbv beta iota. now rewrite setSeedMask_mismatch.
  - intros a c DIR garbage openable Hchk Hseed Hdiff Hwithin Hok TRACKER arrays.
    split.
    { intros p Hp.
      exact (inside_WM_on_grid TRACKER p Hwithin Hp). }
    destruct (doTracking_opened sqrtf uniform f32_bits TRACKER arrays garbage
                openable Hok)
      as (tot & disk & st' & Hrun).
    { subst TRACKER arrays. cbn [CONFIG FIBERs]. rewrite length_replicate.
      lia. }
    { subst TRACKER arrays. cbn [CONFIG LENGTHs]. rewrite length_replicate.
      lia. }
    exists tot, disk, st'. split; [exact Hrun|].
    unfold main, setConfig, streamline_new. rewrite Hchk, Hseed.
    cbv beta iota zeta. cbn [andb].
    rewrite setWhiteMatterMask_mismatch by exact Hdiff.
    cbv beta iota. cbn [setSeedMask].
    change (doTracking sqrtf uniform f32_bits _ _ garbage openable)
      with (doTracking sqrtf uniform f32_bits TRACKER arrays garbage openable).
    rewrite Hrun. reflexivity.
Qed.

Lemma geometry_mismatch_asymmetry_witness :
  setSeedMask sample_TRACKER (Some sample_MASK_half)
  = Exits 1 [] [SEED_error] /\
  setWhiteMatterMask sample_TRACKER sample_MASK_half
  = Returns [FOV_warning] []
      (mk_streamline (ANGLE_thr sample_TRACKER) (CONFIG sample_TRACKER)
                     (niiDIR sample_TRACKER) sample_MASK_half
                     (niiSEED sample_TRACKER)) /\
  exists disk,
    main sample_sqrt sample_cos sample_uniform sample_f32_bits
         (sample_arguments sample_CONFIG) (Some sample_DIR)
         (Some sample_MASK_half) None sample_garbage true
    = Some (mk_run 0 (Some disk)).
Proof.
  destruct (geometry_mismatch_asymmetry sample_sqrt sample_cos sample_uniform
              sample_f32_bits sample_TRACKER sample_MASK_half)
    as (Hseed & Hwm & _ & Hmain).
  split; [|split].
  - apply Hseed. exists 1. split; [lia|]. right. simpl. lia.
  - apply Hwm. exists 1. split; [lia|]. vm_compute. discriminate.
  - destruct (Hmain (sample_arguments sample_CONFIG) sample_CONFIG sample_DIR
                    sample_garbage true)
      as (_ & tot & disk & st' & _ & Hrun).
    + reflexivity.
    + reflexivity.
    + exists 1. split; [lia|]. vm_compute. discriminate.
    + intros i Hi. vm_compute. repeat split; discriminate.
    + split; [reflexivity|]. split; [reflexivity|].
      split; intros i _; vm_compute;
        [reflexivity | split; [split; [discriminate | reflexivity] |
                               reflexivity]].
    + exists disk. exact Hrun.
Defined.

(** C8.  [create] on valid grid dimensions and voxel sizes returns 1 and
    leaves a file of exactly 1000 bytes whose count field is 0, version 1 and
    header size 1000.  After any sequence of [append] calls, [updateTotal n]
    and [close], [open] reads 1000 bytes, and the header it reads has the
    grid dimensions and voxel sizes given to [create] and the count [n]; the
    count field is at offset [1000-12]. *)
Theorem header_round_trip (f32_bits : Q -> Z) (garbage garbage' : list Z)
    (dims pixdims : Z -> Z) (calls : list (list Vec3Df * Z * Z)) (n : Z) :
  length garbage = 1000%nat ->
  (forall i, 0 <= i <= 2 -> 0 < dims i < 2 ^ 15) ->
  (forall i, 0 <= i <= 2 ->
     0 <= pixdims i < 2 ^ 32 /\ TrackVis.f32_le_zero (pixdims i) = false) ->
  - 2 ^ 31 <= n < 2 ^ 31 ->
  let created := TrackVis.create (TrackVis.new garbage) true dims pixdims in
  let appended :=
    fold_left
      (fun tv c =>
         snd (TrackVis.append f32_bits tv (fst (fst c)) (snd (fst c)) (snd c)))
      calls (snd created) in
  let disk := fst (TrackVis.close (TrackVis.updateTotal appended n)) in
  let reopened := TrackVis.open (TrackVis.new garbage') disk in
  let h := TrackVis.hdr (snd reopened) in
  fst created = 1 /\
  (exists h0, fst (TrackVis.close (snd created)) = Some h0 /\
     length h0 = 1000%nat /\
     TrackVis.get_int32 TrackVis.n_count h0 = 0 /\
     TrackVis.get_int32 TrackVis.version h0 = 1 /\
     TrackVis.get_int32 TrackVis.hdr_size h0 = 1000) /\
  fst reopened = 1000 /\
  (forall i, 0 <= i <= 2 ->
     TrackVis.get_int16 TrackVis.hdr_dim i h = dims i /\
     TrackVis.get_float TrackVis.voxel_size i h = pixdims i) /\
  TrackVis.get_int32 TrackVis.n_count h = n /\
  TrackVis.get_int32 TrackVis.version h = 1 /\
  TrackVis.get_int32 TrackVis.hdr_size h = 1000 /\
  TrackVis.offsetof TrackVis.n_count = 1000 - 12 /\
  TrackVis.sizeof_header = 1000.
Proof.
  intros Hsize Hdims Hpix Hn. cbv zeta.
  rewrite (create_result dims pixdims garbage Hsize Hdims Hpix).
  set (h0 := created_header dims pixdims garbage).
  pose proof (created_header_size dims pixdims garbage Hsize Hdims Hpix) as Hlen.
  destruct (created_header_fields dims pixdims garbage Hsize Hdims Hpix)
    as (Haxes & Hcount & Hversion & Hhsize).
  fold h0 in Hlen, Haxes, Hcount, Hversion, Hhsize.
  cbn [fst snd].
  split; [reflexivity|]. split.
  { exists h0. unfold TrackVis.close. cbn [TrackVis.fp option_map fst].
    split; [reflexivity|]. split; [exact Hlen|].
    unfold TrackVis.get_int32.
    rewrite (holds_get _ 4 _ _ Hcount), (holds_get _ 4 _ _ Hversion),
            (holds_get _ 4 _ _ Hhsize) by apply length_le_bytes.
    repeat split; apply int32_round_trip; lia. }
  destruct (appends_at_end f32_bits calls
              (TrackVis.mk_state (Some (h0, 1000)) 2000 h0) h0)
    as (data & Hdata).
  { cbn [TrackVis.fp]. rewrite Hlen. reflexivity. }
  unfold TrackVis.updateTotal. rewrite Hdata.
  unfold TrackVis.close, TrackVis.fwrite, TrackVis.fseek, TrackVis.open.
  cbn [TrackVis.fp option_map fst snd TrackVis.hdr TrackVis.new].
  set (m := TrackVis.store (1000 - 12) (TrackVis.le_bytes 4 n) (h0 ++ data)).
  assert (Hbig : (1000 <= length (h0 ++ data))%nat)
    by (rewrite length_app; lia).
  assert (Hm : (1000 <= length m)%nat).
  { subst m. apply store_keeps_size; [exact Hbig | lia |].
    rewrite length_le_bytes. lia. }
  assert (Hkeep : forall o bs, holds o bs h0 ->
            o + Z.of_nat (length bs) <= 988 \/ 992 <= o -> holds o bs m).
  { intros o bs Hh Ho. subst m. apply holds_store_other.
    - lia.
    - rewrite length_le_bytes. lia.
    - rewrite length_le_bytes. lia.
    - now apply holds_app. }
  assert (Hnew : holds 988 (TrackVis.le_bytes 4 n) m).
  { subst m. apply holds_store_same; [exact Hbig | lia |].
    rewrite length_le_bytes. lia. }
  split.
  { rewrite length_take. lia. }
  split; [|split; [|split; [|split; [|split]]]].
  - intros i Hi. destruct (Haxes i Hi) as [Hd Hv].
    unfold TrackVis.get_int16, TrackVis.get_float.
    rewrite (holds_load _ 2 (TrackVis.le_bytes 2 (dims i)) m);
      [ | apply Hkeep; [exact Hd|] | apply length_le_bytes ].
    rewrite (holds_load _ 4 (TrackVis.le_bytes 4 (pixdims i)) m);
      [ | apply Hkeep; [exact Hv|] | apply length_le_bytes ].
    + split.
      * apply int16_round_trip. specialize (Hdims i Hi). lia.
      * apply float_round_trip. now destruct (Hpix i Hi).
    + rewrite length_le_bytes.
      change (TrackVis.offsetof TrackVis.voxel_size) with 12. lia.
    + rewrite length_le_bytes.
      change (TrackVis.offsetof TrackVis.hdr_dim) with 6. lia.
  - unfold TrackVis.get_int32.
    change (TrackVis.offsetof TrackVis.n_count) with 988.
    rewrite (holds_load 988 4 (TrackVis.le_bytes 4 n) m);
      [ | exact Hnew | apply length_le_bytes ].
    now apply int32_round_trip.
  - unfold TrackVis.get_int32.
    rewrite (holds_load _ 4 (TrackVis.le_bytes 4 1) m);
      [ | apply Hkeep; [exact Hversion|] | apply length_le_bytes ].
    + apply int32_round_trip. lia.
    + right. change (TrackVis.offsetof TrackVis.version) with 992. lia.
  - unfold TrackVis.get_int32.
    rewrite (holds_load _ 4 (TrackVis.le_bytes 4 1000) m);
      [ | apply Hkeep; [exact Hhsize|] | apply length_le_bytes ].
    + apply int32_round_trip. lia.
    + right. change (TrackVis.offsetof TrackVis.hdr_size) with 996. lia.
  - reflexivity.
  - reflexivity.
Qed.

Lemma header_round_trip_witness :
  let created :=
    TrackVis.create (TrackVis.new sample_garbage) true sample_dims
                    sample_pixdims in
  let appended :=
    fold_left
      (fun tv c =>
         snd (TrackVis.append sample_f32_bits tv (fst (fst c)) (snd (fst c))
                              (snd c)))
      sample_calls (snd created) in
  let disk := fst (TrackVis.close (TrackVis.updateTotal appended 5)) in
  let reopened := TrackVis.open (TrackVis.new []) disk in
  let h := TrackVis.hdr (snd reopened) in
  fst created = 1 /\
  (exists h0, fst (TrackVis.close (snd created)) = Some h0 /\
     length h0 = 1000%nat /\
     TrackVis.get_int32 TrackVis.n_count h0 = 0 /\
     TrackVis.get_int32 TrackVis.version h0 = 1 /\
     TrackVis.get_int32 TrackVis.hdr_size h0 = 1000) /\
  fst reopened = 1000 /\
  (forall i, 0 <= i <= 2 ->
     TrackVis.get_int16 TrackVis.hdr_dim i h = sample_dims i /\
     TrackVis.get_float TrackVis.voxel_size i h = sample_pixdims i) /\
  TrackVis.get_int32 TrackVis.n_count h = 5 /\
  TrackVis.get_int32 TrackVis.version h = 1 /\
  TrackVis.get_int32 TrackVis.hdr_size h = 1000 /\
  TrackVis.offsetof TrackVis.n_count = 1000 - 12 /\
  TrackVis.sizeof_header = 1000.
Proof.
  apply (header_round_trip sample_f32_bits sample_garbage [] sample_dims
           sample_pixdims sample_calls 5).
  - reflexivity.
  - intros i Hi. unfold sample_dims. lia.
  - intros i Hi. split; [|reflexivity].
    unfold sample_pixdims, TrackVis.f32_one. lia.
  - lia.
Defined.

(** * Further properties of the code *)

(** ** utils.h: Normalize *)

(** X1.  In the rational model of [float], where sums, products and
    quotients are exact, and for a vector whose squared length has an exact
    square root that [sqrt] returns: [Normalize] returns the zero vector
    unchanged, and turns any other vector into the vector of length 1 that
    points the same way (each component divided by the norm, which is
    positive).  The float code reaches length 1 only up to rounding. *)
Theorem Normalize_unit (sqrtf : Q -> Q) (v : Vec3Df) :
  let norm := sqrtf (fx v * fx v + fy v * fy v + fz v * fz v)%Q in
  (0 <= norm)%Q -> (norm * norm == ScalarProduct v v)%Q ->
  ((ScalarProduct v v == 0)%Q -> Normalize sqrtf v = v) /\
  (~ (ScalarProduct v v == 0)%Q ->
   (0 < norm)%Q /\
   Normalize sqrtf v = mkVec3Df (fx v / norm) (fy v / norm) (fz v / norm) /\
   (ScalarProduct (Normalize sqrtf v) (Normalize sqrtf v) == 1)%Q /\
   (ScalarProduct (Normalize sqrtf v) v == norm)%Q).
Proof.
  cbv zeta. unfold Normalize.
  set (norm := sqrtf (fx v * fx v + fy v * fy v + fz v * fz v)%Q).
  intros Hge Hsq. split.
  - intros Hz. rewrite Hz in Hsq.
    assert (E : (norm == 0)%Q)
      by (destruct (Qmult_integral _ _ Hsq); assumption).
    assert (Hb : Qltb 0 norm = false) by (apply Qltb_ge; lra).
    now rewrite Hb.
  - intros Hnz.
    assert (Hne : ~ (norm == 0)%Q).
    { intros E. apply Hnz. rewrite <- Hsq, E. reflexivity. }
    assert (Hpos : (0 < norm)%Q) by lra.
    pose proof Hpos as Hb. apply Qltb_lt in Hb. rewrite Hb.
    split; [exact Hpos|]. split; [reflexivity|].
    unfold ScalarProduct in *. cbn [fx fy fz]. split.
    + transitivity
        ((fx v * fx v + fy v * fy v + fz v * fz v) / (norm * norm))%Q.
      * field. exact Hne.
      * rewrite <- Hsq. field. exact Hne.
    + transitivity ((fx v * fx v + fy v * fy v + fz v * fz v) / norm)%Q.
      * field. exact Hne.
      * rewrite <- Hsq. field. exact Hne.
Qed.

Lemma Normalize_unit_witness :
  let v := mkVec3Df 3 4 0 in
  (ScalarProduct (Normalize sample_sqrt v) (Normalize sample_sqrt v) == 1)%Q /\
  (ScalarProduct (Normalize sample_sqrt v) v == 5)%Q.
Proof.
  intros v.
  assert (Hge : (0 <= sample_sqrt (fx v * fx v + fy v * fy v + fz v * fz v))%Q)
    by (vm_compute; discriminate).
  assert (Hsq : (sample_sqrt (fx v * fx v + fy v * fy v + fz v * fz v) *
                 sample_sqrt (fx v * fx v + fy v * fy v + fz v * fz v)
                 == ScalarProduct v v)%Q)
    by (vm_compute; reflexivity).
  assert (Hnz : ~ (ScalarProduct v v == 0)%Q) by (vm_compute; discriminate).
  destruct (proj2 (Normalize_unit sample_sqrt v Hge Hsq) Hnz)
    as (_ & _ & Hunit & Hdot).
  split; [exact Hunit|]. rewrite Hdot. vm_compute. reflexivity.
Defined.

(** ** streamline.h: the geometry checks, both ways *)

Lemma Qneb_false (a b : Q) : Qneb a b = false <-> (a == b)%Q.
Proof.
  unfold Qneb. rewrite negb_false_iff. apply Qeq_bool_iff.
Qed.

(** X2.  [setSeedMask] compares the stored voxel sizes and grid dimensions,
    with no arithmetic: it ends the process exactly when the seed mask
    differs from DIR in one of them; otherwise, and for the NULL mask, it
    returns silently with the mask installed.  [setWhiteMatterMask] never
    ends the process: it returns with the mask installed, with its warning
    or with no message.  Its test compares the products of a grid dimension
    and a voxel size, so a volume with the voxel sizes and grid dimensions
    of DIR gets no warning: every white-matter mask that gets the warning
    would be refused as a seed mask.  The converse fails: on a DIR of
    3 x 3 x 3 voxels of size 1, a mask of 6 x 6 x 6 voxels of size 1/2 gets
    no warning and is refused as a seed mask.  (Voxel sizes are numbers
    here; a NaN would differ from itself.) *)
Theorem mask_checks_exact (s : streamline) (nii : NIFTI Z) :
  let seeded := mk_streamline (ANGLE_thr s) (CONFIG s) (niiDIR s) (niiMASK s) in
  let masked := mk_streamline (ANGLE_thr s) (CONFIG s) (niiDIR s) nii (niiSEED s) in
  (geometry_differs nii (niiDIR s) <->
   setSeedMask s (Some nii) = Exits 1 [] [SEED_error]) /\
  (~ geometry_differs nii (niiDIR s) <->
   setSeedMask s (Some nii) = Returns [] [] (seeded (Some nii))) /\
  setSeedMask s None = Returns [] [] (seeded None) /\
  (setWhiteMatterMask s nii = Returns [FOV_warning] [] masked \/
   setWhiteMatterMask s nii = Returns [] [] masked) /\
  (~ geometry_differs nii (niiDIR s) ->
   setWhiteMatterMask s nii = Returns [] [] masked) /\
  (setWhiteMatterMask s nii = Returns [FOV_warning] [] masked ->
   setSeedMask s (Some nii) = Exits 1 [] [SEED_error]) /\
  (setWhiteMatterMask sample_TRACKER sample_MASK_fine
   = Returns [] []
       (mk_streamline (ANGLE_thr sample_TRACKER) (CONFIG sample_TRACKER)
                      sample_DIR sample_MASK_fine None) /\
   setSeedMask sample_TRACKER (Some sample_MASK_fine)
   = Exits 1 [] [SEED_error]).
Proof.
  cbv zeta.
  assert (Hseed : geometry_differs nii (niiDIR s) \/
                  (~ geometry_differs nii (niiDIR s) /\
                   setSeedMask s (Some nii)
                   = Returns [] []
                       (mk_streamline (ANGLE_thr s) (CONFIG s) (niiDIR s)
                                      (niiMASK s) (Some nii)))).
  { unfold setSeedMask.
    destruct (Qneb (pixdim nii 1) (pixdim (niiDIR s) 1)) eqn:P1;
      [left; exists 1; split; [lia|]; left; now apply Qneb_true|].
    destruct (Qneb (pixdim nii 2) (pixdim (niiDIR s) 2)) eqn:P2;
      [left; exists 2; split; [lia|]; left; now apply Qneb_true|].
    destruct (Qneb (pixdim nii 3) (pixdim (niiDIR s) 3)) eqn:P3;
      [left; exists 3; split; [lia|]; left; now apply Qneb_true|].
    destruct (dim nii 1 =? dim (niiDIR s) 1) eqn:D1;
      [|left; exists 1; split; [lia|]; right; now apply Z.eqb_neq].
    destruct (dim nii 2 =? dim (niiDIR s) 2) eqn:D2;
      [|left; exists 2; split; [lia|]; right; now apply Z.eqb_neq].
    destruct (dim nii 3 =? dim (niiDIR s) 3) eqn:D3;
      [|left; exists 3; split; [lia|]; right; now apply Z.eqb_neq].
    right. split; [|reflexivity].
    apply Qneb_false in P1, P2, P3. apply Z.eqb_eq in D1, D2, D3.
    intros (i & Hi & [Hp | Hd]);
      assert (Hi' : i = 1 \/ i = 2 \/ i = 3) by lia;
      destruct Hi' as [-> | [-> | ->]]; contradiction. }
  assert (Hsame : ~ geometry_differs nii (niiDIR s) ->
                  setWhiteMatterMask s nii
                  = Returns [] []
                      (mk_streamline (ANGLE_thr s) (CONFIG s) (niiDIR s) nii
                                     (niiSEED s))).
  { intros Hn.
    assert (Hax : forall i, 1 <= i <= 3 ->
              (inject_Z (dim nii i) * pixdim nii i
               == inject_Z (dim (niiDIR s) i) * pixdim (niiDIR s) i)%Q).
    { intros i Hi.
      destruct (Qeq_dec (pixdim nii i) (pixdim (niiDIR s) i)) as [Ep | Np];
        [|exfalso; apply Hn; exists i; split; [exact Hi | now left]].
      destruct (Z.eq_dec (dim nii i) (dim (niiDIR s) i)) as [Ed | Nd];
        [|exfalso; apply Hn; exists i; split; [exact Hi | now right]].
      rewrite Ep, Ed. reflexivity. }
    unfold setWhiteMatterMask.
    pose proof (Hax 1 ltac:(lia)) as E1. apply Qneb_false in E1.
    pose proof (Hax 2 ltac:(lia)) as E2. apply Qneb_false in E2.
    pose proof (Hax 3 ltac:(lia)) as E3. apply Qneb_false in E3.
    rewrite E1, E2, E3. reflexivity. }
  split; [|split; [|split; [|split; [|split; [|split]]]]].
  - split; [apply setSeedMask_mismatch|].
    intros E. destruct Hseed as [H | [_ H]]; [exact H|]. congruence.
  - split.
    + intros Hn. destruct Hseed as [H | [_ H]]; [contradiction | exact H].
    + intros E Hd. rewrite (setSeedMask_mismatch s nii Hd) in E. discriminate.
  - reflexivity.
  - unfold setWhiteMatterMask. destruct (_ || _); [now left | now right].
  - exact Hsame.
  - intros Hw. destruct Hseed as [H | [Hn _]];
      [now apply setSeedMask_mismatch|].
    rewrite (Hsame Hn) in Hw. discriminate.
  - split; reflexivity.
Qed.

(** ** TrackVis.h: when [create] succeeds *)

(** X3.  [create] returns 1 exactly when every grid dimension is positive,
    no voxel size is [<= 0] and the file can be opened.  On a bad dimension
    or voxel size it returns before [fopen]: the file pointer is the one it
    found; when [fopen] fails the file pointer is NULL. *)
Theorem create_succeeds_iff (tv : TrackVis.state) (openable : bool)
    (dims pixdims : Z -> Z) :
  let valid :=
    forall i, 0 <= i <= 2 ->
      0 < dims i /\ TrackVis.f32_le_zero (pixdims i) = false in
  let r := TrackVis.create tv openable dims pixdims in
  (fst r = 1 <-> valid /\ openable = true) /\
  (fst r = 1 \/ fst r = 0) /\
  (~ valid -> TrackVis.fp (snd r) = TrackVis.fp tv) /\
  (valid -> openable = false -> TrackVis.fp (snd r) = None) /\
  (fst r = 1 ->
   exists h, TrackVis.fp (snd r) = Some (take 1000 h, Z.of_nat (length (take 1000 h)))
             /\ TrackVis.hdr (snd r) = h).
Proof.
  cbv zeta. unfold TrackVis.create. cbn [TrackVis.create_axes].
  destruct (dims 0 <=? 0) eqn:D0; cbn [orb].
  { cbn [negb fst snd TrackVis.fp]. apply Z.leb_le in D0.
    repeat split; auto; try discriminate;
      try (intros [H _]; specialize (H 0 ltac:(lia)); lia);
      try (intros H; specialize (H 0 ltac:(lia)); lia). }
  destruct (TrackVis.f32_le_zero (pixdims 0)) eqn:P0.
  { cbn [negb fst snd TrackVis.fp].
    repeat split; auto; try discriminate;
      try (intros [H _]; specialize (H 0 ltac:(lia)); destruct H; congruence);
      try (intros H; specialize (H 0 ltac:(lia)); destruct H; congruence). }
  destruct (dims 1 <=? 0) eqn:D1; cbn [orb].
  { cbn [negb fst snd TrackVis.fp]. apply Z.leb_le in D1.
    repeat split; auto; try discriminate;
      try (intros [H _]; specialize (H 1 ltac:(lia)); lia);
      try (intros H; specialize (H 1 ltac:(lia)); lia). }
  destruct (TrackVis.f32_le_zero (pixdims 1)) eqn:P1.
  { cbn [negb fst snd TrackVis.fp].
    repeat split; auto; try discriminate;
      try (intros [H _]; specialize (H 1 ltac:(lia)); destruct H; congruence);
      try (intros H; specialize (H 1 ltac:(lia)); destruct H; congruence). }
  destruct (dims 2 <=? 0) eqn:D2; cbn [orb].
  { cbn [negb fst snd TrackVis.fp]. apply Z.leb_le in D2.
    repeat split; auto; try discriminate;
      try (intros [H _]; specialize (H 2 ltac:(lia)); lia);
      try (intros H; specialize (H 2 ltac:(lia)); lia). }
  destruct (TrackVis.f32_le_zero (pixdims 2)) eqn:P2.
  { cbn [negb fst snd TrackVis.fp].
    repeat split; auto; try discriminate;
      try (intros [H _]; specialize (H 2 ltac:(lia)); destruct H; congruence);
      try (intros H; specialize (H 2 ltac:(lia)); destruct H; congruence). }
  apply Z.leb_gt in D0, D1, D2.
  assert (Hvalid : forall i, 0 <= i <= 2 ->
            0 < dims i /\ TrackVis.f32_le_zero (pixdims i) = false).
  { intros i Hi. assert (Hi' : i = 0 \/ i = 1 \/ i = 2) by lia.
    destruct Hi' as [-> | [-> | ->]]; split; assumption. }
  cbn [negb]. destruct openable; cbn [negb fst snd TrackVis.fp TrackVis.hdr].
  - split; [|split; [|split; [|split]]].
    + split; [intros _; split; [exact Hvalid | reflexivity] | reflexivity].
    + now left.
    + intros H. contradiction.
    + discriminate.
    + intros _. eexists. split; [|reflexivity].
      unfold TrackVis.fwrite, TrackVis.store. cbn [fst snd Z.to_nat take app].
      rewrite drop_nil, app_nil_r. reflexivity.
  - split; [|split; [|split; [|split]]].
    + split; [discriminate | intros [_ H]; discriminate].
    + now right.
    + intros H. contradiction.
    + reflexivity.
    + discriminate.
Qed.

(** ** TrackVis.h: the whole header that [create] writes *)

Section CreatedBytes.
Import TrackVis.

Ltac eval_offsets :=
  repeat match goal with
  | |- context [offsetof ?f] =>
      let v := eval vm_compute in (offsetof f) in change (offsetof f) with v
  end.

Ltac bytes_length :=
  rewrite ?length_le_bytes, ?length_take, ?length_drop;
  cbn [length str_LPS str_TRACK]; lia.

Ltac keeps_size :=
  repeat (apply store_keeps_size; [ | lia | bytes_length]); lia.

Ltac find_store :=
  repeat first
    [ apply holds_store_same; [keeps_size | lia | bytes_length]
    | apply holds_store_other; [lia | bytes_length | bytes_length | ] ].

Variables dims pixdims : Z -> Z.
Variable garbage : list Z.
Hypothesis garbage_size : length garbage = 1000%nat.
Hypothesis dims_ok : forall i, 0 <= i <= 2 -> 0 < dims i < 2 ^ 15.
Hypothesis pixdims_ok :
  forall i, 0 <= i <= 2 ->
    0 <= pixdims i < 2 ^ 32 /\ f32_le_zero (pixdims i) = false.

Lemma holds_untouched (o : Z) (n : nat) (m : list Z) :
  (1000 <= length m)%nat -> 0 <= o -> o + Z.of_nat n <= 1000 ->
  holds o (load o n m) m.
Proof.
  intros Hm Ho H.
  assert (Hlen : length (load o n m) = n).
  { unfold load. rewrite length_take, length_drop. lia. }
  unfold holds. rewrite Hlen. auto.
Qed.

Lemma created_header_constants :
  let h := created_header dims pixdims garbage in
  holds (offsetof id_string) str_TRACK h /\
  holds (offsetof voxel_order) str_LPS h /\
  holds (offsetof pad2) str_LPS h /\
  (forall i, 0 <= i <= 2 ->
     holds (offsetof origin + 4 * i) (le_bytes 4 f32_zero) h) /\
  holds (offsetof n_scalars + 2 * 0) (le_bytes 2 0) h /\
  holds (offsetof n_properties + 2 * 0) (le_bytes 2 0) h /\
  (forall k, 0 <= k <= 5 ->
     holds (offsetof image_orientation_patient + 4 * k)
           (le_bytes 4 (if (k =? 0) || (k =? 4) then f32_one else f32_zero)) h) /\
  (forall k, 0 <= k <= 7 -> holds (offsetof pad1 + k) (le_bytes 1 0) h).
Proof.
  pose proof garbage_size as Hsize. cbv zeta.
  rewrite (created_header_unfold dims pixdims garbage garbage_size dims_ok
             pixdims_ok).
  unfold create_fields, set_chars, set_int32, set_int16, set_float, set_byte.
  eval_offsets.
  split; [find_store|]. split; [find_store|]. split; [find_store|].
  split.
  { intros i Hi. assert (Hi' : i = 0 \/ i = 1 \/ i = 2) by lia.
    destruct Hi' as [-> | [-> | ->]]; find_store. }
  split; [find_store|]. split; [find_store|].
  split.
  { intros k Hk.
    assert (Hk' : k = 0 \/ k = 1 \/ k = 2 \/ k = 3 \/ k = 4 \/ k = 5) by lia.
    destruct Hk' as [-> | [-> | [-> | [-> | [-> | ->]]]]];
      cbn [Z.eqb orb]; find_store. }
  intros k Hk.
  assert (Hk' : k = 0 \/ k = 1 \/ k = 2 \/ k = 3 \/ k = 4 \/ k = 5 \/ k = 6
                \/ k = 7) by lia.
  destruct Hk' as [-> | [-> | [-> | [-> | [-> | [-> | [-> | ->]]]]]]];
    find_store.
Qed.

(** The members that [create] never assigns keep the bytes they had. *)
Lemma created_header_leftovers :
  let h := created_header dims pixdims garbage in
  holds (offsetof scalar_name) (load (offsetof scalar_name) 200 garbage) h /\
  holds (offsetof property_name) (load (offsetof property_name) 200 garbage) h /\
  holds (offsetof reserved) (load (offsetof reserved) 508 garbage) h.
Proof.
  pose proof garbage_size as Hsize. cbv zeta.
  rewrite (created_header_unfold dims pixdims garbage garbage_size dims_ok
             pixdims_ok).
  unfold create_fields, set_chars, set_int32, set_int16, set_float, set_byte.
  eval_offsets.
  assert (L1 : length (load 38 200 garbage) = 200%nat)
    by (unfold load; rewrite length_take, length_drop; lia).
  assert (L2 : length (load 240 200 garbage) = 200%nat)
    by (unfold load; rewrite length_take, length_drop; lia).
  assert (L3 : length (load 440 508 garbage) = 508%nat)
    by (unfold load; rewrite length_take, length_drop; lia).
  split; [|split].
  - repeat (apply holds_store_other;
            [lia | bytes_length | rewrite L1; bytes_length | ]).
    apply holds_untouched; lia.
  - repeat (apply holds_store_other;
            [lia | bytes_length | rewrite L2; bytes_length | ]).
    apply holds_untouched; lia.
  - repeat (apply holds_store_other;
            [lia | bytes_length | rewrite L3; bytes_length | ]).
    apply holds_untouched; lia.
Qed.
End CreatedBytes.

(** X4.  On valid input [create] writes a file of exactly 1000 bytes that
    starts with "TRACK", has voxel order "LPS", origin 0, no scalars and no
    properties, the orientation [1,0,0,0,1,0] and zero pad and flag bytes.
    The members it never assigns ([scalar_name], [property_name],
    [reserved]) reach the file with whatever bytes the object held. *)
Theorem create_header_content (garbage : list Z) (dims pixdims : Z -> Z) :
  length garbage = 1000%nat ->
  (forall i, 0 <= i <= 2 -> 0 < dims i < 2 ^ 15) ->
  (forall i, 0 <= i <= 2 ->
     0 <= pixdims i < 2 ^ 32 /\ TrackVis.f32_le_zero (pixdims i) = false) ->
  exists h,
    TrackVis.fp (snd (TrackVis.create (TrackVis.new garbage) true dims pixdims))
    = Some (h, 1000) /\
    length h = 1000%nat /\
    TrackVis.load (TrackVis.offsetof TrackVis.id_string) 6 h
    = TrackVis.str_TRACK /\
    TrackVis.load (TrackVis.offsetof TrackVis.voxel_order) 4 h
    = TrackVis.str_LPS /\
    (forall i, 0 <= i <= 2 ->
       TrackVis.get_float TrackVis.origin i h = TrackVis.f32_zero) /\
    TrackVis.get_int16 TrackVis.n_scalars 0 h = 0 /\
    TrackVis.get_int16 TrackVis.n_properties 0 h = 0 /\
    (forall k, 0 <= k <= 5 ->
       TrackVis.get_float TrackVis.image_orientation_patient k h
       = if (k =? 0) || (k =? 4) then TrackVis.f32_one else TrackVis.f32_zero) /\
    (forall k, 0 <= k <= 7 ->
       TrackVis.load (TrackVis.offsetof TrackVis.pad1 + k) 1 h = [0]) /\
    TrackVis.load (TrackVis.offsetof TrackVis.scalar_name) 200 h
    = TrackVis.load (TrackVis.offsetof TrackVis.scalar_name) 200 garbage /\
    TrackVis.load (TrackVis.offsetof TrackVis.property_name) 200 h
    = TrackVis.load (TrackVis.offsetof TrackVis.property_name) 200 garbage /\
    TrackVis.load (TrackVis.offsetof TrackVis.reserved) 508 h
    = TrackVis.load (TrackVis.offsetof TrackVis.reserved) 508 garbage.
Proof.
  intros Hsize Hdims Hpix.
  rewrite (create_result dims pixdims garbage Hsize Hdims Hpix).
  exists (created_header dims pixdims garbage). cbn [snd TrackVis.fp].
  pose proof (created_header_size dims pixdims garbage Hsize Hdims Hpix) as Hlen.
  destruct (created_header_constants dims pixdims garbage Hsize Hdims Hpix)
    as (Hid & Hvo & _ & Horg & Hns & Hnp & Hiop & Hflags).
  destruct (created_header_leftovers dims pixdims garbage Hsize Hdims Hpix)
    as (Hsn & Hpn & Hres).
  split; [reflexivity|]. split; [exact Hlen|].
  split; [exact (holds_get _ 6 _ _ Hid eq_refl)|].
  split; [exact (holds_get _ 4 _ _ Hvo eq_refl)|].
  split.
  { intros i Hi. unfold TrackVis.get_float.
    rewrite (holds_get _ 4 _ _ (Horg i Hi) eq_refl). reflexivity. }
  split.
  { unfold TrackVis.get_int16. now rewrite (holds_get _ 2 _ _ Hns eq_refl). }
  split.
  { unfold TrackVis.get_int16. now rewrite (holds_get _ 2 _ _ Hnp eq_refl). }
  split.
  { intros k Hk. unfold TrackVis.get_float.
    rewrite (holds_get _ 4 _ _ (Hiop k Hk) (length_le_bytes 4 _)).
    destruct ((k =? 0) || (k =? 4)); reflexivity. }
  split.
  { intros k Hk. exact (holds_get _ 1 _ _ (Hflags k Hk) eq_refl). }
  assert (L : forall o n, 0 <= o -> o + Z.of_nat n <= 1000 ->
                length (TrackVis.load o n garbage) = n).
  { intros o n Ho H. unfold TrackVis.load.
    rewrite length_take, length_drop. lia. }
  split; [apply (holds_get _ 200 _ _ Hsn); apply L; vm_compute; discriminate|].
  split; [apply (holds_get _ 200 _ _ Hpn); apply L; vm_compute; discriminate|].
  apply (holds_get _ 508 _ _ Hres); apply L; vm_compute; discriminate.
Qed.

Lemma create_header_content_witness :
  exists h,
    TrackVis.fp (snd (TrackVis.create (TrackVis.new sample_garbage) true
                                      sample_dims sample_pixdims))
    = Some (h, 1000) /\
    length h = 1000%nat /\
    TrackVis.load (TrackVis.offsetof TrackVis.id_string) 6 h
    = TrackVis.str_TRACK /\
    TrackVis.load (TrackVis.offsetof TrackVis.voxel_order) 4 h
    = TrackVis.str_LPS /\
    (forall i, 0 <= i <= 2 ->
       TrackVis.get_float TrackVis.origin i h = TrackVis.f32_zero) /\
    TrackVis.get_int16 TrackVis.n_scalars 0 h = 0 /\
    TrackVis.get_int16 TrackVis.n_properties 0 h = 0 /\
    (forall k, 0 <= k <= 5 ->
       TrackVis.get_float TrackVis.image_orientation_patient k h
       = if (k =? 0) || (k =? 4) then TrackVis.f32_one else TrackVis.f32_zero) /\
    (forall k, 0 <= k <= 7 ->
       TrackVis.load (TrackVis.offsetof TrackVis.pad1 + k) 1 h = [0]) /\
    TrackVis.load (TrackVis.offsetof TrackVis.scalar_name) 200 h
    = TrackVis.load (TrackVis.offsetof TrackVis.scalar_name) 200 sample_garbage /\
    TrackVis.load (TrackVis.offsetof TrackVis.property_name) 200 h
    = TrackVis.load (TrackVis.offsetof TrackVis.property_name) 200 sample_garbage /\
    TrackVis.load (TrackVis.offsetof TrackVis.reserved) 508 h
    = TrackVis.load (TrackVis.offsetof TrackVis.reserved) 508 sample_garbage.
Proof.
  apply (create_header_content sample_garbage sample_dims sample_pixdims).
  - reflexivity.
  - intros i Hi. unfold sample_dims. lia.
  - intros i Hi. split; [|reflexivity].
    unfold sample_pixdims, TrackVis.f32_one. lia.
Defined.

(** ** TrackVis.h: what [updateTotal] and [writeHdr] touch *)

Lemma lookup_store_outside (o : Z) (bs m : list Z) (k : nat) :
  0 <= o -> (Z.to_nat o + length bs <= length m)%nat ->
  (k < Z.to_nat o \/ Z.to_nat o + length bs <= k)%nat ->
  TrackVis.store o bs m !! k = m !! k.
Proof.
  intros Ho Hin Hk. unfold TrackVis.store. destruct Hk as [Hk|Hk].
  - rewrite lookup_app_l by (rewrite length_take; lia).
    apply lookup_take_lt. lia.
  - rewrite lookup_app_r by (rewrite length_take; lia).
    rewrite length_take.
    rewrite lookup_app_r by lia.
    rewrite lookup_drop. f_equal. lia.
Qed.

(** X5.  On an open file of at least 992 bytes, [updateTotal] overwrites the
    four bytes 988..991 with the count and nothing else: the length and
    every other byte of the file are unchanged, and so is the header kept in
    memory.  A later [writeHdr] therefore puts the count of the in-memory
    header back into the file. *)
Theorem updateTotal_frame (tv : TrackVis.state) (content : list Z) (pos n : Z) :
  TrackVis.fp tv = Some (content, pos) ->
  (992 <= length content)%nat ->
  exists content',
    TrackVis.fp (TrackVis.updateTotal tv n) = Some (content', 992) /\
    length content' = length content /\
    TrackVis.load 988 4 content' = TrackVis.le_bytes 4 n /\
    (forall k, (k < 988 \/ 992 <= k)%nat -> content' !! k = content !! k) /\
    TrackVis.hdr (TrackVis.updateTotal tv n) = TrackVis.hdr tv /\
    (length (TrackVis.hdr tv) = 1000%nat -> (1000 <= length content)%nat ->
     TrackVis.fp (TrackVis.writeHdr (TrackVis.updateTotal tv n))
     = Some (TrackVis.hdr tv ++ drop 1000 content, 1000)).
Proof.
  intros Hfp Hlen. unfold TrackVis.updateTotal. rewrite Hfp.
  unfold TrackVis.fwrite, TrackVis.fseek. cbn [fst snd TrackVis.fp TrackVis.hdr].
  set (content' := TrackVis.store (1000 - 12) (TrackVis.le_bytes 4 n) content).
  assert (Hlen' : length content' = length content).
  { subst content'. apply length_store; [lia|]. rewrite length_le_bytes. lia. }
  exists content'. split.
  { rewrite length_le_bytes. reflexivity. }
  split; [exact Hlen'|]. split.
  { subst content'. unfold TrackVis.load, TrackVis.store.
    rewrite drop_app_length' by (rewrite length_take; lia).
    rewrite <- (length_le_bytes 4 n) at 1. apply take_app_length. }
  split.
  { intros k Hk. subst content'. apply lookup_store_outside.
    - lia.
    - rewrite length_le_bytes. lia.
    - rewrite length_le_bytes. lia. }
  split; [reflexivity|].
  intros Hh Hbig. unfold TrackVis.writeHdr.
  cbn [TrackVis.fp TrackVis.hdr TrackVis.maxSteps].
  unfold TrackVis.fwrite, TrackVis.fseek. cbn [fst snd].
  rewrite take_ge by lia. rewrite Hh. f_equal. f_equal.
  unfold TrackVis.store at 1. change (Z.to_nat 0) with 0%nat.
  rewrite Hh. cbn [take app Nat.add].
  apply (f_equal (fun t => TrackVis.hdr tv ++ t)).
  subst content'. unfold TrackVis.store.
  rewrite drop_app_ge by (rewrite length_take; lia).
  rewrite length_take.
  rewrite drop_app_ge by (rewrite length_le_bytes; lia).
  rewrite length_le_bytes, drop_drop. f_equal. lia.
Qed.

Lemma updateTotal_frame_witness :
  let tv := snd (TrackVis.create (TrackVis.new sample_garbage) true
                                 sample_dims sample_pixdims) in
  exists content content',
    TrackVis.fp tv = Some (content, 1000) /\
    TrackVis.fp (TrackVis.updateTotal tv 7) = Some (content', 992) /\
    length content' = length content /\
    TrackVis.load 988 4 content' = TrackVis.le_bytes 4 7 /\
    (forall k, (k < 988 \/ 992 <= k)%nat -> content' !! k = content !! k) /\
    TrackVis.hdr (TrackVis.updateTotal tv 7) = TrackVis.hdr tv /\
    (length (TrackVis.hdr tv) = 1000%nat -> (1000 <= length content)%nat ->
     TrackVis.fp (TrackVis.writeHdr (TrackVis.updateTotal tv 7))
     = Some (TrackVis.hdr tv ++ drop 1000 content, 1000)).
Proof.
  intros tv.
  assert (Hfp : TrackVis.fp tv = Some (TrackVis.hdr tv, 1000))
    by (vm_compute; reflexivity).
  assert (Hlen : (992 <= length (TrackVis.hdr tv))%nat)
    by (vm_compute; lia).
  destruct (updateTotal_frame tv (TrackVis.hdr tv) 1000 7 Hfp Hlen)
    as (content' & H).
  exists (TrackVis.hdr tv), content'. split; [exact Hfp | exact H].
Defined.

(** ** TrackVis.h: the three reduction policies of [append] *)

Lemma fold_push_point (fiber : list Vec3Df) (idx : list Z) (tmp : list Q) :
  fold_left (fun tmp i => TrackVis.push_point tmp (column fiber i)) idx tmp
  = tmp ++ flat_map (fun i => coords (column fiber i)) idx.
Proof.
  revert tmp. induction idx as [|i idx IH]; intros tmp; simpl.
  - now rewrite app_nil_r.
  - rewrite IH. unfold TrackVis.push_point, coords. now rewrite <- app_assoc.
Qed.

Lemma length_flat_map_coords {A} (f : A -> Vec3Df) (l : list A) :
  length (flat_map (fun a => coords (f a)) l) = (3 * length l)%nat.
Proof.
  induction l as [|a l IH]; [reflexivity|].
  simpl. rewrite IH. lia.
Qed.

Lemma points_of_flat_map {A} (f : A -> Vec3Df) (l : list A) :
  points_of (flat_map (fun a => coords (f a)) l) = map (fun a => stored (f a)) l.
Proof.
  induction l as [|a l IH]; [reflexivity|].
  simpl. now rewrite IH.
Qed.

Lemma Qceiling_half (i : Z) : Qceiling (inject_Z i / 2) = (i + 1) / 2.
Proof.
  unfold Qceiling, Qfloor, Qdiv, Qmult, Qinv, Qopp, inject_Z. simpl.
  rewrite Z.mul_1_r. Z.div_mod_to_equations. lia.
Qed.

(** The loop of the Half policy visits [i], [i-2], ... while positive. *)
Lemma half_indices_spec (fuel : nat) (i : Z) :
  i < Z.of_nat fuel ->
  length (TrackVis.half_indices fuel i) = Z.to_nat ((i + 1) / 2) /\
  forall j k, TrackVis.half_indices fuel i !! j = Some k ->
    k = i - 2 * Z.of_nat j /\ 0 < k.
Proof.
  revert i. induction fuel as [|fuel IH]; intros i Hi.
  - simpl. split.
    + assert ((i + 1) / 2 <= 0) by (Z.div_mod_to_equations; lia). lia.
    + intros j k. rewrite lookup_nil. discriminate.
  - cbn [TrackVis.half_indices]. destruct (0 <? i) eqn:E.
    + apply Z.ltb_lt in E. destruct (IH (i - 2) ltac:(lia)) as [Hlen Hidx].
      split.
      * cbn [length]. rewrite Hlen.
        replace (i + 1) with ((i - 2 + 1) + 1 * 2) by lia.
        rewrite Z.div_add by lia.
        assert (Hq : 0 <= (i - 2 + 1) / 2) by (apply Z.div_pos; lia).
        revert Hq. generalize ((i - 2 + 1) / 2). intros q Hq. lia.
      * intros [|j] k; simpl.
        -- intros [= <-]. lia.
        -- intros Hk. destruct (Hidx j k Hk). lia.
    + apply Z.ltb_ge in E. split.
      * simpl. assert ((i + 1) / 2 <= 0) by (Z.div_mod_to_equations; lia).
        lia.
      * intros j k. rewrite lookup_nil. discriminate.
Qed.

Lemma length_first_of_runs (l : list Vec3Df) (prev : option (Z * Z * Z)) :
  (length (first_of_runs prev l) <= length l)%nat.
Proof.
  revert prev. induction l as [|p l IH]; intros prev; simpl; [lia|].
  destruct (decide _); simpl.
  - specialize (IH prev). lia.
  - specialize (IH (Some (TrackVis.floor3 p))). lia.
Qed.

Lemma save_half_unfold (fiber : list Vec3Df) (numPoints : Z) :
  TrackVis.save_half fiber numPoints
  = (numPoints / 2 + 1,
     flat_map (fun i => coords (column fiber i))
       (TrackVis.half_indices (Z.to_nat numPoints) (numPoints - 1) ++ [0])).
Proof.
  unfold TrackVis.save_half. rewrite Qceiling_half, fold_push_point.
  replace (numPoints - 1 + 1) with numPoints by lia.
  f_equal. unfold TrackVis.push_point. cbn [app].
  rewrite flat_map_app. reflexivity.
Qed.

(** X6.  For a fiber of at least one point and each of the three policies,
    the count that [append] writes in front of the coordinates is the number
    of points in the buffer (three coordinates each), is at least 1 and is
    never more than the number of points of the fiber. *)
Theorem append_points_count (fiber : list Vec3Df) (numPoints saveMethod : Z) :
  1 <= numPoints ->
  let numSaved := fst (TrackVis.append_points fiber numPoints saveMethod) in
  let tmp := snd (TrackVis.append_points fiber numPoints saveMethod) in
  1 <= numSaved <= numPoints /\
  length tmp = (3 * Z.to_nat numSaved)%nat /\
  length (points_of tmp) = Z.to_nat numSaved.
Proof.
  intros Hn. cbv zeta. unfold TrackVis.append_points.
  destruct (saveMethod =? TrackVis.TRACKVIS_SAVE_HALF).
  { rewrite save_half_unfold. cbn [fst snd].
    destruct (half_indices_spec (Z.to_nat numPoints) (numPoints - 1) ltac:(lia))
      as [Hlen _].
    replace (numPoints - 1 + 1) with numPoints in Hlen by lia.
    assert (Hq : 0 <= numPoints / 2 <= numPoints - 1)
      by (Z.div_mod_to_equations; lia).
    rewrite points_of_flat_map, length_map, length_flat_map_coords.
    rewrite length_app, Hlen. cbn [length].
    revert Hq. generalize (numPoints / 2). intros q Hq. lia. }
  destruct (saveMethod =? TrackVis.TRACKVIS_SAVE_UNIQUE).
  { unfold TrackVis.save_unique. cbn [fst snd].
    rewrite fold_left_unique_iter.
    set (pts := map (column fiber) (seqZ 0 numPoints)).
    destruct (unique_fold pts (TrackVis.mk_unique [] (0, 0, 0) 0)) as [-> ->].
    cbn [last_voxel TrackVis.u_tmp TrackVis.u_numSaved length Nat.eqb app].
    assert (Hpts : length pts = Z.to_nat numPoints)
      by (subst pts; rewrite length_map, length_seqZ; reflexivity).
    pose proof (length_first_of_runs pts None) as Hle.
    assert (Hpos : (1 <= length (first_of_runs None pts))%nat).
    { destruct pts as [|p pts']; [simpl in Hpts; lia|].
      cbn [first_of_runs]. rewrite decide_False by discriminate.
      simpl. lia. }
    rewrite points_of_flat_map, length_map, length_flat_map_coords.
    revert Hle Hpos. generalize (length (first_of_runs None pts)).
    intros k Hle Hpos. lia. }
  unfold TrackVis.save_all. cbn [fst snd].
  rewrite fold_push_point. cbn [app].
  rewrite points_of_flat_map, length_map, length_flat_map_coords, length_seqZ.
  lia.
Qed.

Lemma append_points_count_witness :
  let fiber := [mkVec3Df (1 # 2) 0 0; mkVec3Df (3 # 4) 0 0; mkVec3Df (3 # 2) 0 0] in
  let numSaved := fst (TrackVis.append_points fiber 3 TrackVis.TRACKVIS_SAVE_UNIQUE) in
  let tmp := snd (TrackVis.append_points fiber 3 TrackVis.TRACKVIS_SAVE_UNIQUE) in
  1 <= numSaved <= 3 /\
  length tmp = (3 * Z.to_nat numSaved)%nat /\
  length (points_of tmp) = Z.to_nat numSaved.
Proof.
  intros fiber.
  apply (append_points_count fiber 3 TrackVis.TRACKVIS_SAVE_UNIQUE). lia.
Defined.

(** X7.  What the other two policies keep.  [TRACKVIS_SAVE_ALL] (any method
    other than Half and Unique) stores every point of the fiber in order.
    [TRACKVIS_SAVE_HALF] stores, for a fiber of [n >= 1] points, the points
    [n-1], [n-3], ... as long as the index is positive, and then point 0: the
    first stored point is the last point of the fiber and the last stored
    point is its first one, so both end points are always kept. *)
Theorem save_all_half_points (fiber : list Vec3Df) (numPoints : Z) :
  (forall saveMethod,
     saveMethod <> TrackVis.TRACKVIS_SAVE_HALF ->
     saveMethod <> TrackVis.TRACKVIS_SAVE_UNIQUE ->
     TrackVis.append_points fiber numPoints saveMethod
     = TrackVis.save_all fiber numPoints /\
     fst (TrackVis.save_all fiber numPoints) = numPoints /\
     points_of (snd (TrackVis.save_all fiber numPoints))
     = map (fun i => stored (column fiber i)) (seqZ 0 numPoints)) /\
  (1 <= numPoints ->
   let written :=
     points_of (snd (TrackVis.append_points fiber numPoints
                                            TrackVis.TRACKVIS_SAVE_HALF)) in
   exists idx,
     written = map (fun i => stored (column fiber i)) (idx ++ [0]) /\
     Z.of_nat (length idx) = numPoints / 2 /\
     (forall j k, idx !! j = Some k ->
        k = numPoints - 1 - 2 * Z.of_nat j /\ 0 < k) /\
     head written = Some (stored (column fiber (numPoints - 1))) /\
     last written = Some (stored (column fiber 0))).
Proof.
  split.
  - intros saveMethod H1 H2. unfold TrackVis.append_points.
    apply Z.eqb_neq in H1, H2. rewrite H1, H2.
    split; [reflexivity|]. split; [reflexivity|].
    unfold TrackVis.save_all. cbn [snd].
    rewrite fold_push_point. cbn [app]. apply points_of_flat_map.
  - intros Hn. cbv zeta. unfold TrackVis.append_points.
    rewrite Z.eqb_refl, save_half_unfold. cbn [snd].
    set (idx := TrackVis.half_indices (Z.to_nat numPoints) (numPoints - 1)).
    destruct (half_indices_spec (Z.to_nat numPoints) (numPoints - 1) ltac:(lia))
      as [Hlen Hidx]. fold idx in Hlen, Hidx.
    replace (numPoints - 1 + 1) with numPoints in Hlen by lia.
    assert (Hq : 0 <= numPoints / 2) by (Z.div_mod_to_equations; lia).
    exists idx. rewrite points_of_flat_map.
    split; [reflexivity|]. split; [lia|]. split; [exact Hidx|]. split.
    + destruct idx as [|k idx'] eqn:E.
      * simpl in Hlen.
        assert (numPoints = 1) by (Z.div_mod_to_equations; lia). subst.
        reflexivity.
      * destruct (Hidx 0%nat k eq_refl) as [-> _]. simpl.
        do 3 f_equal. lia.
    + rewrite map_app. simpl. apply last_snoc.
Qed.

Lemma save_all_half_points_witness :
  let fiber := [mkVec3Df 0 0 0; mkVec3Df 1 0 0; mkVec3Df 2 0 0; mkVec3Df 3 0 0] in
  let written :=
    points_of (snd (TrackVis.append_points fiber 4 TrackVis.TRACKVIS_SAVE_HALF)) in
  exists idx,
    written = map (fun i => stored (column fiber i)) (idx ++ [0]) /\
    Z.of_nat (length idx) = 4 / 2 /\
    (forall j k, idx !! j = Some k -> k = 4 - 1 - 2 * Z.of_nat j /\ 0 < k) /\
    head written = Some (stored (column fiber (4 - 1))) /\
    last written = Some (stored (column fiber 0)).
Proof.
  intros fiber.
  apply (save_all_half_points fiber 4). lia.
Defined.

(** ** TrackVis.h: [append] on the file *)

(** X8.  On a file positioned at its end, [append] returns 0 in both of its
    cases and never touches the bytes already written or the header kept in
    memory.  A fiber longer than [maxSteps] is refused: the object is
    unchanged.  Otherwise the file grows by the 4 bytes of the count and 4
    bytes for every coordinate in the buffer. *)
Theorem append_extends_file (f32_bits : Q -> Z) (tv : TrackVis.state)
    (content : list Z) (fiber : list Vec3Df) (numPoints saveMethod : Z) :
  TrackVis.fp tv = Some (content, Z.of_nat (length content)) ->
  let r := TrackVis.append f32_bits tv fiber numPoints saveMethod in
  let numSaved := fst (TrackVis.append_points fiber numPoints saveMethod) in
  let tmp := snd (TrackVis.append_points fiber numPoints saveMethod) in
  fst r = 0 /\
  TrackVis.hdr (snd r) = TrackVis.hdr tv /\
  (TrackVis.maxSteps tv < numPoints -> snd r = tv) /\
  (numPoints <= TrackVis.maxSteps tv ->
   exists payload,
     TrackVis.fp (snd r)
     = Some (content ++ TrackVis.le_bytes 4 numSaved ++ payload,
             Z.of_nat (length content) + 4 + Z.of_nat (length payload)) /\
     length payload = (4 * length tmp)%nat /\
     payload = flat_map (fun x => TrackVis.le_bytes 4 (f32_bits x)) tmp).
Proof.
  intros Hfp. cbv zeta. unfold TrackVis.append.
  destruct (TrackVis.maxSteps tv <? numPoints) eqn:E.
  - apply Z.ltb_lt in E. cbn [fst snd].
    repeat split; auto. intros H. lia.
  - apply Z.ltb_ge in E.
    destruct (TrackVis.append_points fiber numPoints saveMethod)
      as [numSaved tmp].
    rewrite Hfp. cbn [fst snd TrackVis.hdr TrackVis.fp].
    split; [reflexivity|]. split; [reflexivity|]. split; [intros H; lia|].
    intros _. eexists. split; [|split; [|reflexivity]].
    + rewrite !fwrite_at_end, <- app_assoc. f_equal. f_equal.
      rewrite !length_app, length_le_bytes. lia.
    + induction tmp as [|x tmp IH]; [reflexivity|].
      cbn [flat_map]. rewrite length_app, length_le_bytes, IH. simpl. lia.
Qed.

Lemma append_extends_file_witness :
  let tv := snd (TrackVis.create (TrackVis.new sample_garbage) true
                                 sample_dims sample_pixdims) in
  let fiber := [mkVec3Df (1 # 2) 0 0; mkVec3Df (3 # 2) 0 0] in
  let r := TrackVis.append sample_f32_bits tv fiber 2
                           TrackVis.TRACKVIS_SAVE_UNIQUE in
  let numSaved :=
    fst (TrackVis.append_points fiber 2 TrackVis.TRACKVIS_SAVE_UNIQUE) in
  let tmp :=
    snd (TrackVis.append_points fiber 2 TrackVis.TRACKVIS_SAVE_UNIQUE) in
  fst r = 0 /\
  TrackVis.hdr (snd r) = TrackVis.hdr tv /\
  (TrackVis.maxSteps tv < 2 -> snd r = tv) /\
  (2 <= TrackVis.maxSteps tv ->
   exists payload,
     TrackVis.fp (snd r)
     = Some (TrackVis.hdr tv ++ TrackVis.le_bytes 4 numSaved ++ payload,
             Z.of_nat (length (TrackVis.hdr tv)) + 4
             + Z.of_nat (length payload)) /\
     length payload = (4 * length tmp)%nat /\
     payload = flat_map (fun x => TrackVis.le_bytes 4 (sample_f32_bits x)) tmp).
Proof.
  intros tv fiber.
  apply (append_extends_file sample_f32_bits tv (TrackVis.hdr tv) fiber 2
           TrackVis.TRACKVIS_SAVE_UNIQUE).
  vm_compute. reflexivity.
Defined.

(** ** streamline.h: the arrays of [setConfig] are large enough *)

(** X9.  After [setConfig], whatever the configuration, [trackFromXYZ]
    returns at every voxel; it returns at most [3 * seeds] fibers, which fit
    in the arrays ([FIBERs] and [LENGTHs] keep their [seeds*3] entries), and
    every returned step count is at most [max(2, maxLength)], so that with
    [maxLength <= 2000] none of them exceeds the [maxSteps] of a .trk
    writer. *)
Theorem setConfig_then_trackFromXYZ (sqrtf cosf : Q -> Q) (uniform : nat -> Q)
    (s : streamline) (c : tracking_config) (st0 : track_state) (x y z : Z) :
  let s' := fst (setConfig cosf s c st0) in
  let st := snd (setConfig cosf s c st0) in
  exists st',
    trackFromXYZ sqrtf uniform s' x y z st = Some st' /\
    (found st' <= 3 * Z.to_nat (seeds c))%nat /\
    (found st' <= length (FIBERs st'))%nat /\
    length (FIBERs st') = Z.to_nat (seeds c * 3) /\
    length (LENGTHs st') = Z.to_nat (seeds c * 3) /\
    forall i, (i < found st')%nat ->
      exists len, LENGTHs st' !! i = Some len /\
        2 <= len <= Z.max 2 (maxLength c) /\
        (maxLength c <= 2000 ->
         forall garbage, len <= TrackVis.maxSteps (TrackVis.new garbage)).
Proof.
  cbv zeta. unfold setConfig. cbn [fst snd].
  set (s' := mk_streamline _ c _ _ _).
  set (st := mk_track _ _ _ _).
  destruct (trackFromXYZ_spec sqrtf uniform s' x y z st)
    as (st' & Hrun & Hall & Hfound & HF & HL).
  { subst s' st. cbn [CONFIG FIBERs]. rewrite length_replicate. lia. }
  { subst s' st. cbn [CONFIG LENGTHs]. rewrite length_replicate. lia. }
  exists st'. subst s' st. cbn [CONFIG FIBERs LENGTHs] in *.
  rewrite length_replicate in HF. rewrite length_replicate in HL.
  split; [exact Hrun|]. split; [exact Hfound|]. split; [lia|].
  split; [exact HF|]. split; [exact HL|].
  intros i Hi. destruct (Hall i Hi) as (f & len & _ & Hlen & _ & Hge & Hle & _).
  cbn [CONFIG] in Hle.
  exists len. split; [exact Hlen|]. split; [lia|].
  intros Hmax garbage. cbn [TrackVis.new TrackVis.maxSteps]. lia.
Qed.

(** ** streamline.h: the voxels that [doTracking] visits *)

Lemma length_bind_const {A B} (f : A -> list B) (n : nat) (l : list A) :
  (forall a, length (f a) = n) -> length (l ≫= f) = (length l * n)%nat.
Proof.
  intros Hf. induction l as [|a l IH]; [reflexivity|].
  rewrite bind_cons, length_app, Hf, IH. simpl. lia.
Qed.

(** X10.  The three nested loops of [doTracking] visit every voxel of the
    grid of DIR exactly once, and no other; each visited voxel passes the
    bounds test at the head of [trackFromXYZ]. *)
Theorem raster_visits_each_voxel_once (d1 d2 d3 : Z) :
  (forall x y z,
     (x, y, z) ∈ raster d1 d2 d3 <->
     0 <= x < d1 /\ 0 <= y < d2 /\ 0 <= z < d3) /\
  NoDup (raster d1 d2 d3) /\
  length (raster d1 d2 d3) = (Z.to_nat d3 * (Z.to_nat d2 * Z.to_nat d1))%nat /\
  (forall x y z, (x, y, z) ∈ raster d1 d2 d3 ->
     (x <? 0) || (d1 - 1 <? x) || (y <? 0) || (d2 - 1 <? y) ||
     (z <? 0) || (d3 - 1 <? z) = false).
Proof.
  assert (Hin : forall x y z,
            (x, y, z) ∈ raster d1 d2 d3 <->
            0 <= x < d1 /\ 0 <= y < d2 /\ 0 <= z < d3).
  { intros x y z. unfold raster. rewrite list_elem_of_bind. split.
    - intros (z' & Hy & Hz). apply list_elem_of_bind in Hy as (y' & Hx & Hy).
      apply list_elem_of_bind in Hx as (x' & Hv & Hx).
      apply list_elem_of_singleton in Hv. injection Hv as -> -> ->.
      apply elem_of_seqZ in Hx, Hy, Hz. lia.
    - intros (Hx & Hy & Hz). exists z. split; [|apply elem_of_seqZ; lia].
      apply list_elem_of_bind. exists y. split; [|apply elem_of_seqZ; lia].
      apply list_elem_of_bind. exists x. split; [|apply elem_of_seqZ; lia].
      now apply list_elem_of_singleton. }
  split; [exact Hin|]. split; [|split].
  - unfold raster. apply NoDup_bind; [| |apply NoDup_seqZ].
    + intros z1 z2 [[x y] z] _ _ H1 H2.
      apply list_elem_of_bind in H1 as (y1 & H1 & _).
      apply list_elem_of_bind in H1 as (x1 & H1 & _).
      apply list_elem_of_bind in H2 as (y2 & H2 & _).
      apply list_elem_of_bind in H2 as (x2 & H2 & _).
      apply list_elem_of_singleton in H1, H2. congruence.
    + intros z _. apply NoDup_bind; [| |apply NoDup_seqZ].
      * intros y1 y2 [[x y] z'] _ _ H1 H2.
        apply list_elem_of_bind in H1 as (x1 & H1 & _).
        apply list_elem_of_bind in H2 as (x2 & H2 & _).
        apply list_elem_of_singleton in H1, H2. congruence.
      * intros y _. apply NoDup_bind; [| |apply NoDup_seqZ].
        -- intros x1 x2 v _ _ H1 H2.
           apply list_elem_of_singleton in H1, H2. congruence.
        -- intros x _. apply NoDup_singleton.
  - unfold raster.
    rewrite (length_bind_const _ (Z.to_nat d2 * Z.to_nat d1)), length_seqZ;
      [reflexivity|].
    intros z. rewrite (length_bind_const _ (Z.to_nat d1)), length_seqZ;
      [reflexivity|].
    intros y. rewrite (length_bind_const _ 1), length_seqZ; [lia|].
    reflexivity.
  - intros x y z Hv. apply Hin in Hv as (Hx & Hy & Hz).
    repeat (apply orb_false_intro); apply Z.ltb_ge; lia.
Qed.

(** ** streamline.h: the shape of a fiber *)

Section Adjacent.
Context {A : Type} (R : A -> A -> Prop).

Lemma adjacent_app (l1 : list A) (a b : A) (l2 : list A) :
  adjacent R (l1 ++ [a]) -> R a b -> adjacent R (b :: l2) ->
  adjacent R (l1 ++ a :: b :: l2).
Proof.
  induction l1 as [|x l1 IH]; intros H1 Hab H2.
  - simpl. split; assumption.
  - destruct l1 as [|y l1].
    + simpl in *. destruct H1 as [Hxa _]. repeat split; assumption.
    + change (adjacent R (x :: y :: (l1 ++ a :: b :: l2))).
      change (adjacent R (x :: y :: (l1 ++ [a]))) in H1.
      destruct H1 as [Hxy H1]. split; [exact Hxy|].
      apply (IH H1 Hab H2).
Qed.

Lemma adjacent_snoc (l : list A) (a b : A) :
  adjacent R (l ++ [a]) -> R a b -> adjacent R ((l ++ [a]) ++ [b]).
Proof.
  intros H Hab. rewrite <- app_assoc. simpl.
  apply adjacent_app; [exact H | exact Hab | exact I].
Qed.

End Adjacent.

Lemma column_last_two (pre : list Vec3Df) (a b : Vec3Df) :
  let l := pre ++ [a; b] in
  column l (Z.of_nat (length l) - 1) = b /\
  column l (Z.of_nat (length l) - 2) = a.
Proof.
  cbv zeta. unfold column. rewrite length_app. cbn [length]. split.
  - replace (Z.to_nat (Z.of_nat (length pre + 2) - 1))
      with (length pre + 1)%nat by lia.
    rewrite lookup_app_r by lia.
    replace (length pre + 1 - length pre)%nat with 1%nat by lia. reflexivity.
  - replace (Z.to_nat (Z.of_nat (length pre + 2) - 2))
      with (length pre + 0)%nat by lia.
    rewrite lookup_app_r by lia.
    replace (length pre + 0 - length pre)%nat with 0%nat by lia. reflexivity.
Qed.

Section Trail.
Variable sqrtf : Q -> Q.
Variable s : streamline.

Lemma while_body_None (g : growth) :
  while_body s g = None <-> stops s (COORD g) (dir g).
Proof.
  unfold while_body, stops.
  destruct (outside_WM s (COORD g)); [split; [now left | reflexivity]|].
  destruct (pickBestDir s (voxel_of (niiDIR s) (COORD g)) (dir g)) as [b d].
  destruct b; cbn [negb fst]; split.
  - discriminate.
  - intros [H | H]; discriminate.
  - now right.
  - reflexivity.
Qed.

Lemma while_body_trailing (front tr : list Vec3Df) (g g' : growth) :
  trailing s front tr g -> while_body s g = Some g' ->
  trailing s front (tr ++ [COORD g']) g'.
Proof.
  intros (Hcons & Hf & Hadj & Hlast). unfold while_body.
  destruct (outside_WM s (COORD g)) eqn:Hwm; [discriminate|].
  destruct (pickBestDir s (voxel_of (niiDIR s) (COORD g)) (dir g))
    as [b d] eqn:Hpick.
  destruct b; cbn [negb]; [|discriminate].
  intros [= <-]. unfold trailing, consistent in *. cbn [fiber step COORD].
  destruct (pickBestDir_gate s _ _ _ Hpick) as (j & Hj & Hvf & Hd).
  split; [rewrite length_app; simpl; lia|].
  split; [rewrite Hf, app_assoc; reflexivity|].
  split; [|apply last_snoc].
  apply last_Some in Hlast as (l & ->).
  apply adjacent_snoc; [exact Hadj|].
  split; [exact Hwm|]. exists j. split; [exact Hj|]. split; [exact Hvf|].
  destruct Hd as [-> | ->]; [now left | now right].
Qed.

Lemma while_loop_trailing (fuel : nat) (front tr : list Vec3Df)
    (g g' : growth) :
  trailing s front tr g -> while_loop s fuel g = Some g' ->
  exists ext, trailing s front (tr ++ ext) g' /\
    (while_body s g = None -> ext = []).
Proof.
  revert tr g. induction fuel as [|fuel IH]; intros tr g Hg; simpl.
  - destruct (step g <? maxLength (CONFIG s)); [discriminate|].
    intros [= <-]. exists []. rewrite app_nil_r. now split.
  - destruct (step g <? maxLength (CONFIG s)).
    2:{ intros [= <-]. exists []. rewrite app_nil_r. now split. }
    destruct (while_body s g) as [g1|] eqn:Hbody.
    2:{ intros [= <-]. exists []. rewrite app_nil_r. now split. }
    intros Hrun.
    destruct (IH _ _ (while_body_trailing front tr g g1 Hg Hbody) Hrun)
      as (ext & Hext & _).
    exists (COORD g1 :: ext). split; [|discriminate].
    rewrite <- app_assoc in Hext. exact Hext.
Qed.

(** The forward pass and the reversal, from the seed point and the first
    advance [c]. *)
Lemma semi_step_forward (seed c d : Vec3Df) (g1 : growth) :
  semi_step_body sqrtf s (mk_growth c d [seed; c] 2) 0 = Some g1 ->
  exists P,
    trailing s (rev (c :: P)) [seed] g1 /\
    adjacent (walk s) (c :: P) /\
    (stops s c (Normalize sqrtf (Vsub c seed)) -> P = []).
Proof.
  unfold semi_step_body. cbn [COORD fiber step].
  change (column [seed; c] (2 - 1)) with c.
  change (column [seed; c] (2 - 2)) with seed.
  set (g0 := mk_growth c (Normalize sqrtf (Vsub c seed)) [seed; c] 2).
  destruct (while_loop s _ g0) as [g|] eqn:Hrun; cbn [mbind option_bind];
    [|discriminate].
  intros [= <-]. cbn [Z.eqb].
  assert (H0 : trailing s [seed] [c] g0).
  { subst g0. split; [reflexivity|]. split; [reflexivity|].
    split; [exact I | reflexivity]. }
  destruct (while_loop_trailing _ _ _ _ _ H0 Hrun)
    as (P & (Hcons & Hf & Hadj & Hlast) & Hstop).
  exists P. split; [|split].
  - unfold trailing, consistent, reverse_part in *. cbn [fiber step COORD].
    assert (Hn : Z.to_nat (step g) = length (fiber g)) by lia.
    rewrite Hn, take_ge, drop_ge, app_nil_r by lia.
    split; [rewrite length_rev; exact Hcons|].
    rewrite Hf. split; [reflexivity|]. split; [exact I|]. reflexivity.
  - exact Hadj.
  - intros Hs. apply Hstop. apply while_body_None. exact Hs.
Qed.

(** The backward pass, from the seed point again. *)
Lemma semi_step_backward (seed c : Vec3Df) (P : list Vec3Df)
    (g1 g2 : growth) :
  trailing s (rev (c :: P)) [seed] g1 ->
  semi_step_body sqrtf s g1 1 = Some g2 ->
  exists Qs,
    fiber g2 = rev (c :: P) ++ seed :: Qs /\ consistent g2 /\
    adjacent (walk s) (seed :: Qs) /\
    (stops s seed (Normalize sqrtf (Vsub seed c)) -> Qs = []).
Proof.
  intros (Hcons & Hf & _ & Hlast). injection Hlast as Hcoord.
  unfold semi_step_body.
  assert (Hcols : column (fiber g1) (step g1 - 1) = seed /\
                  column (fiber g1) (step g1 - 2) = c).
  { unfold consistent in Hcons. rewrite <- Hcons, Hf.
    cbn [rev]. rewrite <- app_assoc. cbn [app].
    apply column_last_two. }
  destruct Hcols as [-> ->]. rewrite <- Hcoord.
  set (g0 := mk_growth seed (Normalize sqrtf (Vsub seed c)) (fiber g1)
                       (step g1)).
  destruct (while_loop s _ g0) as [g|] eqn:Hrun; cbn [mbind option_bind];
    [|discriminate].
  intros [= <-]. cbn [Z.eqb].
  assert (H0 : trailing s (rev (c :: P)) [seed] g0).
  { subst g0. split; [exact Hcons|]. split; [exact Hf|].
    split; [exact I | reflexivity]. }
  destruct (while_loop_trailing _ _ _ _ _ H0 Hrun)
    as (Qs & (Hcons' & Hf' & Hadj & _) & Hstop).
  exists Qs. split; [exact Hf'|]. split; [exact Hcons'|].
  split; [exact Hadj|].
  intros Hs. apply Hstop. apply while_body_None. exact Hs.
Qed.

(** When the gate of a seed direction is open, a fiber is recorded at the
    index [found], which then grows by one. *)
Lemma seedDir_body_grows (x y z : Z) (seed : Vec3Df) (st : track_state)
    (seedDir : Z) :
  0 <= seedDir <= 2 ->
  (volFracThr (CONFIG s) < DIR_at s (mkVec3Di x y z) (seedDir*4))%Q ->
  exists f P Qs,
    seedDir_body sqrtf s x y z seed st seedDir
    = Some (mk_track (<[found st := f]> (FIBERs st))
                     (<[found st := Z.of_nat (length f)]> (LENGTHs st))
                     (S (found st)) (drawn st)) /\
    grown_from s (mkVec3Di x y z) seed seedDir P Qs f /\
    Z.of_nat (length f) <= Z.max 2 (maxLength (CONFIG s)) /\
    let c := first_advance s (mkVec3Di x y z) seed seedDir in
    (stops s c (Normalize sqrtf (Vsub c seed)) -> P = []) /\
    (stops s seed (Normalize sqrtf (Vsub seed c)) -> Qs = []).
Proof.
  intros Hdir Hvf. unfold seedDir_body.
  pose proof Hvf as Hgate. apply Qle_bool_gt in Hgate.
  unfold DIR_at in Hgate. cbn [ix iy iz] in Hgate. rewrite Hgate.
  set (d := mkVec3Df _ _ _).
  set (c := Vstep seed (stepSize (CONFIG s)) d).
  destruct (semi_step_body_spec sqrtf s (mk_growth c d [seed; c] 2) 0
              ltac:(simpl; lia))
    as (g1 & E1 & _ & Hmax1 & _ & _).
  rewrite E1. cbn [mbind option_bind].
  destruct (semi_step_forward seed c d g1 E1) as (P & Htr & Hadj1 & Hstop1).
  destruct (semi_step_body_spec sqrtf s g1 1) as (g2 & E2 & _ & Hmax2 & _ & _).
  { destruct Htr as (Hcons & _). unfold consistent in Hcons. lia. }
  rewrite E2. cbn [mbind option_bind].
  destruct (semi_step_backward seed c P g1 g2 Htr E2)
    as (Qs & Hf & Hcons & Hadj2 & Hstop2).
  unfold consistent in Hcons.
  exists (fiber g2), P, Qs. rewrite Hcons.
  split; [reflexivity|]. split; [|split].
  - split; [exact Hf|]. split; assumption.
  - cbn [step] in Hmax1. lia.
  - cbv zeta. split; assumption.
Qed.
End Trail.

Section GrownFibers.
Variable sqrtf : Q -> Q.
Variable uniform : nat -> Q.
Variable s : streamline.
Variables x y z : Z.

Lemma seedDir_body_grown (lo k : nat) (st st' : track_state) (seedDir : Z) :
  0 <= seedDir <= 2 ->
  (lo + 3 * k + 3 <= drawn st)%nat ->
  inside s (new_seed uniform s x y z (lo + 3 * k)) ->
  grown uniform s x y z lo st ->
  (found st < length (FIBERs st))%nat ->
  (found st < length (LENGTHs st))%nat ->
  seedDir_body sqrtf s x y z (new_seed uniform s x y z (lo + 3 * k)) st seedDir
  = Some st' ->
  grown uniform s x y z lo st' /\ drawn st' = drawn st /\
  length (FIBERs st') = length (FIBERs st) /\
  length (LENGTHs st') = length (LENGTHs st) /\
  (found st' <= found st + 1)%nat.
Proof.
  intros Hdir Hk Hin Hgrown HF HL.
  destruct (Qle_bool (DIR_at s (mkVec3Di x y z) (seedDir*4))
                     (volFracThr (CONFIG s))) eqn:Hvf.
  { apply Qle_bool_iff in Hvf.
    rewrite seedDir_body_gate by exact Hvf.
    intros [= <-]. repeat split; auto; lia. }
  apply Qle_bool_gt in Hvf.
  destruct (seedDir_body_grows sqrtf s x y z
              (new_seed uniform s x y z (lo + 3 * k)) st seedDir Hdir Hvf)
    as (f & P & Qs & -> & Hshape & Hlen & _).
  intros [= <-]. cbn [FIBERs LENGTHs found drawn].
  rewrite !length_insert. split; [|repeat split; lia].
  intros i Hi. cbn [FIBERs LENGTHs found drawn] in *.
  destruct (decide (i = found st)) as [->|Hne].
  - exists f, k, seedDir, P, Qs.
    rewrite !list_lookup_insert_eq by lia.
    split; [reflexivity|]. split; [reflexivity|]. split; [exact Hk|].
    split; [exact Hin|]. split; [exact Hdir|]. split; [exact Hvf|].
    split; [exact Hshape | exact Hlen].
  - rewrite !list_lookup_insert_ne by lia. apply Hgrown. lia.
Qed.

Lemma seedNum_loop_grown (lo m n : nat) (st st' : track_state) :
  drawn st = (lo + 3 * m)%nat ->
  grown uniform s x y z lo st ->
  (found st + 3 * n <= length (FIBERs st))%nat ->
  (found st + 3 * n <= length (LENGTHs st))%nat ->
  seedNum_loop sqrtf uniform s x y z n st = Some st' ->
  grown uniform s x y z lo st' /\
  (drawn st' <= lo + 3 * (m + n))%nat.
Proof.
  revert m st. induction n as [|n IH]; intros m st Hdrawn Hgrown HF HL;
    cbn [seedNum_loop].
  - intros [= <-]. split; [exact Hgrown | lia].
  - set (st0 := mk_track _ _ _ _).
    assert (H0 : grown uniform s x y z lo st0).
    { intros i Hi.
      destruct (Hgrown i Hi) as (f & k & j & P & Qs & Hf & Hl & Hk & H).
      exists f, k, j, P, Qs. split; [exact Hf|]. split; [exact Hl|].
      split; [|exact H]. subst st0. cbn [drawn]. lia. }
    rewrite Hdrawn.
    destruct (outside_WM s (new_seed uniform s x y z (lo + 3 * m))) eqn:Hin.
    { intros [= <-]. split; [exact H0|]. subst st0. cbn [drawn]. lia. }
    assert (Hk : (lo + 3 * m + 3 <= drawn st0)%nat)
      by (subst st0; cbn [drawn]; lia).
    destruct (seedDir_body sqrtf s x y z _ st0 0) as [st1|] eqn:E1;
      cbn [mbind option_bind]; [|discriminate].
    destruct (seedDir_body_grown lo m st0 st1 0 ltac:(lia) Hk Hin H0)
      as (H1 & D1 & L1 & M1 & F1);
      [subst st0; simpl; lia | subst st0; simpl; lia | exact E1 |].
    destruct (seedDir_body sqrtf s x y z _ st1 1) as [st2|] eqn:E2;
      cbn [mbind option_bind]; [|discriminate].
    destruct (seedDir_body_grown lo m st1 st2 1 ltac:(lia)
                ltac:(lia) Hin H1)
      as (H2 & D2 & L2 & M2 & F2);
      [subst st0; simpl in *; lia | subst st0; simpl in *; lia | exact E2 |].
    destruct (seedDir_body sqrtf s x y z _ st2 2) as [st3|] eqn:E3;
      cbn [mbind option_bind]; [|discriminate].
    destruct (seedDir_body_grown lo m st2 st3 2 ltac:(lia)
                ltac:(lia) Hin H2)
      as (H3 & D3 & L3 & M3 & F3);
      [subst st0; simpl in *; lia | subst st0; simpl in *; lia | exact E3 |].
    intros Hrun.
    destruct (IH (S m) st3) as [Hs Hd];
      [subst st0; simpl in *; lia | exact H3 | subst st0; simpl in *; lia
      | subst st0; simpl in *; lia | exact Hrun |].
    split; [exact Hs | lia].
Qed.

(** Every fiber that [trackFromXYZ] counts is grown from a seed point it
    drew for the voxel. *)
Lemma trackFromXYZ_grown (st : track_state) :
  (3 * Z.to_nat (seeds (CONFIG s)) <= length (FIBERs st))%nat ->
  (3 * Z.to_nat (seeds (CONFIG s)) <= length (LENGTHs st))%nat ->
  exists st', trackFromXYZ sqrtf uniform s x y z st = Some st' /\
    forall i, (i < found st')%nat ->
      exists f k j P Qs,
        FIBERs st' !! i = Some f /\
        LENGTHs st' !! i = Some (Z.of_nat (length f)) /\
        (k < Z.to_nat (seeds (CONFIG s)))%nat /\
        inside s (new_seed uniform s x y z (drawn st + 3 * k)) /\
        0 <= j <= 2 /\
        (volFracThr (CONFIG s) < DIR_at s (mkVec3Di x y z) (j*4))%Q /\
        grown_from s (mkVec3Di x y z)
                   (new_seed uniform s x y z (drawn st + 3 * k)) j P Qs f /\
        Z.of_nat (length f) <= Z.max 2 (maxLength (CONFIG s)).
Proof.
  intros HF HL.
  destruct (trackFromXYZ_spec sqrtf uniform s x y z st HF HL)
    as (st' & Hrun & _).
  exists st'. split; [exact Hrun|].
  assert (H : grown uniform s x y z (drawn st) st' /\
              (drawn st' <= drawn st + 3 * Z.to_nat (seeds (CONFIG s)))%nat).
  { revert Hrun. unfold trackFromXYZ.
    set (st0 := mk_track _ _ _ _).
    assert (H0 : grown uniform s x y z (drawn st) st0)
      by (intros i Hi; simpl in Hi; lia).
    match goal with |- context [if ?b then _ else _] => destruct b end.
    - intros [= <-]. split; [exact H0|]. subst st0. simpl. lia.
    - intros Hrun.
      destruct (seedNum_loop_grown (drawn st) 0
                  (Z.to_nat (seeds (CONFIG s))) st0 st')
        as [Hs Hd]; [subst st0; simpl; lia | exact H0
                    | subst st0; simpl; lia | subst st0; simpl; lia
                    | exact Hrun |].
      split; [exact Hs | lia]. }
  destruct H as [Hgrown Hdrawn].
  intros i Hi.
  destruct (Hgrown i Hi)
    as (f & k & j & P & Qs & Hf & Hl & Hk & Hin & Hj & Hvf & Hshape & Hlen).
  exists f, k, j, P, Qs.
  split; [exact Hf|]. split; [exact Hl|]. split; [lia|].
  split; [exact Hin|]. split; [exact Hj|]. split; [exact Hvf|].
  split; [exact Hshape | exact Hlen].
Qed.
End GrownFibers.

(** C10.  Let [maxLength] be at least 2 (below that, the second column of a
    fiber does not fit its buffer) and let the result arrays have at least
    [3 * seeds] entries, the size [setConfig] gives them.

    1. At a seed direction whose volume fraction is above the threshold,
       [seedDir_body] always records a fiber: the count [found] grows by
       one, and the fiber stored at the old count holds the seed point and,
       right before it, the seed point advanced by [stepSize] along that
       direction.  Its recorded step count is its number of points, at
       least 2 and at most [maxLength].  When containment or direction
       selection fails on the very next step of both passes, the fiber is
       exactly these two points and its recorded step count is 2.
    2. [trackFromXYZ] returns, and every fiber it counts has a recorded
       step count equal to its number of points, at least 2; the fiber
       holds a seed point drawn for the voxel and, right before it, that
       point advanced along a direction of the voxel whose volume fraction
       is above the threshold. *)
Theorem trackFromXYZ_two_points (sqrtf : Q -> Q) (uniform : nat -> Q)
    (s : streamline) (x y z : Z) (st : track_state) :
  2 <= maxLength (CONFIG s) ->
  (3 * Z.to_nat (seeds (CONFIG s)) <= length (FIBERs st))%nat ->
  (3 * Z.to_nat (seeds (CONFIG s)) <= length (LENGTHs st))%nat ->
  (forall (seed : Vec3Df) (st0 : track_state) (seedDir : Z),
     0 <= seedDir <= 2 ->
     (volFracThr (CONFIG s) < DIR_at s (mkVec3Di x y z) (seedDir*4))%Q ->
     (found st0 < length (FIBERs st0))%nat ->
     (found st0 < length (LENGTHs st0))%nat ->
     let c := first_advance s (mkVec3Di x y z) seed seedDir in
     exists st1 f pre post,
       seedDir_body sqrtf s x y z seed st0 seedDir = Some st1 /\
       found st1 = S (found st0) /\
       FIBERs st1 !! found st0 = Some f /\
       LENGTHs st1 !! found st0 = Some (Z.of_nat (length f)) /\
       f = pre ++ [c; seed] ++ post /\
       2 <= Z.of_nat (length f) <= maxLength (CONFIG s) /\
       (stops s c (Normalize sqrtf (Vsub c seed)) ->
        stops s seed (Normalize sqrtf (Vsub seed c)) ->
        f = [c; seed] /\ LENGTHs st1 !! found st0 = Some 2)) /\
  exists st', trackFromXYZ sqrtf uniform s x y z st = Some st' /\
    forall i, (i < found st')%nat ->
      exists f k j pre post,
        FIBERs st' !! i = Some f /\
        LENGTHs st' !! i = Some (Z.of_nat (length f)) /\
        2 <= Z.of_nat (length f) <= maxLength (CONFIG s) /\
        (k < Z.to_nat (seeds (CONFIG s)))%nat /\
        0 <= j <= 2 /\
        (volFracThr (CONFIG s) < DIR_at s (mkVec3Di x y z) (j*4))%Q /\
        let seed := new_seed uniform s x y z (drawn st + 3 * k) in
        f = pre ++ [first_advance s (mkVec3Di x y z) seed j; seed] ++ post.
Proof.
  intros Hmax HF HL.
  assert (Hlen : forall (c seed : Vec3Df) (P Qs : list Vec3Df),
            2 <= Z.of_nat (length (rev (c :: P) ++ seed :: Qs))).
  { intros c seed P Qs. rewrite length_app, length_rev. simpl. lia. }
  split.
  - intros seed st0 seedDir Hdir Hvf HF0 HL0 c.
    destruct (seedDir_body_grows sqrtf s x y z seed st0 seedDir Hdir Hvf)
      as (f & P & Qs & Hrun & (Hf & _ & _) & Hle & HP & HQ).
    fold c in Hf, HP, HQ.
    eexists. exists f, (rev P), Qs. split; [exact Hrun|].
    cbn [found FIBERs LENGTHs]. rewrite !list_lookup_insert_eq by lia.
    split; [reflexivity|]. split; [reflexivity|]. split; [reflexivity|].
    split; [rewrite Hf; cbn [rev]; now rewrite <- app_assoc|].
    split; [rewrite Hf at 1; split; [apply Hlen | lia]|].
    intros H1 H2. rewrite (HP H1), (HQ H2) in Hf. subst f.
    split; reflexivity.
  - destruct (trackFromXYZ_grown sqrtf uniform s x y z st HF HL)
      as (st' & Hrun & Hall).
    exists st'. split; [exact Hrun|]. intros i Hi.
    destruct (Hall i Hi)
      as (f & k & j & P & Qs & Hf & Hl & Hk & _ & Hj & Hvf & (Hs & _ & _)
          & Hle).
    exists f, k, j, (rev P), Qs.
    split; [exact Hf|]. split; [exact Hl|].
    split; [rewrite Hs at 1; split; [apply Hlen | lia]|].
    split; [exact Hk|]. split; [exact Hj|]. split; [exact Hvf|].
    cbv zeta. rewrite Hs. cbn [rev]. now rewrite <- app_assoc.
Qed.

Lemma trackFromXYZ_two_points_witness :
  exists st',
    trackFromXYZ sample_sqrt sample_uniform sample_TRACKER 1 1 1 sample_arrays
      = Some st' /\
    forall i, (i < found st')%nat ->
      exists f k j pre post,
        FIBERs st' !! i = Some f /\
        LENGTHs st' !! i = Some (Z.of_nat (length f)) /\
        2 <= Z.of_nat (length f) <= maxLength (CONFIG sample_TRACKER) /\
        (k < Z.to_nat (seeds (CONFIG sample_TRACKER)))%nat /\
        0 <= j <= 2 /\
        (volFracThr (CONFIG sample_TRACKER)
         < DIR_at sample_TRACKER (mkVec3Di 1 1 1) (j*4))%Q /\
        let seed := new_seed sample_uniform sample_TRACKER 1 1 1
                             (drawn sample_arrays + 3 * k) in
        f = pre ++ [first_advance sample_TRACKER (mkVec3Di 1 1 1) seed j;
                    seed] ++ post.
Proof.
  apply (proj2 (trackFromXYZ_two_points sample_sqrt sample_uniform
                  sample_TRACKER 1 1 1 sample_arrays
                  ltac:(simpl; lia) ltac:(simpl; lia) ltac:(simpl; lia))).
Defined.



(** ** streamline.h: the file that [doTracking] leaves *)

Lemma save_unique_count (fiber : list Vec3Df) (numPoints : Z) :
  1 <= numPoints ->
  1 <= fst (TrackVis.save_unique fiber numPoints) <= numPoints /\
  length (snd (TrackVis.save_unique fiber numPoints))
  = (3 * Z.to_nat (fst (TrackVis.save_unique fiber numPoints)))%nat.
Proof.
  intros Hn. unfold TrackVis.save_unique. cbn [fst snd].
  rewrite fold_left_unique_iter.
  set (pts := map (column fiber) (seqZ 0 numPoints)).
  destruct (unique_fold pts (TrackVis.mk_unique [] (0, 0, 0) 0)) as [-> ->].
  cbn [last_voxel TrackVis.u_tmp TrackVis.u_numSaved length Nat.eqb app].
  assert (Hpts : length pts = Z.to_nat numPoints)
    by (subst pts; rewrite length_map, length_seqZ; reflexivity).
  pose proof (length_first_of_runs pts None) as Hle.
  assert (Hpos : (1 <= length (first_of_runs None pts))%nat).
  { destruct pts as [|p pts']; [simpl in Hpts; lia|].
    cbn [first_of_runs]. rewrite decide_False by discriminate.
    simpl. lia. }
  rewrite (length_flat_map_coords (fun p => p)).
  revert Hle Hpos. generalize (length (first_of_runs None pts)).
  intros k Hle Hpos. lia.
Qed.

Lemma length_flat_map_le_bytes (f : Q -> Z) (l : list Q) :
  length (flat_map (fun v => TrackVis.le_bytes 4 (f v)) l)
  = (4 * length l)%nat.
Proof.
  induction l as [|a l IH]; [reflexivity|].
  cbn [flat_map]. rewrite length_app, IH, length_le_bytes. simpl. lia.
Qed.

Section WrittenFile.
Variable sqrtf : Q -> Q.
Variable uniform : nat -> Q.
Variable f32_bits : Q -> Z.
Variable s : streamline.
Variable h0 : list Z.

Hypothesis maxLength_fits : maxLength (CONFIG s) <= 2000.

Lemma save_body_written (st : track_state) (saved : list (FIBER * Z))
    (out : TrackVis.state * Z) (i : nat) :
  recorded s st i -> written f32_bits s h0 saved out ->
  exists saved', written f32_bits s h0 saved' (save_body f32_bits s st out i).
Proof.
  intros (f & len & Hf & Hlen & _ & Hge & Hle & _) (Hfp & Htot & Hall).
  unfold save_body. rewrite Hf, Hlen. cbn [default from_option id].
  destruct (accept s len) eqn:Hacc; [|exists saved; exact (conj Hfp (conj Htot Hall))].
  exists (saved ++ [(f, len)]).
  unfold written. cbn [fst snd]. split; [|split].
  - rewrite Hfp. unfold TrackVis.append. cbn [TrackVis.maxSteps TrackVis.fp].
    replace (2000 <? len) with false by (symmetry; apply Z.ltb_ge; lia).
    unfold TrackVis.append_points. cbn [Z.eqb TrackVis.TRACKVIS_SAVE_UNIQUE
      TrackVis.TRACKVIS_SAVE_HALF Pos.eqb].
    rewrite flat_map_app. cbn [flat_map]. rewrite app_nil_r.
    assert (Hrec : trk_record f32_bits (f, len)
              = TrackVis.le_bytes 4 (fst (TrackVis.save_unique f len)) ++
                flat_map (fun v => TrackVis.le_bytes 4 (f32_bits v))
                         (snd (TrackVis.save_unique f len))).
    { unfold trk_record. cbn [fst snd].
      now destruct (TrackVis.save_unique f len). }
    rewrite Hrec.
    destruct (TrackVis.save_unique f len) as [numSaved tmp].
    cbn [snd TrackVis.hdr].
    rewrite !fwrite_at_end. rewrite <- !app_assoc. reflexivity.
  - rewrite Htot, length_app. simpl. lia.
  - apply Forall_app. split; [exact Hall|].
    constructor; [|constructor]. cbn [snd]. split; [exact Hacc | lia].
Qed.

Lemma save_found_written (st : track_state) (saved : list (FIBER * Z))
    (out : TrackVis.state * Z) :
  all_recorded s st -> written f32_bits s h0 saved out ->
  exists saved', written f32_bits s h0 saved' (save_found f32_bits s st out).
Proof.
  intros Hall. unfold save_found.
  assert (Hidx : forall i, i ∈ seq 0 (found st) -> recorded s st i).
  { intros i Hi. apply Hall. apply elem_of_seq in Hi. lia. }
  revert saved out Hidx. induction (seq 0 (found st)) as [|i l IH];
    intros saved out Hidx Hw.
  - exists saved. exact Hw.
  - cbn [fold_left].
    destruct (save_body_written st saved out i) as (saved1 & H1);
      [apply Hidx; left | exact Hw |].
    apply (IH saved1); [|exact H1].
    intros j Hj. apply Hidx. now right.
Qed.

Lemma voxel_loop_written (vs : list (Z * Z * Z)) (st : track_state)
    (saved : list (FIBER * Z)) (out : TrackVis.state * Z) :
  (3 * Z.to_nat (seeds (CONFIG s)) <= length (FIBERs st))%nat ->
  (3 * Z.to_nat (seeds (CONFIG s)) <= length (LENGTHs st))%nat ->
  written f32_bits s h0 saved out ->
  exists st' out' saved',
    voxel_loop sqrtf uniform f32_bits s vs (st, out) = Some (st', out') /\
    written f32_bits s h0 saved' out'.
Proof.
  revert st saved out. induction vs as [|[[x y] z] vs IH];
    intros st saved out HF HL Hw.
  - exists st, out, saved. split; [reflexivity | exact Hw].
  - simpl. destruct (match niiSEED s with Some _ => _ | None => _ end).
    + simpl. now apply (IH st saved).
    + destruct (trackFromXYZ_spec sqrtf uniform s x y z st HF HL)
        as (st' & -> & Hall & _ & LF & LL).
      simpl.
      destruct (save_found_written st' saved out Hall Hw) as (saved1 & H1).
      apply (IH st' saved1); [lia | lia | exact H1].
Qed.
End WrittenFile.

(** X12.  With a white-matter mask of valid geometry, a file that can be
    opened and [maxLength <= 2000], [doTracking] returns, and the file it
    leaves is the 1000-byte header of [create] with the count field
    overwritten, followed by one record per counted fiber and nothing else:
    the returned value and the count in the header are both the number of
    records.  Every record is a fiber that passed the length filter, and is
    its number of points [k] (at least 1, at most the step count) followed
    by [12 * k] bytes of coordinates. *)
Theorem doTracking_file (sqrtf : Q -> Q) (uniform : nat -> Q)
    (f32_bits : Q -> Z) (s : streamline) (st : track_state)
    (garbage : list Z) :
  let dims := fun i => to_short (dim (niiMASK s) (i + 1)) in
  let pixdims := fun i => f32_bits (pixdim (niiMASK s) (i + 1)) in
  length garbage = 1000%nat ->
  (forall i, 0 <= i <= 2 -> 0 < dims i) ->
  (forall i, 0 <= i <= 2 ->
     0 <= pixdims i < 2 ^ 32 /\ TrackVis.f32_le_zero (pixdims i) = false) ->
  maxLength (CONFIG s) <= 2000 ->
  (3 * Z.to_nat (seeds (CONFIG s)) <= length (FIBERs st))%nat ->
  (3 * Z.to_nat (seeds (CONFIG s)) <= length (LENGTHs st))%nat ->
  exists (saved : list (FIBER * Z)) (st' : track_state),
    let n := Z.of_nat (length saved) in
    doTracking sqrtf uniform f32_bits s st garbage true
    = Some (n mod 2 ^ 32,
            Some (TrackVis.store (TrackVis.offsetof TrackVis.n_count)
                    (TrackVis.le_bytes 4 n)
                    (created_header dims pixdims garbage) ++
                  flat_map (trk_record f32_bits) saved),
            st') /\
    length (TrackVis.store (TrackVis.offsetof TrackVis.n_count)
              (TrackVis.le_bytes 4 n)
              (created_header dims pixdims garbage)) = 1000%nat /\
    Forall (fun c =>
              accept s (snd c) = true /\
              exists k payload,
                1 <= k <= snd c /\ k <= 2000 /\
                trk_record f32_bits c = TrackVis.le_bytes 4 k ++ payload /\
                Z.of_nat (length payload) = 12 * k) saved.
Proof.
  intros dims pixdims Hsize Hdims Hpix Hmax HF HL.
  assert (Hdims' : forall i, 0 <= i <= 2 -> 0 < dims i < 2 ^ 15).
  { intros i Hi. specialize (Hdims i Hi).
    pose proof (to_short_range (dim (niiMASK s) (i + 1))).
    subst dims. cbv beta in *. lia. }
  pose proof (create_result dims pixdims garbage Hsize Hdims' Hpix) as Hcreate.
  pose proof (created_header_size dims pixdims garbage Hsize Hdims' Hpix)
    as Hlen.
  set (h0 := created_header dims pixdims garbage) in *.
  unfold doTracking. fold dims pixdims. rewrite Hcreate. cbn [snd].
  match goal with |- context [voxel_loop _ _ _ _ ?vs (st, ?o)] =>
    destruct (voxel_loop_written sqrtf uniform f32_bits s h0 Hmax vs st [] o
                HF HL) as (st' & [tv tot] & saved & -> & Hfp & Htot & Hall)
  end.
  { unfold written. cbn [fst snd flat_map length].
    rewrite app_nil_r, Hlen. repeat split. constructor. }
  cbn [fst snd] in Hfp, Htot. subst tv tot.
  exists saved, st'. cbv zeta. cbn [mbind option_bind].
  split; [|split].
  - unfold TrackVis.updateTotal, TrackVis.close, TrackVis.fwrite,
      TrackVis.fseek.
    cbn [TrackVis.fp option_map fst snd].
    change (TrackVis.offsetof TrackVis.n_count) with 988.
    change (1000 - 12) with 988.
    rewrite store_app_low; [reflexivity | lia |].
    rewrite length_le_bytes, Hlen. lia.
  - change (TrackVis.offsetof TrackVis.n_count) with 988.
    rewrite length_store; [exact Hlen | lia |].
    rewrite length_le_bytes, Hlen. lia.
  - eapply Forall_impl; [exact Hall|].
    intros [f len] [Hacc Hrange]. cbn [snd] in *.
    split; [exact Hacc|].
    destruct (save_unique_count f len ltac:(lia)) as [Hk Hp].
    unfold trk_record. cbn [fst snd].
    destruct (TrackVis.save_unique f len) as [numSaved tmp].
    cbn [fst snd] in Hk, Hp.
    exists numSaved, (flat_map (fun v => TrackVis.le_bytes 4 (f32_bits v)) tmp).
    split; [lia|]. split; [lia|]. split; [reflexivity|].
    rewrite length_flat_map_le_bytes, Hp. lia.
Qed.

Lemma doTracking_file_witness :
  exists (saved : list (FIBER * Z)) (st' : track_state),
    let dims := fun i => to_short (dim (niiMASK sample_TRACKER) (i + 1)) in
    let pixdims :=
      fun i => sample_f32_bits (pixdim (niiMASK sample_TRACKER) (i + 1)) in
    let n := Z.of_nat (length saved) in
    doTracking sample_sqrt sample_uniform sample_f32_bits sample_TRACKER
               sample_arrays sample_garbage true
    = Some (n mod 2 ^ 32,
            Some (TrackVis.store (TrackVis.offsetof TrackVis.n_count)
                    (TrackVis.le_bytes 4 n)
                    (created_header dims pixdims sample_garbage) ++
                  flat_map (trk_record sample_f32_bits) saved),
            st') /\
    length (TrackVis.store (TrackVis.offsetof TrackVis.n_count)
              (TrackVis.le_bytes 4 n)
              (created_header dims pixdims sample_garbage)) = 1000%nat /\
    Forall (fun c =>
              accept sample_TRACKER (snd c) = true /\
              exists k payload,
                1 <= k <= snd c /\ k <= 2000 /\
                trk_record sample_f32_bits c
                = TrackVis.le_bytes 4 k ++ payload /\
                Z.of_nat (length payload) = 12 * k) saved.
Proof.
  apply (doTracking_file sample_sqrt sample_uniform sample_f32_bits
           sample_TRACKER sample_arrays sample_garbage).
  - reflexivity.
  - intros i _. vm_compute. reflexivity.
  - intros i _. vm_compute. split; [split; [discriminate | reflexivity] |
                                    reflexivity].
  - vm_compute. discriminate.
  - simpl. lia.
  - simpl. lia.
Defined.

(** ** main.cxx: how a run ends *)





(** ** dtk2dir: the DSI case *)

Section Scan.
Variable ODF : Z -> Q.

Lemma minmax_iter_scanned (n : Z) (st : Q * Q) :
  0 <= n -> scanned ODF n st ->
  scanned ODF (n + 1) (dtk2dir.minmax_iter ODF st n).
Proof.
  intros Hn (Hlo & Hhi & Hall & Hmin & Hmax).
  assert (Hmin' : fst st = (-1)%Q \/ exists i, 0 <= i < n + 1 /\ fst st = ODF i).
  { destruct Hmin as [H | (i & Hi & H)]; [now left|].
    right. exists i. split; [lia | exact H]. }
  assert (Hmax' : snd st = (-1)%Q \/ exists i, 0 <= i < n + 1 /\ snd st = ODF i).
  { destruct Hmax as [H | (i & Hi & H)]; [now left|].
    right. exists i. split; [lia | exact H]. }
  assert (Hnew : exists i, 0 <= i < n + 1 /\ ODF n = ODF i)
    by (exists n; split; [lia | reflexivity]).
  assert (Hall' : forall lo hi, (lo <= fst st)%Q -> (snd st <= hi)%Q ->
            (lo <= ODF n)%Q -> (ODF n <= hi)%Q ->
            forall i, 0 <= i < n + 1 -> (lo <= ODF i)%Q /\ (ODF i <= hi)%Q).
  { intros lo hi H1 H2 H3 H4 i Hi. destruct (decide (i = n)) as [->|Hne].
    - split; assumption.
    - destruct (Hall i ltac:(lia)). split; lra. }
  unfold dtk2dir.minmax_iter.
  destruct (Qltb (ODF n) (fst st)) eqn:E1.
  { apply Qltb_lt in E1. unfold scanned. cbn [fst snd].
    split; [lra|]. split; [exact Hhi|].
    split; [apply Hall'; lra|]. split; [now right | exact Hmax']. }
  apply Qltb_ge in E1.
  destruct (Qltb (snd st) (ODF n)) eqn:E2.
  { apply Qltb_lt in E2. unfold scanned. cbn [fst snd].
    split; [exact Hlo|]. split; [lra|].
    split; [apply Hall'; lra|]. split; [exact Hmin' | now right]. }
  apply Qltb_ge in E2. unfold scanned.
  split; [exact Hlo|]. split; [exact Hhi|].
  split; [apply Hall'; lra|]. split; [exact Hmin' | exact Hmax'].
Qed.

Lemma minmax_fold_scanned (k : nat) (n : Z) (st : Q * Q) :
  0 <= n -> scanned ODF n st ->
  scanned ODF (n + Z.of_nat k)
    (fold_left (dtk2dir.minmax_iter ODF) (seqZ n (Z.of_nat k)) st).
Proof.
  revert n st. induction k as [|k IH]; intros n st Hn Hst.
  - rewrite Z.add_0_r. exact Hst.
  - rewrite seqZ_cons by lia. cbn [fold_left].
    replace (Z.pred (Z.of_nat (S k))) with (Z.of_nat k) by lia.
    replace (n + Z.of_nat (S k)) with (Z.succ n + Z.of_nat k) by lia.
    apply IH; [lia|]. now apply minmax_iter_scanned.
Qed.

Lemma minmax_scanned : scanned ODF 181 (dtk2dir.minmax ODF).
Proof.
  apply (minmax_fold_scanned 181 0); [lia|].
  unfold scanned. cbn [fst snd].
  split; [lra|]. split; [lra|]. split; [intros i Hi; lia|].
  split; now left.
Qed.

Lemma rescaled_range (MIN MAX : Q) (i : Z) :
  (MIN <= ODF i)%Q -> (ODF i <= MAX)%Q ->
  (0 <= dtk2dir.rescaled ODF MIN MAX i)%Q /\
  (dtk2dir.rescaled ODF MIN MAX i <= 1)%Q.
Proof.
  intros Hlo Hhi. unfold dtk2dir.rescaled.
  destruct (Qeq_dec (MAX - MIN) 0) as [E|E].
  - unfold Qdiv. rewrite E. change (/ 0)%Q with 0%Q.
    rewrite Qmult_0_r. split; lra.
  - assert (Hpos : (0 < MAX - MIN)%Q) by lra. split.
    + apply Qle_shift_div_l; [exact Hpos | lra].
    + apply Qle_shift_div_r; [exact Hpos | lra].
Qed.
End Scan.

(** X14.  The scan of the DSI case starts from [MIN = MAX = -1] and never
    resets them: afterwards [MIN <= -1 <= MAX], every one of the 181 samples
    lies between them, and each of the two is -1 or one of the samples.  So
    for an ODF with no sample below -1, [MIN] is -1 and not the smallest
    sample.  When [MIN < MAX], every rescaled value lies in [0,1].  [MIN]
    and [MAX] coincide only when every sample is -1; the rescaling then
    divides 0 by 0, and what it gives there is not described. *)
Theorem minmax_spec (ODF : Z -> Q) :
  let MIN := fst (dtk2dir.minmax ODF) in
  let MAX := snd (dtk2dir.minmax ODF) in
  (MIN <= -1)%Q /\ (-1 <= MAX)%Q /\
  (forall i, 0 <= i < 181 -> (MIN <= ODF i)%Q /\ (ODF i <= MAX)%Q) /\
  (MIN = (-1)%Q \/ exists i, 0 <= i < 181 /\ MIN = ODF i) /\
  (MAX = (-1)%Q \/ exists i, 0 <= i < 181 /\ MAX = ODF i) /\
  ((forall i, 0 <= i < 181 -> (-1 <= ODF i)%Q) -> (MIN == -1)%Q) /\
  ((MIN < MAX)%Q ->
   forall i, 0 <= i < 181 ->
     (0 <= dtk2dir.rescaled ODF MIN MAX i)%Q /\
     (dtk2dir.rescaled ODF MIN MAX i <= 1)%Q) /\
  (~ (MIN < MAX)%Q ->
   (MIN == -1)%Q /\ (MAX == -1)%Q /\
   forall i, 0 <= i < 181 -> (ODF i == -1)%Q).
Proof.
  intros MIN MAX.
  destruct (minmax_scanned ODF) as (Hlo & Hhi & Hall & Hmin & Hmax).
  fold MIN in Hlo, Hall, Hmin. fold MAX in Hhi, Hall, Hmax.
  split; [exact Hlo|]. split; [exact Hhi|]. split; [exact Hall|].
  split; [exact Hmin|]. split; [exact Hmax|]. split.
  { intros Hge. destruct Hmin as [-> | (i & Hi & E)]; [reflexivity|].
    specialize (Hge i Hi). rewrite <- E in Hge. lra. }
  split.
  - intros Hlt i Hi. destruct (Hall i Hi) as [H1 H2].
    unfold dtk2dir.rescaled.
    assert (Hpos : (0 < MAX - MIN)%Q) by lra. split.
    + apply Qle_shift_div_l; [exact Hpos | lra].
    + apply Qle_shift_div_r; [exact Hpos | lra].
  - intros Hn.
    assert (E1 : (MIN == -1)%Q) by lra.
    assert (E2 : (MAX == -1)%Q) by lra.
    split; [exact E1|]. split; [exact E2|].
    intros i Hi. destruct (Hall i Hi). lra.
Qed.

Lemma minmax_spec_witness :
  let ODF := fun i => img sample_ODF i 0 0 0 in
  (0 <= dtk2dir.rescaled ODF (fst (dtk2dir.minmax ODF))
                         (snd (dtk2dir.minmax ODF)) 5)%Q /\
  (dtk2dir.rescaled ODF (fst (dtk2dir.minmax ODF))
                    (snd (dtk2dir.minmax ODF)) 5 <= 1)%Q.
Proof.
  intros ODF.
  assert (Hlt : (fst (dtk2dir.minmax ODF) < snd (dtk2dir.minmax ODF))%Q)
    by (vm_compute; reflexivity).
  apply (proj1 (proj2 (proj2 (proj2 (proj2 (proj2 (proj2
           (minmax_spec ODF))))))) Hlt 5).
  lia.
Defined.

Lemma place_cases (value : Q) (i1 : Z) (a b c : Q) (pa pb pc : Z) :
  dtk2dir.place value i1 [0; 1; 2] (dtk2dir.mk_peaks [a; b; c] [pa; pb; pc])
  = if Qltb a value then dtk2dir.mk_peaks [value; a; b] [i1; pa; pb]
    else if Qltb b value then dtk2dir.mk_peaks [a; value; b] [pa; i1; pb]
    else if Qltb c value then dtk2dir.mk_peaks [a; b; value] [pa; pb; i1]
    else dtk2dir.mk_peaks [a; b; c] [pa; pb; pc].
Proof.
  cbn [dtk2dir.place dtk2dir.vf].
  change (dtk2dir.elt 0%Q [a; b; c] 0) with a.
  change (dtk2dir.elt 0%Q [a; b; c] 1) with b.
  change (dtk2dir.elt 0%Q [a; b; c] 2) with c.
  destruct (Qltb a value); [reflexivity|].
  destruct (Qltb b value); [reflexivity|].
  destruct (Qltb c value); reflexivity.
Qed.

Section Ranking.
Variable ODF : Z -> Q.
Variable MAXv : Z -> Z.
Variable MIN MAX vf_THR : Q.

Local Abbreviation value := (dtk2dir.rescaled ODF MIN MAX).
Local Abbreviation slot_ok := (slot_ok ODF MAXv MIN MAX vf_THR).
Local Abbreviation eligible := (eligible ODF MAXv MIN MAX vf_THR).

Lemma slot_ok_mono (n : Z) (v : Q) (p : Z) :
  slot_ok n v p -> slot_ok (n + 1) v p.
Proof.
  intros [H | (H1 & H2 & H3)]; [now left|].
  right. split; [exact H1|]. split; [lia | exact H3].
Qed.

Lemma slot_ok_nonneg (n : Z) (v : Q) (p : Z) : slot_ok n v p -> (0 <= v)%Q.
Proof.
  intros [[-> _] | (H & _)]; lra.
Qed.

Lemma slot_ok_below (n : Z) (v : Q) (p : Z) :
  slot_ok n v p -> (0 < v)%Q -> p < n /\ v = value p.
Proof.
  intros [[-> _] | (_ & H & _ & E)] Hpos; [lra|]. split; [lia | exact E].
Qed.

Lemma before_trans (u : Q) (p : Z) (v : Q) (q : Z) (w : Q) (r : Z) :
  before u p v q -> before v q w r -> before u p w r.
Proof.
  unfold before. intros [H1 | [H1 H1']] [H2 | [H2 H2']].
  - left. lra.
  - left. lra.
  - left. lra.
  - right. split; [lra|]. intros Hpos.
    specialize (H2' Hpos). assert (Hv : (0 < v)%Q) by lra.
    specialize (H1' Hv). lia.
Qed.

Lemma peak_iter_ranked (n : Z) (pk : dtk2dir.peaks) :
  0 <= n -> ranked ODF MAXv MIN MAX vf_THR n pk ->
  ranked ODF MAXv MIN MAX vf_THR (n + 1)
    (dtk2dir.peak_iter ODF MAXv MIN MAX vf_THR pk n).
Proof.
  intros Hn (a & b & c & pa & pb & pc & -> & Ha & Hb & Hc & Hab & Hbc & Hmax).
  pose proof (slot_ok_nonneg _ _ _ Ha) as Ha0.
  pose proof (slot_ok_nonneg _ _ _ Hb) as Hb0.
  pose proof (slot_ok_nonneg _ _ _ Hc) as Hc0.
  assert (Hkeep : forall i, 0 <= i < n + 1 -> eligible i -> i <> n ->
            (i = pa /\ (0 < a)%Q) \/ (i = pb /\ (0 < b)%Q) \/
            (i = pc /\ (0 < c)%Q) \/ before c pc (value i) i).
  { intros i Hi He Hne. apply Hmax; [lia | exact He]. }
  assert (Hunchanged :
            ~ eligible n \/ (value n <= c)%Q ->
            ranked ODF MAXv MIN MAX vf_THR (n + 1)
              (dtk2dir.mk_peaks [a; b; c] [pa; pb; pc])).
  { intros Hskip. exists a, b, c, pa, pb, pc. split; [reflexivity|].
    split; [now apply slot_ok_mono|]. split; [now apply slot_ok_mono|].
    split; [now apply slot_ok_mono|]. split; [exact Hab|].
    split; [exact Hbc|].
    intros i Hi He. destruct (decide (i = n)) as [->|Hne];
      [|now apply Hkeep].
    destruct Hskip as [Hno | Hle]; [contradiction|].
    right. right. right. unfold before.
    destruct (Qlt_le_dec (value n) c) as [Hlt | Hge]; [now left|].
    right. split; [lra|]. intros Hpos.
    destruct (slot_ok_below _ _ _ Hc ltac:(lra)). lia. }
  unfold dtk2dir.peak_iter.
  destruct (MAXv n =? 1) eqn:Hm;
    [apply Z.eqb_eq in Hm
    |apply Z.eqb_neq in Hm; apply Hunchanged; left; intros [? _]; contradiction].
  destruct (Qltb (value n) vf_THR) eqn:Ht;
    [apply Qltb_lt in Ht; apply Hunchanged; left; intros [_ ?]; lra
    |apply Qltb_ge in Ht].
  assert (He : eligible n) by (split; assumption).
  assert (Hnew : (0 < value n)%Q -> slot_ok (n + 1) (value n) n).
  { intros Hpos. right. split; [exact Hpos|]. split; [lia|].
    split; [exact He | reflexivity]. }
  rewrite place_cases.
  destruct (Qltb a (value n)) eqn:E1; [apply Qltb_lt in E1|apply Qltb_ge in E1].
  { exists (value n), a, b, n, pa, pb. split; [reflexivity|].
    split; [apply Hnew; lra|]. split; [now apply slot_ok_mono|].
    split; [now apply slot_ok_mono|]. split; [now left|].
    split; [exact Hab|].
    intros i Hi Hi'. destruct (decide (i = n)) as [->|Hne].
    - left. split; [reflexivity | lra].
    - destruct (Hkeep i Hi Hi' Hne) as [H | [H | [[-> Hpos] | H]]].
      + right. now left.
      + right. right. now left.
      + right. right. right.
        destruct (slot_ok_below _ _ _ Hc Hpos) as [_ <-]. exact Hbc.
      + right. right. right.
        apply (before_trans _ _ c pc); [exact Hbc | exact H]. }
  destruct (Qltb b (value n)) eqn:E2; [apply Qltb_lt in E2|apply Qltb_ge in E2].
  { assert (Hapos : (0 < a)%Q) by lra.
    exists a, (value n), b, pa, n, pb. split; [reflexivity|].
    split; [now apply slot_ok_mono|]. split; [apply Hnew; lra|].
    split; [now apply slot_ok_mono|].
    split.
    { unfold before. destruct (Qlt_le_dec (value n) a) as [Hlt | Hge];
        [now left|]. right. split; [lra|]. intros _.
      destruct (slot_ok_below _ _ _ Ha Hapos). lia. }
    split; [now left|].
    intros i Hi Hi'. destruct (decide (i = n)) as [->|Hne].
    - right. left. split; [reflexivity | lra].
    - destruct (Hkeep i Hi Hi' Hne) as [H | [H | [[-> Hpos] | H]]].
      + now left.
      + right. right. now left.
      + right. right. right.
        destruct (slot_ok_below _ _ _ Hc Hpos) as [_ <-]. exact Hbc.
      + right. right. right.
        apply (before_trans _ _ c pc); [exact Hbc | exact H]. }
  destruct (Qltb c (value n)) eqn:E3; [apply Qltb_lt in E3|apply Qltb_ge in E3].
  { assert (Hbpos : (0 < b)%Q) by lra.
    exists a, b, (value n), pa, pb, n. split; [reflexivity|].
    split; [now apply slot_ok_mono|]. split; [now apply slot_ok_mono|].
    split; [apply Hnew; lra|]. split; [exact Hab|].
    split.
    { unfold before. destruct (Qlt_le_dec (value n) b) as [Hlt | Hge];
        [now left|]. right. split; [lra|]. intros _.
      destruct (slot_ok_below _ _ _ Hb Hbpos). lia. }
    intros i Hi Hi'. destruct (decide (i = n)) as [->|Hne].
    - right. right. left. split; [reflexivity | lra].
    - destruct (Hkeep i Hi Hi' Hne) as [H | [H | [[-> Hpos] | H]]].
      + now left.
      + right. now left.
      + right. right. right. left.
        destruct (slot_ok_below _ _ _ Hc Hpos) as [_ <-]. exact E3.
      + right. right. right. left.
        destruct H as [H | [H _]]; lra. }
  apply Hunchanged. now right.
Qed.

Lemma peak_fold_ranked (k : nat) (n : Z) (pk : dtk2dir.peaks) :
  0 <= n -> ranked ODF MAXv MIN MAX vf_THR n pk ->
  ranked ODF MAXv MIN MAX vf_THR (n + Z.of_nat k)
    (fold_left (dtk2dir.peak_iter ODF MAXv MIN MAX vf_THR)
               (seqZ n (Z.of_nat k)) pk).
Proof.
  revert n pk. induction k as [|k IH]; intros n pk Hn Hpk.
  - rewrite Z.add_0_r. exact Hpk.
  - rewrite seqZ_cons by lia. cbn [fold_left].
    replace (Z.pred (Z.of_nat (S k))) with (Z.of_nat k) by lia.
    replace (n + Z.of_nat (S k)) with (Z.succ n + Z.of_nat k) by lia.
    apply IH; [lia|]. now apply peak_iter_ranked.
Qed.
End Ranking.

Lemma locate_ranked (ODF : Z -> Q) (MAXv : Z -> Z) (vf_THR : Q) :
  ranked ODF MAXv (fst (dtk2dir.minmax ODF)) (snd (dtk2dir.minmax ODF))
         vf_THR 181 (dtk2dir.locate ODF MAXv vf_THR).
Proof.
  unfold dtk2dir.locate. destruct (dtk2dir.minmax ODF) as [MIN MAX].
  cbn [fst snd].
  apply (peak_fold_ranked ODF MAXv MIN MAX vf_THR 181 0); [lia|].
  exists 0%Q, 0%Q, 0%Q, 0, 0, 0. split; [reflexivity|].
  split; [now left|]. split; [now left|]. split; [now left|].
  split; [right; split; [reflexivity | intros H; lra]|].
  split; [right; split; [reflexivity | intros H; lra]|].
  intros i Hi. lia.
Qed.

(** X15.  The search of the DSI case for "the 3 major maxima" leaves in
    [vf] and [pos] the three first directions in this ranking: among the
    directions that are marked in MAX and whose rescaled value is not below
    the threshold, those of positive value, by decreasing value, a tie going
    to the smaller index.  A slot that finds no such direction stays at value
    0 and position 0.  The values are in decreasing order and in [0,1], the
    positions of filled slots are distinct, and no slot is filled exactly
    when no marked direction at or above the threshold has a positive
    value. *)
Theorem locate_ranks_three_peaks (ODF : Z -> Q) (MAXv : Z -> Z) (vf_THR : Q) :
  let MIN := fst (dtk2dir.minmax ODF) in
  let MAX := snd (dtk2dir.minmax ODF) in
  ranked ODF MAXv MIN MAX vf_THR 181 (dtk2dir.locate ODF MAXv vf_THR) /\
  exists a b c pa pb pc,
    dtk2dir.locate ODF MAXv vf_THR
    = dtk2dir.mk_peaks [a; b; c] [pa; pb; pc] /\
    (0 <= c)%Q /\ (c <= b)%Q /\ (b <= a)%Q /\ (a <= 1)%Q /\
    ((0 < b)%Q -> pa <> pb) /\
    ((0 < c)%Q -> pb <> pc /\ pa <> pc) /\
    (a = 0%Q <->
     forall i, 0 <= i < 181 -> eligible ODF MAXv MIN MAX vf_THR i ->
       (dtk2dir.rescaled ODF MIN MAX i <= 0)%Q).
Proof.
  intros MIN MAX.
  pose proof (locate_ranked ODF MAXv vf_THR) as Hr.
  fold MIN MAX in Hr. split; [exact Hr|].
  destruct Hr as (a & b & c & pa & pb & pc & E & Ha & Hb & Hc & Hab & Hbc
                  & Hmax).
  exists a, b, c, pa, pb, pc. split; [exact E|].
  pose proof (slot_ok_nonneg _ _ _ _ _ _ _ _ Ha) as Ha0.
  pose proof (slot_ok_nonneg _ _ _ _ _ _ _ _ Hb) as Hb0.
  pose proof (slot_ok_nonneg _ _ _ _ _ _ _ _ Hc) as Hc0.
  assert (Hcb : (c <= b)%Q) by (destruct Hbc as [H | [H _]]; lra).
  assert (Hba : (b <= a)%Q) by (destruct Hab as [H | [H _]]; lra).
  split; [exact Hc0|]. split; [exact Hcb|]. split; [exact Hba|].
  split; [|split; [|split]].
  - destruct Ha as [[-> _] | (_ & Hpa & _ & ->)]; [lra|].
    destruct (minmax_scanned ODF) as (_ & _ & Hall & _).
    destruct (Hall pa Hpa). now apply rescaled_range.
  - intros Hpos Heq.
    destruct (slot_ok_below _ _ _ _ _ _ _ _ Ha ltac:(lra)) as [_ Ea].
    destruct (slot_ok_below _ _ _ _ _ _ _ _ Hb Hpos) as [_ Eb].
    destruct Hab as [H | [_ H]].
    + rewrite Ea, Eb, Heq in H. lra.
    + specialize (H Hpos). lia.
  - intros Hpos.
    destruct (slot_ok_below _ _ _ _ _ _ _ _ Ha ltac:(lra)) as [_ Ea].
    destruct (slot_ok_below _ _ _ _ _ _ _ _ Hb ltac:(lra)) as [_ Eb].
    destruct (slot_ok_below _ _ _ _ _ _ _ _ Hc Hpos) as [_ Ec].
    assert (Hac : before a pa c pc) by (now apply (before_trans _ _ b pb)).
    split; intros Heq.
    + destruct Hbc as [H | [_ H]].
      * rewrite Eb, Ec, Heq in H. lra.
      * specialize (H Hpos). lia.
    + destruct Hac as [H | [_ H]].
      * rewrite Ea, Ec, Heq in H. lra.
      * specialize (H Hpos). lia.
  - split.
    + intros -> i Hi He.
      destruct (Hmax i Hi He) as [[_ H] | [[_ H] | [[_ H] | H]]]; try lra.
      destruct H as [H | [H _]]; lra.
    + intros Hnone. destruct Ha as [[-> _] | (Hpos & Hpa & He & Ea)];
        [reflexivity|].
      specialize (Hnone pa Hpa He). rewrite <- Ea in Hnone. lra.
Qed.

Lemma normalize_cases (a b c : Q) (ps : list Z) :
  dtk2dir.normalize (dtk2dir.mk_peaks [a; b; c] ps)
  = if Qltb 0 (a + b + c)
    then dtk2dir.mk_peaks [(a / (a + b + c))%Q; (b / (a + b + c))%Q;
                           (c / (a + b + c))%Q] ps
    else dtk2dir.mk_peaks [a; b; c] ps.
Proof.
  unfold dtk2dir.normalize. cbn [dtk2dir.vf dtk2dir.pos].
  change (dtk2dir.elt 0%Q [a; b; c] 0) with a.
  change (dtk2dir.elt 0%Q [a; b; c] 1) with b.
  change (dtk2dir.elt 0%Q [a; b; c] 2) with c.
  destruct (Qltb 0 (a + b + c)); reflexivity.
Qed.

Lemma store_slots (dirlist : Z -> Vec3Df) (a b c : Q) (pa pb pc : Z) :
  fold_left
    (dtk2dir.store_slot dirlist (dtk2dir.mk_peaks [a; b; c] [pa; pb; pc]))
    [0; 1; 2] (replicate 12 0%Q)
  = [a; fx (dirlist pa); fy (dirlist pa); fz (dirlist pa);
     b; fx (dirlist pb); fy (dirlist pb); fz (dirlist pb);
     c; fx (dirlist pc); fy (dirlist pc); fz (dirlist pc)].
Proof.
  reflexivity.
Qed.

Lemma Qdiv_le_mono (x y s : Q) : (0 < s)%Q -> (x <= y)%Q -> (x / s <= y / s)%Q.
Proof.
  intros Hs Hxy. unfold Qdiv. apply Qmult_le_compat_r; [exact Hxy|].
  apply Qinv_le_0_compat. lra.
Qed.

(** X16.  The twelve values that the DSI case stores in a voxel of DIR are
    three slots of a volume fraction followed by a direction of the
    (reoriented) list.  The fractions are the values of the located peaks
    divided by their sum: they are in decreasing order, lie in [0,1] and add
    up to 1, unless no peak was found, in which case all three are 0.  The
    direction of a slot is the sampling direction of its peak; an empty slot
    has fraction 0 and carries sampling direction number 0, not the zero
    vector. *)
Theorem dsi_voxel_slots (dirlist : Z -> Vec3Df) (ODF : Z -> Q)
    (MAXv : Z -> Z) (vf_THR : Q) :
  exists f0 f1 f2 p0 p1 p2,
    dtk2dir.dsi_voxel dirlist ODF MAXv vf_THR
    = [f0; fx (dirlist p0); fy (dirlist p0); fz (dirlist p0);
       f1; fx (dirlist p1); fy (dirlist p1); fz (dirlist p1);
       f2; fx (dirlist p2); fy (dirlist p2); fz (dirlist p2)] /\
    dtk2dir.pos (dtk2dir.locate ODF MAXv vf_THR) = [p0; p1; p2] /\
    (0 <= f2)%Q /\ (f2 <= f1)%Q /\ (f1 <= f0)%Q /\ (f0 <= 1)%Q /\
    ((f0 + f1 + f2 == 1)%Q \/
     (f0 = 0%Q /\ f1 = 0%Q /\ f2 = 0%Q /\
      dtk2dir.vf (dtk2dir.locate ODF MAXv vf_THR) = [0%Q; 0%Q; 0%Q])) /\
    ((f0 == 0)%Q -> p0 = 0) /\ ((f1 == 0)%Q -> p1 = 0) /\
    ((f2 == 0)%Q -> p2 = 0).
Proof.
  destruct (locate_ranked ODF MAXv vf_THR)
    as (a & b & c & pa & pb & pc & E & Ha & Hb & Hc & Hab & Hbc & _).
  pose proof (slot_ok_nonneg _ _ _ _ _ _ _ _ Ha) as Ha0.
  pose proof (slot_ok_nonneg _ _ _ _ _ _ _ _ Hb) as Hb0.
  pose proof (slot_ok_nonneg _ _ _ _ _ _ _ _ Hc) as Hc0.
  assert (Hcb : (c <= b)%Q) by (destruct Hbc as [H | [H _]]; lra).
  assert (Hba : (b <= a)%Q) by (destruct Hab as [H | [H _]]; lra).
  assert (Hempty : forall n v p,
            slot_ok ODF MAXv (fst (dtk2dir.minmax ODF))
                    (snd (dtk2dir.minmax ODF)) vf_THR n v p ->
            (v <= 0)%Q -> v = 0%Q /\ p = 0).
  { intros n v p [H | (H & _)] Hv; [exact H | lra]. }
  unfold dtk2dir.dsi_voxel. rewrite E, normalize_cases.
  destruct (Qltb 0 (a + b + c)) eqn:Hs;
    [apply Qltb_lt in Hs | apply Qltb_ge in Hs].
  - rewrite store_slots.
    exists (a / (a + b + c))%Q, (b / (a + b + c))%Q, (c / (a + b + c))%Q,
           pa, pb, pc.
    split; [reflexivity|]. split; [reflexivity|].
    assert (Hzero : forall v p,
              slot_ok ODF MAXv (fst (dtk2dir.minmax ODF))
                      (snd (dtk2dir.minmax ODF)) vf_THR 181 v p ->
              (v / (a + b + c) == 0)%Q -> p = 0).
    { intros v p Hv Hz. apply (Hempty 181 v p Hv).
      assert (Hv' : (v == v / (a + b + c) * (a + b + c))%Q)
        by (field; lra).
      rewrite Hz in Hv'. lra. }
    split; [apply Qle_shift_div_l; lra|].
    split; [now apply Qdiv_le_mono|]. split; [now apply Qdiv_le_mono|].
    split; [apply Qle_shift_div_r; lra|].
    split; [left; field; lra|].
    split; [now apply Hzero|]. split; now apply Hzero.
  - destruct (Hempty _ _ _ Ha ltac:(lra)) as [-> ->].
    destruct (Hempty _ _ _ Hb ltac:(lra)) as [-> ->].
    destruct (Hempty _ _ _ Hc ltac:(lra)) as [-> ->].
    rewrite store_slots. exists 0%Q, 0%Q, 0%Q, 0, 0, 0.
    split; [reflexivity|]. split; [reflexivity|].
    repeat (split; [lra|]).
    split; [right; repeat split; reflexivity|]. repeat split; reflexivity.
Qed.

(** ** dtk2dir: the DTI case, and the tracker on its output *)

Lemma dti_voxel_unfold (sqrtf : Q -> Q) (ix iy iz : Q) (niiV1 : NIFTI Q)
    (x y z : Z) :
  let n2 := (img niiV1 x y z 0 * img niiV1 x y z 0 +
             img niiV1 x y z 1 * img niiV1 x y z 1 +
             img niiV1 x y z 2 * img niiV1 x y z 2)%Q in
  let norm := if Qle_bool (sqrtf n2) 0 then 1%Q else sqrtf n2 in
  dtk2dir.dti_voxel sqrtf ix iy iz niiV1 x y z
  = [1%Q; (ix * img niiV1 x y z 0 / norm)%Q;
     (iy * img niiV1 x y z 1 / norm)%Q; (iz * img niiV1 x y z 2 / norm)%Q;
     0%Q; 0%Q; 0%Q; 0%Q; 0%Q; 0%Q; 0%Q; 0%Q].
Proof.
  reflexivity.
Qed.

Lemma Qsquare_sign (i : Q) : (i == 1)%Q \/ (i == -1)%Q -> (i * i == 1)%Q.
Proof.
  intros [-> | ->]; reflexivity.
Qed.

Lemma Qsquare_nonneg (v : Q) : (0 <= v * v)%Q.
Proof.
  nra.
Qed.

(** X17.  The DTI case stores in every voxel of DIR one slot of volume
    fraction 1 and two slots that are zero throughout.  The direction of the
    first slot is the vector of V1, each component multiplied by its axis
    factor and divided by the norm that [sqrt] returns for the squared
    length of V1, or by 1 when that norm is not positive; the divisor is
    positive.  In the rational model of [float], where sums, products and
    quotients are exact, with axis factors 1 or -1 and a squared length
    whose exact square root [sqrt] returns, the stored direction has
    length 1, except where V1 is the zero vector: there the stored
    direction is zero while the fraction is still 1.  The float code
    reaches length 1 only up to rounding. *)
Theorem dti_voxel_content (sqrtf : Q -> Q) (ix iy iz : Q) (niiV1 : NIFTI Q)
    (x y z : Z) :
  let n2 := (img niiV1 x y z 0 * img niiV1 x y z 0 +
             img niiV1 x y z 1 * img niiV1 x y z 1 +
             img niiV1 x y z 2 * img niiV1 x y z 2)%Q in
  let voxel := dtk2dir.dti_voxel sqrtf ix iy iz niiV1 x y z in
  let d := mkVec3Df (dtk2dir.elt 0%Q voxel 1) (dtk2dir.elt 0%Q voxel 2)
                    (dtk2dir.elt 0%Q voxel 3) in
  length voxel = 12%nat /\
  dtk2dir.elt 0%Q voxel 0 = 1%Q /\
  (forall k, 4 <= k < 12 -> dtk2dir.elt 0%Q voxel k = 0%Q) /\
  (let norm := if Qle_bool (sqrtf n2) 0 then 1%Q else sqrtf n2 in
   (0 < norm)%Q /\
   d = mkVec3Df (ix * img niiV1 x y z 0 / norm)
                (iy * img niiV1 x y z 1 / norm)
                (iz * img niiV1 x y z 2 / norm)) /\
  (((ix == 1)%Q \/ (ix == -1)%Q) -> ((iy == 1)%Q \/ (iy == -1)%Q) ->
   ((iz == 1)%Q \/ (iz == -1)%Q) ->
   (0 <= sqrtf n2)%Q -> (sqrtf n2 * sqrtf n2 == n2)%Q ->
   ((n2 == 0)%Q -> (fx d == 0)%Q /\ (fy d == 0)%Q /\ (fz d == 0)%Q) /\
   (~ (n2 == 0)%Q -> (ScalarProduct d d == 1)%Q)).
Proof.
  intros n2 voxel d. subst d voxel.
  rewrite dti_voxel_unfold. fold n2.
  set (norm := if Qle_bool (sqrtf n2) 0 then 1%Q else sqrtf n2).
  assert (Hnorm : (0 < norm)%Q).
  { subst norm. destruct (Qle_bool (sqrtf n2) 0) eqn:E; [lra|].
    now apply Qle_bool_gt in E. }
  split; [reflexivity|]. split; [reflexivity|]. split.
  { intros k Hk.
    assert (Hk' : k = 4 \/ k = 5 \/ k = 6 \/ k = 7 \/ k = 8 \/ k = 9 \/
                  k = 10 \/ k = 11) by lia.
    repeat destruct Hk' as [-> | Hk']; try reflexivity. subst k. reflexivity. }
  split; [split; [exact Hnorm | reflexivity]|].
  intros Hx Hy Hz Hs0 Hsq.
  match goal with |- context [mkVec3Df ?a ?b ?c] =>
    change (mkVec3Df a b c)
      with (mkVec3Df (ix * img niiV1 x y z 0 / norm)
                     (iy * img niiV1 x y z 1 / norm)
                     (iz * img niiV1 x y z 2 / norm))
  end.
  unfold ScalarProduct. cbn [fx fy fz].
  apply Qsquare_sign in Hx, Hy, Hz.
  set (v0 := img niiV1 x y z 0) in *. set (v1 := img niiV1 x y z 1) in *.
  set (v2 := img niiV1 x y z 2) in *.
  assert (Hne : ~ (norm == 0)%Q) by lra.
  split.
  - intros H0.
    assert (H00 : (v0 * v0 == 0)%Q /\ (v1 * v1 == 0)%Q /\ (v2 * v2 == 0)%Q).
    { subst n2. pose proof (Qsquare_nonneg v0). pose proof (Qsquare_nonneg v1).
      pose proof (Qsquare_nonneg v2). repeat split; lra. }
    destruct H00 as (E0 & E1 & E2).
    assert (Z0 : (v0 == 0)%Q)
      by (destruct (Qmult_integral _ _ E0); assumption).
    assert (Z1 : (v1 == 0)%Q)
      by (destruct (Qmult_integral _ _ E1); assumption).
    assert (Z2 : (v2 == 0)%Q)
      by (destruct (Qmult_integral _ _ E2); assumption).
    rewrite Z0, Z1, Z2. repeat split; field; exact Hne.
  - intros Hnz.
    assert (Hspos : (0 < sqrtf n2)%Q).
    { destruct (Qlt_le_dec 0 (sqrtf n2)) as [H | H]; [exact H|].
      exfalso. apply Hnz. rewrite <- Hsq.
      assert (E : (sqrtf n2 == 0)%Q) by lra. rewrite E. reflexivity. }
    assert (En : norm = sqrtf n2).
    { subst norm. destruct (Qle_bool (sqrtf n2) 0) eqn:E; [|reflexivity].
      apply Qle_bool_iff in E. lra. }
    transitivity (((ix * ix) * (v0 * v0) + (iy * iy) * (v1 * v1) +
                   (iz * iz) * (v2 * v2)) / (norm * norm))%Q.
    + field. exact Hne.
    + rewrite Hx, Hy, Hz, !Qmult_1_l. fold n2. rewrite En, Hsq.
      field. exact Hnz.
Qed.

Lemma dti_voxel_content_witness :
  let voxel := dtk2dir.dti_voxel sample_sqrt 1 (-1) 1 sample_V1 0 0 0 in
  let d := mkVec3Df (dtk2dir.elt 0%Q voxel 1) (dtk2dir.elt 0%Q voxel 2)
                    (dtk2dir.elt 0%Q voxel 3) in
  (ScalarProduct d d == 1)%Q.
Proof.
  intros voxel d.
  apply (proj2 (proj2 (proj2 (proj2
           (dti_voxel_content sample_sqrt 1 (-1) 1 sample_V1 0 0 0)))));
    try (now left); try (now right); vm_compute; try reflexivity;
    discriminate.
Defined.

(** X18.  A tracker that reads a DIR volume written by the DTI case, with a
    volume-fraction threshold that is not negative: [pickBestDir] can only
    select the first slot of a voxel, and only when the threshold is below 1.
    With the threshold at 1, the largest value that [main] of the tracker
    accepts, no voxel offers a candidate: [trackFromXYZ] returns 0
    everywhere and [doTracking], on an output file that [create] has opened,
    returns 0 and leaves the header alone, with the count 0. *)
Theorem dti_DIR_tracking (sqrtf sqrtf' : Q -> Q) (uniform : nat -> Q)
    (f32_bits : Q -> Z) (ix iy iz : Q) (niiV1 : NIFTI Q) (s : streamline) :
  (forall x y z k,
     img (niiDIR s) x y z k = dtk2dir.dti_img sqrtf' ix iy iz niiV1 x y z k) ->
  (0 <= volFracThr (CONFIG s))%Q ->
  (forall voxel d v,
     pickBestDir s voxel d = (true, v) ->
     (volFracThr (CONFIG s) < 1)%Q /\
     (v = Vscale 1 (candidate s voxel 0) \/
      v = Vscale (-1) (candidate s voxel 0))) /\
  ((1 <= volFracThr (CONFIG s))%Q ->
   (forall x y z st, exists st',
      trackFromXYZ sqrtf uniform s x y z st = Some st' /\ found st' = 0%nat) /\
   (forall st garbage openable,
      output_ok f32_bits (niiMASK s) garbage openable ->
      exists disk st',
        doTracking sqrtf uniform f32_bits s st garbage openable
        = Some (0, Some disk, st') /\
        disk = TrackVis.store (TrackVis.offsetof TrackVis.n_count)
                 (TrackVis.le_bytes 4 0)
                 (output_header f32_bits (niiMASK s) garbage) /\
        length disk = 1000%nat)).
Proof.
  intros Himg Hthr.
  assert (Hvf : forall x y z j, 0 <= j <= 2 ->
            img (niiDIR s) x y z (j * 4) = if j =? 0 then 1%Q else 0%Q).
  { intros x y z j Hj. rewrite Himg. unfold dtk2dir.dti_img.
    rewrite dti_voxel_unfold.
    assert (Hj' : j = 0 \/ j = 1 \/ j = 2) by lia.
    destruct Hj' as [-> | [-> | ->]]; reflexivity. }
  split.
  - intros voxel d v Hpick.
    destruct (pickBestDir_gate s voxel d v Hpick) as (j & Hj & Hgate & Hv).
    unfold DIR_at in Hgate. rewrite (Hvf _ _ _ j Hj) in Hgate.
    destruct (j =? 0) eqn:E; [apply Z.eqb_eq in E; subst j | lra].
    split; [exact Hgate | exact Hv].
  - intros Hone.
    assert (Hno : forall x y z, no_candidate s x y z).
    { intros x y z j Hj. rewrite (Hvf _ _ _ j Hj).
      destruct (j =? 0); lra. }
    split.
    + intros x y z st.
      destruct (trackFromXYZ_no_candidate s sqrtf uniform x y z st (Hno x y z))
        as (st' & Hrun & Hfound & _).
      exists st'. split; assumption.
    + intros st garbage openable Hok.
      destruct (doTracking_nothing_saved sqrtf uniform f32_bits s
                  (fun _ => True) st garbage openable Hok)
        as (disk & st' & Hrun & Hdisk & Hlen & _).
      { intros out.
        destruct (voxel_loop_no_candidate s sqrtf uniform f32_bits
                    (raster (dim (niiDIR s) 1) (dim (niiDIR s) 2)
                            (dim (niiDIR s) 3)) st out Hno) as (st' & Hrun).
        exists st'. split; [exact Hrun | exact I]. }
      exists disk, st'. split; [exact Hrun|]. split; assumption.
Qed.

Lemma dti_DIR_tracking_witness :
  (forall voxel d v,
     pickBestDir sample_TRACKER_dti voxel d = (true, v) ->
     (volFracThr (CONFIG sample_TRACKER_dti) < 1)%Q /\
     (v = Vscale 1 (candidate sample_TRACKER_dti voxel 0) \/
      v = Vscale (-1) (candidate sample_TRACKER_dti voxel 0))) /\
  ((1 <= volFracThr (CONFIG sample_TRACKER_dti))%Q ->
   (forall x y z st, exists st',
      trackFromXYZ sample_sqrt sample_uniform sample_TRACKER_dti x y z st
      = Some st' /\ found st' = 0%nat) /\
   (forall st garbage openable,
      output_ok sample_f32_bits (niiMASK sample_TRACKER_dti) garbage
                openable ->
      exists disk st',
        doTracking sample_sqrt sample_uniform sample_f32_bits
                   sample_TRACKER_dti st garbage openable
        = Some (0, Some disk, st') /\
        disk = TrackVis.store (TrackVis.offsetof TrackVis.n_count)
                 (TrackVis.le_bytes 4 0)
                 (output_header sample_f32_bits (niiMASK sample_TRACKER_dti)
                                garbage) /\
        length disk = 1000%nat)).
Proof.
  apply (dti_DIR_tracking sample_sqrt sample_sqrt sample_uniform
           sample_f32_bits 1 1 1 sample_V1 sample_TRACKER_dti).
  - intros x y z k. reflexivity.
  - vm_compute. discriminate.
Defined.

(** ** dtk2dir: the reorientation of the sampling directions *)

Lemma Qsquare_zero (v : Q) : (v * v == 0)%Q -> (v == 0)%Q.
Proof.
  intros E. destruct (Qmult_integral _ _ E); assumption.
Qed.

(** X19.  The "qform is not handled properly" message of the DSI case stays
    away exactly when QFORM is the diagonal matrix (-1,-1,1), which happens
    exactly for the quaternion with [a = b = c = 0] and [d*d = 1].  In that
    case the reorientation loop turns a sampling direction [(x,y,z)] into
    [(-ix*x, iy*y, iz*z)]. *)
Theorem qform_handled (a b c d : Q) (ix iy iz : Q) (tmp : Vec3Df) :
  let m := dtk2dir.QFORM a b c d in
  (dtk2dir.qform_warning m = false <->
   (a == 0)%Q /\ (b == 0)%Q /\ (c == 0)%Q /\ (d * d == 1)%Q) /\
  (dtk2dir.qform_warning m = false ->
   (fx (dtk2dir.reorient ix iy iz m tmp) == - ix * fx tmp)%Q /\
   (fy (dtk2dir.reorient ix iy iz m tmp) == iy * fy tmp)%Q /\
   (fz (dtk2dir.reorient ix iy iz m tmp) == iz * fz tmp)%Q).
Proof.
  intros m.
  assert (Hiff : dtk2dir.qform_warning m = false <->
            (dtk2dir.entry m 0 0 == -1)%Q /\ (dtk2dir.entry m 1 0 == 0)%Q /\
            (dtk2dir.entry m 2 0 == 0)%Q /\ (dtk2dir.entry m 0 1 == 0)%Q /\
            (dtk2dir.entry m 1 1 == -1)%Q /\ (dtk2dir.entry m 2 1 == 0)%Q /\
            (dtk2dir.entry m 0 2 == 0)%Q /\ (dtk2dir.entry m 1 2 == 0)%Q /\
            (dtk2dir.entry m 2 2 == 1)%Q).
  { unfold dtk2dir.qform_warning. rewrite !orb_false_iff, !Qneb_false.
    tauto. }
  assert (Hquat : dtk2dir.qform_warning m = false <->
            (a == 0)%Q /\ (b == 0)%Q /\ (c == 0)%Q /\ (d * d == 1)%Q).
  { rewrite Hiff. subst m.
    change (dtk2dir.entry (dtk2dir.QFORM a b c d) 0 0)
      with (a*a+b*b-c*c-d*d)%Q.
    change (dtk2dir.entry (dtk2dir.QFORM a b c d) 0 1) with (2*b*c-2*a*d)%Q.
    change (dtk2dir.entry (dtk2dir.QFORM a b c d) 0 2) with (2*b*d+2*a*c)%Q.
    change (dtk2dir.entry (dtk2dir.QFORM a b c d) 1 0) with (2*b*c+2*a*d)%Q.
    change (dtk2dir.entry (dtk2dir.QFORM a b c d) 1 1)
      with (a*a+c*c-b*b-d*d)%Q.
    change (dtk2dir.entry (dtk2dir.QFORM a b c d) 1 2) with (2*c*d-2*a*b)%Q.
    change (dtk2dir.entry (dtk2dir.QFORM a b c d) 2 0) with (2*b*d-2*a*c)%Q.
    change (dtk2dir.entry (dtk2dir.QFORM a b c d) 2 1) with (2*c*d+2*a*b)%Q.
    change (dtk2dir.entry (dtk2dir.QFORM a b c d) 2 2)
      with (a*a+d*d-c*c-b*b)%Q.
    split.
    - intros (E00 & E10 & E20 & E01 & E11 & E21 & E02 & E12 & E22).
      assert (Hbc : (b * c == 0)%Q) by lra.
      assert (Hb2 : (b * b == c * c)%Q) by lra.
      assert (Ha2 : (a * a == c * c)%Q) by lra.
      assert (Hc : (c == 0)%Q).
      { destruct (Qmult_integral _ _ Hbc) as [Hb | Hc]; [|exact Hc].
        apply Qsquare_zero. rewrite <- Hb2, Hb. reflexivity. }
      assert (Hc2 : (c * c == 0)%Q) by (rewrite Hc; reflexivity).
      assert (Hb : (b == 0)%Q) by (apply Qsquare_zero; lra).
      assert (Ha : (a == 0)%Q) by (apply Qsquare_zero; lra).
      split; [exact Ha|]. split; [exact Hb|]. split; [exact Hc|]. lra.
    - intros (Ha & Hb & Hc & Hd). rewrite Ha, Hb, Hc.
      repeat split; ring_simplify; try reflexivity; rewrite ?Hd; lra. }
  split; [exact Hquat|].
  intros Hw. apply Hiff in Hw.
  destruct Hw as (E00 & E10 & E20 & E01 & E11 & E21 & E02 & E12 & E22).
  unfold dtk2dir.reorient. cbn [fx fy fz].
  rewrite E00, E10, E20, E01, E11, E21, E02, E12, E22.
  repeat split; ring.
Qed.

(** ** DTB_P0: the range of the map *)

Lemma fold_left_sum_ge (f : Z -> Z) (l : list Z) (acc : Q) :
  (forall i, i ∈ l -> 0 <= f i) ->
  (acc <= fold_left (fun value i => value + inject_Z (f i)) l acc)%Q.
Proof.
  revert acc. induction l as [|i l IH]; intros acc Hpos; cbn [fold_left].
  - lra.
  - assert (H0 : 0 <= f i) by (apply Hpos; left).
    assert (H1 : (0 <= inject_Z (f i))%Q)
      by (change 0%Q with (inject_Z 0); now rewrite <- Zle_Qle).
    assert (Hl : forall j, j ∈ l -> 0 <= f j)
      by (intros j Hj; apply Hpos; now right).
    specialize (IH (acc + inject_Z (f i))%Q Hl). lra.
Qed.

(** X20.  The P0 map is 0 in every voxel whose first sample (b0) is not
    positive.  In a volume that passes the dimension test, a voxel with a
    positive b0 and no negative sample gets a value of at least 1, because
    the sum includes b0 itself: the map has no value strictly between 0
    and 1 there. *)
Theorem P0_voxel_range (niiDWI : NIFTI Z) (x y z : Z) :
  (img niiDWI x y z 0 <= 0 -> P0.P0_voxel niiDWI x y z = 0%Q) /\
  (P0.dimension_ok niiDWI = true ->
   0 < img niiDWI x y z 0 ->
   (forall i, 0 <= i < 515 -> 0 <= img niiDWI x y z i) ->
   (1 <= P0.P0_voxel niiDWI x y z)%Q).
Proof.
  unfold P0.P0_voxel. split.
  - intros Hb0.
    assert (H : (inject_Z (img niiDWI x y z 0) <= 0)%Q)
      by (change 0%Q with (inject_Z 0); now rewrite <- Zle_Qle).
    apply Qltb_ge in H. now rewrite H.
  - intros Hdim Hb0 Hpos.
    assert (Hq : (0 < inject_Z (img niiDWI x y z 0))%Q)
      by (change 0%Q with (inject_Z 0); now rewrite <- Zlt_Qlt).
    pose proof Hq as Hb. apply Qltb_lt in Hb. rewrite Hb.
    unfold P0.dimension_ok in Hdim.
    apply negb_true_iff, orb_false_elim in Hdim as [_ Hdim].
    apply negb_false_iff, Z.eqb_eq in Hdim.
    apply Qle_shift_div_l; [exact Hq|]. rewrite Qmult_1_l.
    unfold P0.accumulate. rewrite Hdim.
    rewrite seqZ_cons by lia. cbn [fold_left].
    eapply Qle_trans;
      [|apply (fold_left_sum_ge (fun i => img niiDWI x y z i));
        intros i Hi; apply elem_of_seqZ in Hi; apply Hpos; lia].
    lra.
Qed.

Lemma P0_voxel_range_witness : (1 <= P0.P0_voxel sample_DWI 0 0 0)%Q.
Proof.
  apply (proj2 (P0_voxel_range sample_DWI 0 0 0)).
  - reflexivity.
  - reflexivity.
  - intros i Hi. unfold sample_DWI. cbn [img].
    destruct (i =? 0); lia.
Defined.

(** ** streamline.h: what [doTracking] reads of the seed mask *)

Lemma elem_of_raster (d1 d2 d3 x y z : Z) :
  (x, y, z) ∈ raster d1 d2 d3 -> 0 <= x < d1 /\ 0 <= y < d2 /\ 0 <= z < d3.
Proof.
  unfold raster. rewrite list_elem_of_bind.
  intros (z' & Hy & Hz). apply list_elem_of_bind in Hy as (y' & Hx & Hy).
  apply list_elem_of_bind in Hx as (x' & Hv & Hx).
  apply list_elem_of_singleton in Hv. injection Hv as -> -> ->.
  apply elem_of_seqZ in Hx, Hy, Hz. lia.
Qed.

Section SeedFrame.
Variable sqrtf : Q -> Q.
Variable uniform : nat -> Q.
Variable f32_bits : Q -> Z.
Variable s : streamline.
Variables seed1 seed2 : option (NIFTI Z).

Lemma while_loop_seed (fuel : nat) (g : growth) :
  while_loop (with_seed s seed1) fuel g = while_loop (with_seed s seed2) fuel g.
Proof.
  revert g. induction fuel as [|fuel IH]; intros g; [reflexivity|].
  cbn [while_loop].
  change (while_body (with_seed s seed1) g)
    with (while_body (with_seed s seed2) g).
  destruct (while_body (with_seed s seed2) g) as [g'|]; [|reflexivity].
  now rewrite IH.
Qed.

Lemma semi_step_body_seed (g : growth) (semi_step : Z) :
  semi_step_body sqrtf (with_seed s seed1) g semi_step
  = semi_step_body sqrtf (with_seed s seed2) g semi_step.
Proof.
  unfold semi_step_body. now rewrite while_loop_seed.
Qed.

Lemma seedDir_body_seed (x y z : Z) (c : Vec3Df) (st : track_state)
    (seedDir : Z) :
  seedDir_body sqrtf (with_seed s seed1) x y z c st seedDir
  = seedDir_body sqrtf (with_seed s seed2) x y z c st seedDir.
Proof.
  unfold seedDir_body.
  change (niiDIR (with_seed s seed1)) with (niiDIR (with_seed s seed2)).
  change (CONFIG (with_seed s seed1)) with (CONFIG (with_seed s seed2)).
  destruct (Qle_bool _ _); [reflexivity|].
  rewrite semi_step_body_seed.
  destruct (semi_step_body sqrtf (with_seed s seed2) _ 0) as [g1|];
    [|reflexivity].
  cbn [mbind option_bind]. now rewrite semi_step_body_seed.
Qed.

Lemma seedNum_loop_seed (x y z : Z) (n : nat) (st : track_state) :
  seedNum_loop sqrtf uniform (with_seed s seed1) x y z n st
  = seedNum_loop sqrtf uniform (with_seed s seed2) x y z n st.
Proof.
  revert st. induction n as [|n IH]; intros st; [reflexivity|].
  cbn [seedNum_loop].
  change (new_seed uniform (with_seed s seed1)) with
    (new_seed uniform (with_seed s seed2)).
  change (outside_WM (with_seed s seed1)) with
    (outside_WM (with_seed s seed2)).
  destruct (outside_WM _ _); [reflexivity|].
  rewrite seedDir_body_seed.
  destruct (seedDir_body sqrtf (with_seed s seed2) x y z _ _ 0) as [st1|];
    [|reflexivity].
  cbn [mbind option_bind]. rewrite seedDir_body_seed.
  destruct (seedDir_body sqrtf (with_seed s seed2) x y z _ st1 1) as [st2|];
    [|reflexivity].
  cbn [mbind option_bind]. rewrite seedDir_body_seed.
  destruct (seedDir_body sqrtf (with_seed s seed2) x y z _ st2 2) as [st3|];
    [|reflexivity].
  cbn [mbind option_bind]. apply IH.
Qed.

Lemma trackFromXYZ_seed (x y z : Z) (st : track_state) :
  trackFromXYZ sqrtf uniform (with_seed s seed1) x y z st
  = trackFromXYZ sqrtf uniform (with_seed s seed2) x y z st.
Proof.
  unfold trackFromXYZ.
  change (niiDIR (with_seed s seed1)) with (niiDIR (with_seed s seed2)).
  change (CONFIG (with_seed s seed1)) with (CONFIG (with_seed s seed2)).
  destruct (_ || _); [reflexivity|]. apply seedNum_loop_seed.
Qed.

Lemma save_found_seed (st : track_state) (acc : TrackVis.state * Z) :
  save_found f32_bits (with_seed s seed1) st acc
  = save_found f32_bits (with_seed s seed2) st acc.
Proof.
  reflexivity.
Qed.

Lemma voxel_loop_seed (vs : list (Z * Z * Z))
    (acc : track_state * (TrackVis.state * Z)) :
  (forall x y z, (x, y, z) ∈ vs ->
     seed_voxel seed1 x y z <-> seed_voxel seed2 x y z) ->
  voxel_loop sqrtf uniform f32_bits (with_seed s seed1) vs acc
  = voxel_loop sqrtf uniform f32_bits (with_seed s seed2) vs acc.
Proof.
  revert acc. induction vs as [|[[x y] z] vs IH]; intros acc Hsame;
    [reflexivity|].
  cbn [voxel_loop].
  assert (Hv : voxel_body sqrtf uniform f32_bits (with_seed s seed1) acc
                 (x, y, z)
               = voxel_body sqrtf uniform f32_bits (with_seed s seed2) acc
                   (x, y, z)).
  { unfold voxel_body. cbn [niiSEED with_seed].
    assert (Hskip : match seed1 with
                    | Some seed => img seed x y z 0 =? 0
                    | None => false
                    end
                    = match seed2 with
                      | Some seed => img seed x y z 0 =? 0
                      | None => false
                      end).
    { specialize (Hsame x y z ltac:(left)).
      destruct seed1 as [n1|], seed2 as [n2|]; cbn [seed_voxel] in Hsame.
      - destruct (img n1 x y z 0 =? 0) eqn:E1, (img n2 x y z 0 =? 0) eqn:E2;
          try reflexivity;
          [apply Z.eqb_eq in E1; apply Z.eqb_neq in E2
          |apply Z.eqb_neq in E1; apply Z.eqb_eq in E2]; tauto.
      - destruct (img n1 x y z 0 =? 0) eqn:E1; [|reflexivity].
        apply Z.eqb_eq in E1. tauto.
      - destruct (img n2 x y z 0 =? 0) eqn:E2; [|reflexivity].
        apply Z.eqb_eq in E2. tauto.
      - reflexivity. }
    fold (with_seed s seed1). fold (with_seed s seed2).
    rewrite Hskip. destruct (match seed2 with Some _ => _ | None => _ end);
      [reflexivity|].
    rewrite trackFromXYZ_seed.
    destruct (trackFromXYZ sqrtf uniform (with_seed s seed2) x y z (fst acc));
      reflexivity. }
  rewrite Hv.
  destruct (voxel_body sqrtf uniform f32_bits (with_seed s seed2) acc
              (x, y, z)) as [acc'|]; [|reflexivity].
  cbn [mbind option_bind]. apply IH.
  intros x' y' z' Hin. apply Hsame. now right.
Qed.
End SeedFrame.

Lemma voxel_loop_no_seed (sqrtf : Q -> Q) (uniform : nat -> Q)
    (f32_bits : Q -> Z) (s : streamline) (seed : NIFTI Z)
    (vs : list (Z * Z * Z)) (acc : track_state * (TrackVis.state * Z)) :
  niiSEED s = Some seed ->
  (forall x y z, (x, y, z) ∈ vs -> img seed x y z 0 = 0) ->
  voxel_loop sqrtf uniform f32_bits s vs acc = Some acc.
Proof.
  intros Hseed. induction vs as [|[[x y] z] vs IH]; intros Hzero;
    [reflexivity|].
  cbn [voxel_loop]. unfold voxel_body. rewrite Hseed.
  rewrite (Hzero x y z ltac:(left)). cbn [Z.eqb mbind option_bind].
  apply IH. intros x' y' z' Hin. apply Hzero. now right.
Qed.

(** X21.  [doTracking] reads of the seed mask only which voxels of the grid
    of DIR are zero: two masks with the same zero voxels on the grid give the
    same fibers, the same file and the same position in the random sequence,
    whatever their other values and their values off the grid; the NULL mask
    is one that is nonzero on the whole grid.  With a mask that is zero on
    the whole grid, [doTracking], on an output file that [create] has
    opened, returns 0, leaves the header alone with the count 0, and leaves
    the arrays and the random sequence as they were. *)
Theorem seed_mask_zero_set (sqrtf : Q -> Q) (uniform : nat -> Q)
    (f32_bits : Q -> Z) (s : streamline) (st : track_state)
    (garbage : list Z) (openable : bool) :
  (forall seed1 seed2,
     (forall x y z, on_grid s x y z ->
        seed_voxel seed1 x y z <-> seed_voxel seed2 x y z) ->
     doTracking sqrtf uniform f32_bits (with_seed s seed1) st garbage openable
     = doTracking sqrtf uniform f32_bits (with_seed s seed2) st garbage
                  openable) /\
  (forall seed,
     (forall x y z, on_grid s x y z -> img seed x y z 0 = 0) ->
     output_ok f32_bits (niiMASK s) garbage openable ->
     exists disk,
       doTracking sqrtf uniform f32_bits (with_seed s (Some seed)) st garbage
                  openable
       = Some (0, Some disk, st) /\
       disk = TrackVis.store (TrackVis.offsetof TrackVis.n_count)
                (TrackVis.le_bytes 4 0)
                (output_header f32_bits (niiMASK s) garbage) /\
       length disk = 1000%nat).
Proof.
  split.
  - intros seed1 seed2 Hsame. unfold doTracking.
    change (niiMASK (with_seed s seed1)) with (niiMASK (with_seed s seed2)).
    change (niiDIR (with_seed s seed1)) with (niiDIR (with_seed s seed2)).
    rewrite (voxel_loop_seed sqrtf uniform f32_bits s seed1 seed2);
      [reflexivity|].
    intros x y z Hin. apply Hsame. apply elem_of_raster in Hin. exact Hin.
  - intros seed Hzero Hok.
    destruct (doTracking_nothing_saved sqrtf uniform f32_bits
                (with_seed s (Some seed)) (fun st' => st' = st) st garbage
                openable Hok)
      as (disk & st' & Hrun & Hdisk & Hlen & ->).
    { intros out. exists st. split; [|reflexivity].
      apply (voxel_loop_no_seed sqrtf uniform f32_bits
               (with_seed s (Some seed)) seed); [reflexivity|].
      intros x y z Hin. apply Hzero. apply elem_of_raster in Hin. exact Hin. }
    exists disk. split; [exact Hrun|]. split; assumption.
Qed.

Lemma seed_mask_zero_set_witness :
  doTracking sample_sqrt sample_uniform sample_f32_bits
             (with_seed sample_TRACKER (Some sample_MASK)) sample_arrays
             sample_garbage true
  = doTracking sample_sqrt sample_uniform sample_f32_bits
               (with_seed sample_TRACKER None) sample_arrays sample_garbage
               true.
Proof.
  apply (proj1 (seed_mask_zero_set sample_sqrt sample_uniform sample_f32_bits
                  sample_TRACKER sample_arrays sample_garbage true)).
  intros x y z _. cbn [seed_voxel sample_MASK img]. split; [tauto | lia].
Defined.

(** ** streamline.h: the seed point of a fiber *)

Section SeededFibers.
Variable sqrtf : Q -> Q.
Variable uniform : nat -> Q.
Variable s : streamline.
Variables x y z : Z.

Lemma seedDir_body_seeded (lo k : nat) (st st' : track_state) (seedDir : Z) :
  0 <= seedDir <= 2 ->
  (lo + 3 * k + 3 <= drawn st)%nat ->
  outside_WM s (new_seed uniform s x y z (lo + 3 * k)) = false ->
  seeded uniform s x y z lo st ->
  (found st < length (FIBERs st))%nat ->
  seedDir_body sqrtf s x y z (new_seed uniform s x y z (lo + 3 * k)) st seedDir
  = Some st' ->
  seeded uniform s x y z lo st' /\ drawn st' = drawn st /\
  length (FIBERs st') = length (FIBERs st) /\
  (found st' <= found st + 1)%nat.
Proof.
  intros Hdir Hk Hin Hseeded Hroom. unfold seedDir_body.
  destruct (Qle_bool _ _) eqn:Hvf.
  { intros [= <-]. repeat split; auto; lia. }
  apply Qle_bool_gt in Hvf.
  set (c0 := new_seed uniform s x y z (lo + 3 * k)).
  set (d := mkVec3Df _ _ _).
  set (g0 := mk_growth _ _ _ _).
  destruct (semi_step_body_spec sqrtf s g0 0 ltac:(simpl; lia))
    as (g1 & -> & Hs1 & _ & _ & In1).
  cbn [mbind option_bind].
  destruct (semi_step_body_spec sqrtf s g1 1 ltac:(simpl in Hs1; lia))
    as (g2 & -> & _ & _ & _ & In2).
  cbn [mbind option_bind]. intros [= <-]. cbn [FIBERs found drawn].
  rewrite length_insert. split; [|repeat split; lia].
  intros i Hi. cbn [FIBERs found drawn] in *.
  destruct (decide (i = found st)) as [->|Hne].
  - exists (fiber g2), k. rewrite list_lookup_insert_eq by lia.
    split; [reflexivity|]. split; [exact Hk|]. split; [exact Hin|].
    split.
    + apply In2, In1. subst g0. cbn [fiber]. now left.
    + exists seedDir. split; [exact Hdir|]. split; [exact Hvf|].
      apply In2, In1. subst g0. cbn [fiber]. right. now left.
  - rewrite list_lookup_insert_ne by lia. apply Hseeded. lia.
Qed.

Lemma seedNum_loop_seeded (lo m n : nat) (st st' : track_state) :
  drawn st = (lo + 3 * m)%nat ->
  seeded uniform s x y z lo st ->
  (found st + 3 * n <= length (FIBERs st))%nat ->
  seedNum_loop sqrtf uniform s x y z n st = Some st' ->
  seeded uniform s x y z lo st' /\
  (drawn st' <= lo + 3 * (m + n))%nat.
Proof.
  revert m st. induction n as [|n IH]; intros m st Hdrawn Hseeded Hroom;
    cbn [seedNum_loop].
  - intros [= <-]. split; [exact Hseeded | lia].
  - set (st0 := mk_track _ _ _ _).
    assert (H0 : seeded uniform s x y z lo st0).
    { intros i Hi. destruct (Hseeded i Hi) as (f & k & Hf & Hk & H).
      exists f, k. split; [exact Hf|]. split; [|exact H].
      subst st0. cbn [drawn]. lia. }
    rewrite Hdrawn.
    destruct (outside_WM s (new_seed uniform s x y z (lo + 3 * m))) eqn:Hin.
    { intros [= <-]. split; [exact H0|]. subst st0. cbn [drawn]. lia. }
    assert (Hk : (lo + 3 * m + 3 <= drawn st0)%nat)
      by (subst st0; cbn [drawn]; lia).
    destruct (seedDir_body sqrtf s x y z _ st0 0) as [st1|] eqn:E1;
      cbn [mbind option_bind]; [|discriminate].
    destruct (seedDir_body_seeded lo m st0 st1 0 ltac:(lia) Hk Hin H0)
      as (H1 & D1 & L1 & F1); [subst st0; simpl; lia | exact E1 |].
    destruct (seedDir_body sqrtf s x y z _ st1 1) as [st2|] eqn:E2;
      cbn [mbind option_bind]; [|discriminate].
    destruct (seedDir_body_seeded lo m st1 st2 1 ltac:(lia)
                ltac:(lia) Hin H1)
      as (H2 & D2 & L2 & F2); [subst st0; simpl in *; lia | exact E2 |].
    destruct (seedDir_body sqrtf s x y z _ st2 2) as [st3|] eqn:E3;
      cbn [mbind option_bind]; [|discriminate].
    destruct (seedDir_body_seeded lo m st2 st3 2 ltac:(lia)
                ltac:(lia) Hin H2)
      as (H3 & D3 & L3 & F3); [subst st0; simpl in *; lia | exact E3 |].
    intros Hrun.
    destruct (IH (S m) st3) as [Hs Hd];
      [subst st0; simpl in *; lia | exact H3 | subst st0; simpl in *; lia
      | exact Hrun |].
    split; [exact Hs | lia].
Qed.

Lemma new_seed_voxel (n : nat) :
  (forall i, (0 <= uniform i)%Q /\ (uniform i < 1)%Q) ->
  (forall i, 1 <= i <= 3 -> (0 < pixdim (niiDIR s) i)%Q) ->
  voxel_of (niiDIR s) (new_seed uniform s x y z n) = mkVec3Di x y z.
Proof.
  intros Hu Hp.
  assert (Hfloor : forall (c : Z) (u p : Q),
            (0 <= u)%Q -> (u < 1)%Q -> (0 < p)%Q ->
            Qfloor ((inject_Z c + u) * p / p) = c).
  { intros c u p Hu0 Hu1 Hp0.
    assert (E : ((inject_Z c + u) * p / p == inject_Z c + u)%Q)
      by (field; lra).
    rewrite E.
    assert (Hlo : c <= Qfloor (inject_Z c + u)).
    { rewrite <- (Qfloor_Z c) at 1. apply Qfloor_resp_le. lra. }
    assert (Hhi : Qfloor (inject_Z c + u) < c + 1).
    { apply Z.lt_succ_r. apply Z.lt_succ_r. unfold Z.succ.
      rewrite Zlt_Qlt. eapply Qle_lt_trans; [apply Qfloor_le|].
      rewrite !inject_Z_plus. change (inject_Z 1) with 1%Q. lra. }
    lia. }
  unfold voxel_of, new_seed. cbn [fx fy fz].
  destruct (Hu n), (Hu (n + 1)%nat), (Hu (n + 2)%nat).
  rewrite !Hfloor; auto; apply Hp; lia.
Qed.
End SeededFibers.

(** X22.  Let [maxLength] be at least 2, so that the two first columns of
    a fiber fit its buffer.  Every fiber that [trackFromXYZ] returns for the
    voxel [(x,y,z)] passes through one of the seed points drawn for that
    voxel, one that is inside the white matter, and through that point
    advanced by [stepSize] along a direction stored in that voxel of DIR
    with a volume fraction above the threshold.  With random numbers in
    [0,1) and positive voxel sizes, the seed point lies in the voxel
    [(x,y,z)] of DIR. *)
Theorem trackFromXYZ_seeded (sqrtf : Q -> Q) (uniform : nat -> Q)
    (s : streamline) (x y z : Z) (st : track_state) :
  2 <= maxLength (CONFIG s) ->
  (3 * Z.to_nat (seeds (CONFIG s)) <= length (FIBERs st))%nat ->
  (3 * Z.to_nat (seeds (CONFIG s)) <= length (LENGTHs st))%nat ->
  exists st', trackFromXYZ sqrtf uniform s x y z st = Some st' /\
    forall i, (i < found st')%nat ->
      exists f k, FIBERs st' !! i = Some f /\
        (k < Z.to_nat (seeds (CONFIG s)))%nat /\
        let seed := new_seed uniform s x y z (drawn st + 3 * k) in
        outside_WM s seed = false /\
        In seed f /\
        (exists j, 0 <= j <= 2 /\
           (volFracThr (CONFIG s) < DIR_at s (mkVec3Di x y z) (j*4))%Q /\
           In (Vstep seed (stepSize (CONFIG s))
                     (candidate s (mkVec3Di x y z) j)) f) /\
        ((forall n, (0 <= uniform n)%Q /\ (uniform n < 1)%Q) ->
         (forall a, 1 <= a <= 3 -> (0 < pixdim (niiDIR s) a)%Q) ->
         voxel_of (niiDIR s) seed = mkVec3Di x y z).
Proof.
  intros _ HF HL.
  destruct (trackFromXYZ_spec sqrtf uniform s x y z st HF HL)
    as (st' & Hrun & _).
  exists st'. split; [exact Hrun|].
  assert (H : seeded uniform s x y z (drawn st) st' /\
              (drawn st' <= drawn st + 3 * Z.to_nat (seeds (CONFIG s)))%nat).
  { revert Hrun. unfold trackFromXYZ.
    set (st0 := mk_track _ _ _ _).
    assert (H0 : seeded uniform s x y z (drawn st) st0)
      by (intros i Hi; simpl in Hi; lia).
    match goal with |- context [if ?b then _ else _] => destruct b end.
    - intros [= <-]. split; [exact H0|]. subst st0. simpl. lia.
    - intros Hrun.
      destruct (seedNum_loop_seeded sqrtf uniform s x y z (drawn st) 0
                  (Z.to_nat (seeds (CONFIG s))) st0 st')
        as [Hs Hd]; [subst st0; simpl; lia | exact H0
                    | subst st0; simpl; lia | exact Hrun |].
      split; [exact Hs | lia]. }
  destruct H as [Hseeded Hdrawn].
  intros i Hi. destruct (Hseeded i Hi) as (f & k & Hf & Hk & Hin & Hc & Hj).
  exists f, k. split; [exact Hf|]. split; [lia|]. cbv zeta.
  split; [exact Hin|]. split; [exact Hc|]. split; [exact Hj|].
  intros Hu Hp. now apply new_seed_voxel.
Qed.

Lemma trackFromXYZ_seeded_witness :
  exists st',
    trackFromXYZ sample_sqrt sample_uniform sample_TRACKER 1 1 1 sample_arrays
    = Some st' /\
    forall i, (i < found st')%nat ->
      exists f k, FIBERs st' !! i = Some f /\
        (k < Z.to_nat (seeds (CONFIG sample_TRACKER)))%nat /\
        let seed := new_seed sample_uniform sample_TRACKER 1 1 1
                             (drawn sample_arrays + 3 * k) in
        outside_WM sample_TRACKER seed = false /\
        In seed f /\
        (exists j, 0 <= j <= 2 /\
           (volFracThr (CONFIG sample_TRACKER)
            < DIR_at sample_TRACKER (mkVec3Di 1 1 1) (j*4))%Q /\
           In (Vstep seed (stepSize (CONFIG sample_TRACKER))
                     (candidate sample_TRACKER (mkVec3Di 1 1 1) j)) f) /\
        ((forall n, (0 <= sample_uniform n)%Q /\ (sample_uniform n < 1)%Q) ->
         (forall a, 1 <= a <= 3 -> (0 < pixdim (niiDIR sample_TRACKER) a)%Q) ->
         voxel_of (niiDIR sample_TRACKER) seed = mkVec3Di 1 1 1).
Proof.
  apply (trackFromXYZ_seeded sample_sqrt sample_uniform sample_TRACKER
           1 1 1 sample_arrays); simpl; lia.
Defined.

(** ** dtk2dir: the tracker on the output of the DSI case *)

Lemma dsi_voxel_filled (dirlist : Z -> Vec3Df) (ODF : Z -> Q)
    (MAXv : Z -> Z) (vf_THR : Q) :
  exists f0 f1 f2 p0 p1 p2,
    dtk2dir.dsi_voxel dirlist ODF MAXv vf_THR
    = [f0; fx (dirlist p0); fy (dirlist p0); fz (dirlist p0);
       f1; fx (dirlist p1); fy (dirlist p1); fz (dirlist p1);
       f2; fx (dirlist p2); fy (dirlist p2); fz (dirlist p2)] /\
    forall f p, (f, p) ∈ [(f0, p0); (f1, p1); (f2, p2)] -> (0 < f)%Q ->
      0 <= p < 181 /\
      eligible ODF MAXv (fst (dtk2dir.minmax ODF)) (snd (dtk2dir.minmax ODF))
               vf_THR p.
Proof.
  destruct (locate_ranked ODF MAXv vf_THR)
    as (a & b & c & pa & pb & pc & E & Ha & Hb & Hc & _).
  assert (Hfilled : forall v p,
            slot_ok ODF MAXv (fst (dtk2dir.minmax ODF))
                    (snd (dtk2dir.minmax ODF)) vf_THR 181 v p ->
            (0 < v)%Q ->
            0 <= p < 181 /\
            eligible ODF MAXv (fst (dtk2dir.minmax ODF))
                     (snd (dtk2dir.minmax ODF)) vf_THR p).
  { intros v p [[-> _] | (_ & Hp & He & _)] Hv; [lra|]. now split. }
  unfold dtk2dir.dsi_voxel. rewrite E, normalize_cases.
  destruct (Qltb 0 (a + b + c)) eqn:Hs;
    [apply Qltb_lt in Hs | apply Qltb_ge in Hs]; rewrite store_slots.
  - exists (a / (a + b + c))%Q, (b / (a + b + c))%Q, (c / (a + b + c))%Q,
           pa, pb, pc.
    split; [reflexivity|].
    assert (Hpos : forall v, (0 < v / (a + b + c))%Q -> (0 < v)%Q).
    { intros v Hv.
      assert (Hv' : (v == v / (a + b + c) * (a + b + c))%Q) by (field; lra).
      rewrite Hv'. apply Qmult_lt_0_compat; assumption. }
    intros f p Hin Hf.
    rewrite !elem_of_cons in Hin.
    destruct Hin as [[= -> ->] | [[= -> ->] | [[= -> ->] | Hin]]];
      [| | |now apply elem_of_nil in Hin].
    + apply (Hfilled a); [exact Ha | now apply Hpos].
    + apply (Hfilled b); [exact Hb | now apply Hpos].
    + apply (Hfilled c); [exact Hc | now apply Hpos].
  - exists a, b, c, pa, pb, pc. split; [reflexivity|].
    intros f p Hin Hf.
    rewrite !elem_of_cons in Hin.
    destruct Hin as [[= -> ->] | [[= -> ->] | [[= -> ->] | Hin]]];
      [| | |now apply elem_of_nil in Hin].
    + now apply (Hfilled a).
    + now apply (Hfilled b).
    + now apply (Hfilled c).
Qed.

(** X23.  A tracker that reads a DIR volume written by the DSI case, with a
    volume-fraction threshold that is not negative, never follows the
    direction of an empty slot: whenever [pickBestDir] selects a direction in
    a voxel, it is plus or minus a sampling direction whose index is marked
    as a maximum in that voxel of the MAX volume and whose rescaled ODF value
    is not below the peak threshold of the conversion. *)
Theorem dsi_DIR_tracking (dirlist : Z -> Vec3Df) (niiODF : NIFTI Q)
    (niiMAX : NIFTI Z) (vf_THR : Q) (s : streamline) :
  (forall x y z k,
     img (niiDIR s) x y z k
     = dtk2dir.dsi_img dirlist niiODF niiMAX vf_THR x y z k) ->
  (0 <= volFracThr (CONFIG s))%Q ->
  forall voxel d v,
    pickBestDir s voxel d = (true, v) ->
    let ODF := fun i => img niiODF i (ix voxel) (iy voxel) (iz voxel) in
    exists p, 0 <= p < 181 /\
      img niiMAX p (ix voxel) (iy voxel) (iz voxel) = 1 /\
      (vf_THR <= dtk2dir.rescaled ODF (fst (dtk2dir.minmax ODF))
                                  (snd (dtk2dir.minmax ODF)) p)%Q /\
      (v = Vscale 1 (dirlist p) \/ v = Vscale (-1) (dirlist p)).
Proof.
  intros Himg Hthr voxel d v Hpick ODF.
  destruct (pickBestDir_gate s voxel d v Hpick) as (j & Hj & Hgate & Hv).
  unfold candidate, DIR_at in Hgate, Hv. rewrite !Himg in Hv.
  rewrite Himg in Hgate. unfold dtk2dir.dsi_img in Hgate, Hv.
  fold ODF in Hgate, Hv.
  set (MAXv := fun i => img niiMAX i (ix voxel) (iy voxel) (iz voxel)) in *.
  destruct (dsi_voxel_filled dirlist ODF MAXv vf_THR)
    as (f0 & f1 & f2 & p0 & p1 & p2 & E & Hfilled).
  rewrite E in Hgate, Hv.
  assert (Heta : forall w, mkVec3Df (fx w) (fy w) (fz w) = w)
    by (intros [? ? ?]; reflexivity).
  assert (Hj' : j = 0 \/ j = 1 \/ j = 2) by lia.
  destruct Hj' as [-> | [-> | ->]].
  - change (dtk2dir.elt 0%Q _ (0 * 4)) with f0 in Hgate.
    change (mkVec3Df (dtk2dir.elt 0%Q _ (0 * 4 + 1))
                     (dtk2dir.elt 0%Q _ (0 * 4 + 2))
                     (dtk2dir.elt 0%Q _ (0 * 4 + 3)))
      with (mkVec3Df (fx (dirlist p0)) (fy (dirlist p0)) (fz (dirlist p0)))
      in Hv.
    rewrite Heta in Hv.
    destruct (Hfilled f0 p0 ltac:(left) ltac:(lra)) as (Hp & Hm & Ht).
    exists p0. split; [exact Hp|]. split; [exact Hm|]. split; assumption.
  - change (dtk2dir.elt 0%Q _ (1 * 4)) with f1 in Hgate.
    change (mkVec3Df (dtk2dir.elt 0%Q _ (1 * 4 + 1))
                     (dtk2dir.elt 0%Q _ (1 * 4 + 2))
                     (dtk2dir.elt 0%Q _ (1 * 4 + 3)))
      with (mkVec3Df (fx (dirlist p1)) (fy (dirlist p1)) (fz (dirlist p1)))
      in Hv.
    rewrite Heta in Hv.
    destruct (Hfilled f1 p1 ltac:(right; left) ltac:(lra)) as (Hp & Hm & Ht).
    exists p1. split; [exact Hp|]. split; [exact Hm|]. split; assumption.
  - change (dtk2dir.elt 0%Q _ (2 * 4)) with f2 in Hgate.
    change (mkVec3Df (dtk2dir.elt 0%Q _ (2 * 4 + 1))
                     (dtk2dir.elt 0%Q _ (2 * 4 + 2))
                     (dtk2dir.elt 0%Q _ (2 * 4 + 3)))
      with (mkVec3Df (fx (dirlist p2)) (fy (dirlist p2)) (fz (dirlist p2)))
      in Hv.
    rewrite Heta in Hv.
    destruct (Hfilled f2 p2 ltac:(right; right; left) ltac:(lra))
      as (Hp & Hm & Ht).
    exists p2. split; [exact Hp|]. split; [exact Hm|]. split; assumption.
Qed.

Lemma dsi_DIR_tracking_witness :
  let ODF := fun i => img sample_ODF i 1 1 1 in
  pickBestDir sample_TRACKER_dsi (mkVec3Di 1 1 1) (mkVec3Df 1 0 0)
  = (true, mkVec3Df 1 0 0) /\
  exists p, 0 <= p < 181 /\
    img sample_MAX p 1 1 1 = 1 /\
    ((1 # 2) <= dtk2dir.rescaled ODF (fst (dtk2dir.minmax ODF))
                                 (snd (dtk2dir.minmax ODF)) p)%Q /\
    (mkVec3Df 1 0 0 = Vscale 1 (sample_dirlist p) \/
     mkVec3Df 1 0 0 = Vscale (-1) (sample_dirlist p)).
Proof.
  intros ODF.
  assert (Hpick : pickBestDir sample_TRACKER_dsi (mkVec3Di 1 1 1)
                              (mkVec3Df 1 0 0)
                  = (true, mkVec3Df 1 0 0)) by (vm_compute; reflexivity).
  split; [exact Hpick|].
  apply (dsi_DIR_tracking sample_dirlist sample_ODF sample_MAX (1 # 2)
           sample_TRACKER_dsi (fun x y z k => eq_refl)
           ltac:(vm_compute; discriminate)
           (mkVec3Di 1 1 1) (mkVec3Df 1 0 0) (mkVec3Df 1 0 0) Hpick).
Defined.
